(** * libhugetlbfs, elflink.c: remapping program segments onto huge pages

    A shallow embedding of [elflink.c] (LP64 build) and the properties of
    its scanner, materializer, shared-file protocol, remap engine and
    bootstrap constructor.

    Conventions.
    - [unsigned long] and pointers are [Z] in [0, 2^64); every C operation
      that can wrap is written with [wrap].  [int] values that stay small
      (loop indices, return codes, file descriptors) are plain [Z].
    - Typed memory reached through a pointer is a list of the entries
      readable there; a read past the list is a memory fault ([None]).
    - System and library calls are answered by an oracle and recorded, with
      the C function that issued them, in a trace.
    - The ERROR / WARNING / DEBUG macros only print diagnostics; they are
      not modelled. *)

From Stdlib Require Import ZArith List String Ascii Bool Lia.
From Stdlib Require Import DecimalString DecimalZ DecimalPos.
Import ListNotations.
Open Scope Z_scope.

(** ** Machine words *)

Definition WORD : Z := 2 ^ 64.

Definition wrap (x : Z) : Z := x mod WORD.

(** [void *] plus a byte count, and the difference of two pointers stored
    into an [unsigned long]. *)
Definition ptr_add (p n : Z) : Z := wrap (p + n).
Definition ptr_diff (p q : Z) : Z := wrap (p - q).

(** Conversion of a wide value to a 32-bit [int]. *)
Definition to_int (x : Z) : Z := (x + 2 ^ 31) mod 2 ^ 32 - 2 ^ 31.

(** Conversion to [unsigned] (the [%u] argument of [unmapped_abort]). *)
Definition to_unsigned (x : Z) : Z := x mod 2 ^ 32.

(** ** Constants of <elf.h>, <sys/mman.h>, <fcntl.h>, <errno.h>, <signal.h> *)

Definition PT_LOAD : Z := 1.
Definition PT_DYNAMIC : Z := 2.
Definition PF_X : Z := 1.
Definition PF_W : Z := 2.
Definition PF_R : Z := 4.
Definition DT_NULL : Z := 0.
Definition DT_STRTAB : Z := 5.
Definition DT_SYMTAB : Z := 6.
Definition STB_GLOBAL : Z := 1.
Definition STB_WEAK : Z := 2.
Definition STT_OBJECT : Z := 1.
Definition PROT_READ : Z := 1.
Definition PROT_WRITE : Z := 2.
Definition PROT_EXEC : Z := 4.
Definition MAP_SHARED : Z := 1.
Definition MAP_PRIVATE : Z := 2.
Definition MAP_FIXED : Z := 16.
Definition MAP_FAILED : Z := WORD - 1.
Definition O_RDONLY : Z := 0.
Definition O_RDWR : Z := 2.
Definition O_CREAT : Z := 64.
Definition O_EXCL : Z := 128.
Definition ENOENT : Z := 2.
Definition EEXIST : Z := 17.
Definition SIGABRT : Z := 6.
Definition S_IFMT : Z := 61440.
Definition S_IFDIR : Z := 16384.
Definition S_IWGRP : Z := 16.
Definition S_IWOTH : Z := 2.
Definition PATH_MAX : Z := 4096.
Definition sizeof_Elf_Sym : Z := 24.

(** Modelled from the spec: the flag bit of a program header that marks the
    segment for huge-page promotion; [hugetlbfs.h], which defines
    [PF_LINUX_HUGETLB], is not among the sources. *)
Definition PF_LINUX_HUGETLB : Z := 1048576.

(** Modelled from the spec: the [ALIGN] macro of
    [libhugetlbfs_internal.h], which is not among the sources; the spec's
    [align_up]: [x] rounded up to a multiple of [a], in [unsigned long]
    arithmetic. *)
Definition ALIGN (x a : Z) : Z :=
  if a <=? 0 then wrap x else wrap ((x + a - 1) / a * a).

Definition MAX_HTLB_SEGS : Z := 2.

(** ** ELF structures *)

Record Elf_Phdr := mkPhdr {
  p_type : Z;
  p_flags : Z;
  p_vaddr : Z;
  p_filesz : Z;
  p_memsz : Z
}.

Record Elf_Dyn := mkDyn {
  d_tag : Z;
  d_ptr : Z
}.

Record Elf_Sym := mkSym {
  st_value : Z;
  st_size : Z;
  st_info : Z
}.

Definition ELF_ST_BIND (x : Z) : Z := Z.shiftr x 4.
Definition ELF_ST_TYPE (x : Z) : Z := Z.land x 15.

(** [struct seg_info] *)
Record seg_info := mkSeg {
  vaddr : Z;
  extra_vaddr : Z;
  filesz : Z;
  memsz : Z;
  extrasz : Z;
  prot : Z;
  fd : Z;
  index : Z
}.

(** An entry of the static (zero-initialised) [htlb_seg_table]. *)
Definition seg_zero : seg_info := mkSeg 0 0 0 0 0 0 0 0.

Definition set_extra (s : seg_info) (ev esz : Z) : seg_info :=
  mkSeg (vaddr s) ev (filesz s) (memsz s) esz (prot s) (fd s) (index s).

Definition set_fd (s : seg_info) (f : Z) : seg_info :=
  mkSeg (vaddr s) (extra_vaddr s) (filesz s) (memsz s) (extrasz s)
        (prot s) f (index s).

(** The loaded image as the scanner reads it: the memory at the program
    header pointer as an array of headers (it may extend past the
    [e_phnum] entries of the table), the dynamic entries and the symbols
    readable at an address, and the address of the weak symbol
    [__libhuge_filesz] (0 when it is undefined). *)
Record image := mkImage {
  e_phnum : Z;
  phdr_mem : list Elf_Phdr;
  dyn_at : Z -> list Elf_Dyn;
  sym_at : Z -> list Elf_Sym;
  libhuge_filesz : Z
}.

Definition nth_z {A : Type} (l : list A) (i : Z) : option A :=
  if i <? 0 then None else nth_error l (Z.to_nat i).

(** ** find_dynamic *)

(** The [while] loop of [find_dynamic], on the memory from [phdr + i] on.
    The first component lists the indices read, in order; the second is
    the value of [i] when the loop ends, or [None] when [phdr[i]] is not
    readable.  The condition reads [phdr[i].p_type] before it tests
    [i < phnum]. *)
Fixpoint find_dynamic_scan (mem : list Elf_Phdr) (i phnum : Z)
  : list Z * option Z :=
  match mem with
  | [] => ([i], None)
  | ph :: rest =>
      if negb (p_type ph =? PT_DYNAMIC) && (i <? phnum)
      then let (reads, r) := find_dynamic_scan rest (i + 1) phnum in
           (i :: reads, r)
      else ([i], Some i)
  end.

(** [find_dynamic]: the indices of [phdr] it reads, and its outcome:
    [None] for a fault, else the return value and [*dyntab] (left
    untouched, [None], on -1). *)
Definition find_dynamic_run (phdr : list Elf_Phdr) (phnum : Z)
  : list Z * option (Z * option Z) :=
  let (reads, r) := find_dynamic_scan (skipn 1 phdr) 1 phnum in
  match r with
  | None => (reads, None)
  | Some i =>
      match nth_z phdr i with
      | None => (reads ++ [i], None)
      | Some ph =>
          if p_type ph =? PT_DYNAMIC
          then (reads ++ [i], Some (0, Some (p_vaddr ph)))
          else (reads ++ [i], Some (-1, None))
      end
  end.

Definition find_dynamic_reads (phdr : list Elf_Phdr) (phnum : Z) : list Z :=
  fst (find_dynamic_run phdr phnum).

Definition find_dynamic (phdr : list Elf_Phdr) (phnum : Z)
  : option (Z * option Z) :=
  snd (find_dynamic_run phdr phnum).

(** ** find_tables *)

(** The loop of [find_tables] on the entries from [dyntab + i] on;
    [symtab] and [strtab] are the caller's variables (0 is NULL). *)
Fixpoint find_tables_scan (mem : list Elf_Dyn) (symtab strtab : Z)
  : option (Z * Z) :=
  match mem with
  | [] => None
  | d :: rest =>
      if d_tag d =? DT_NULL then Some (symtab, strtab)
      else if d_tag d =? DT_SYMTAB
           then find_tables_scan rest (d_ptr d) strtab
           else if d_tag d =? DT_STRTAB
                then find_tables_scan rest symtab (d_ptr d)
                else find_tables_scan rest symtab strtab
  end.

(** [find_tables]: return value, [*symtab], [*strtab]; the scan starts at
    index 1. *)
Definition find_tables (dyntab : list Elf_Dyn) (symtab strtab : Z)
  : option (Z * Z * Z) :=
  match find_tables_scan (skipn 1 dyntab) symtab strtab with
  | None => None
  | Some (sy, st) =>
      if sy =? 0 then Some (-1, sy, st)
      else if st =? 0 then Some (-1, sy, st)
      else Some (0, sy, st)
  end.

(** ** find_numsyms *)

Definition find_numsyms (symtab strtab : Z) : Z :=
  if strtab <=? symtab then -1
  else to_int (wrap (strtab - symtab) / sizeof_Elf_Sym).

(** ** keep_symbol *)

Definition keep_symbol (s : Elf_Sym) (start end_ : Z) : bool :=
  if st_value s <? start then false
  else if st_value s >? end_ then false
  else if negb (ELF_ST_BIND (st_info s) =? STB_GLOBAL)
          && negb (ELF_ST_BIND (st_info s) =? STB_WEAK) then false
  else if negb (ELF_ST_TYPE (st_info s) =? STT_OBJECT) then false
  else if st_size s =? 0 then false
  else true.

(** ** get_extracopy *)

(** The locals [start], [end] and [found_sym] of [get_extracopy]. *)
Record window := mkWin {
  w_start : Z;
  w_end : Z;
  found_sym : bool
}.

(** One iteration of the symbol loop. *)
Definition scan_step (start_orig end_orig : Z) (w : window) (sym : Elf_Sym)
  : window :=
  if negb (keep_symbol sym start_orig end_orig) then w
  else
    let sym_start := st_value sym in
    let sym_end := wrap (st_value sym + st_size sym) in
    mkWin (if sym_start <? w_start w then sym_start else w_start w)
          (if sym_end >? w_end w then sym_end else w_end w)
          true.

(** [for (sym = symtab; sym < symtab + numsyms; sym++)]: [n] symbols are
    read from [symtab] on. *)
Fixpoint scan_symbols (n : nat) (mem : list Elf_Sym)
    (start_orig end_orig : Z) (w : window) : option window :=
  match n with
  | O => Some w
  | S n' =>
      match mem with
      | [] => None
      | sym :: rest =>
          scan_symbols n' rest start_orig end_orig
                       (scan_step start_orig end_orig w sym)
      end
  end.

(** The test against [&__libhuge_filesz] after the loop. *)
Definition apply_sentinel (sentinel start_orig end_orig : Z) (w : window)
  : window :=
  if sentinel >? w_end w
  then mkWin (if w_start w =? end_orig then start_orig else w_start w)
             sentinel (found_sym w)
  else w.

(** The exits through [bail] and [bail2]. *)
Definition bail2 (seg : seg_info) : seg_info :=
  set_extra seg (ptr_add (vaddr seg) (filesz seg))
            (ptr_diff (ptr_add (vaddr seg) (memsz seg))
                      (ptr_add (vaddr seg) (filesz seg))).

(** [get_extracopy]: the segment as it leaves the function, [None] on a
    memory fault.  [check_bss] only prints warnings. *)
Definition get_extracopy (minimal_copy : bool) (img : image)
    (seg : seg_info) (phdr : list Elf_Phdr) (phnum : Z) : option seg_info :=
  let end_orig := ptr_add (vaddr seg) (memsz seg) in
  let start_orig := ptr_add (vaddr seg) (filesz seg) in
  if filesz seg =? memsz seg then Some seg
  else if negb minimal_copy then Some (bail2 seg)
  else
    match find_dynamic phdr phnum with
    | None => None
    | Some (ret, dyntab) =>
        if ret <? 0 then Some (bail2 seg)
        else
          match
            match dyntab with
            | None => None
            | Some d => find_tables (dyn_at img d) 0 0
            end
          with
          | None => None
          | Some (ret, symtab, strtab) =>
              if ret <? 0 then Some (bail2 seg)
              else
                let numsyms := find_numsyms symtab strtab in
                if numsyms <? 0 then Some (bail2 seg)
                else
                  match scan_symbols (Z.to_nat numsyms) (sym_at img symtab)
                          start_orig end_orig
                          (mkWin end_orig start_orig false) with
                  | None => None
                  | Some w =>
                      let w' := apply_sentinel (libhuge_filesz img)
                                  start_orig end_orig w in
                      if found_sym w'
                      then Some (set_extra seg (w_start w')
                                   (ptr_diff (w_end w') (w_start w')))
                      else Some seg
                  end
          end
    end.

(** ** parse_elf *)

Fixpoint set_nth {A : Type} (n : nat) (l : list A) (x : A) : list A :=
  match l, n with
  | [], _ => []
  | _ :: t, O => x :: t
  | h :: t, S n' => h :: set_nth n' t x
  end.

Definition set_nth_z {A : Type} (l : list A) (i : Z) (x : A) : list A :=
  if i <? 0 then l else set_nth (Z.to_nat i) l x.

(** [prot] as [parse_elf] builds it from [p_flags]. *)
Definition prot_of_flags (fl : Z) : Z :=
  let p0 := 0 in
  let p1 := if Z.land fl PF_R =? 0 then p0 else Z.lor p0 PROT_READ in
  let p2 := if Z.land fl PF_W =? 0 then p1 else Z.lor p1 PROT_WRITE in
  if Z.land fl PF_X =? 0 then p2 else Z.lor p2 PROT_EXEC.

(** A program header that [parse_elf] selects. *)
Definition eligible (ph : Elf_Phdr) : bool :=
  (p_type ph =? PT_LOAD) && negb (Z.land (p_flags ph) PF_LINUX_HUGETLB =? 0).

(** The loop of [parse_elf] from index [i], with [n] iterations left, on
    the globals [htlb_seg_table] and [htlb_num_segs]. *)
Fixpoint parse_elf_loop (minimal_copy : bool) (img : image) (n : nat)
    (i : Z) (tbl : list seg_info) (num : Z) : option (list seg_info * Z) :=
  match n with
  | O => Some (tbl, num)
  | S n' =>
      match nth_z (phdr_mem img) i with
      | None => None
      | Some ph =>
          if negb (p_type ph =? PT_LOAD)
          then parse_elf_loop minimal_copy img n' (i + 1) tbl num
          else if Z.land (p_flags ph) PF_LINUX_HUGETLB =? 0
          then parse_elf_loop minimal_copy img n' (i + 1) tbl num
          else if num >=? MAX_HTLB_SEGS then Some (tbl, 0)
          else
            match nth_z tbl num with
            | None => None
            | Some old =>
                let seg := mkSeg (p_vaddr ph) (extra_vaddr old) (p_filesz ph)
                                 (p_memsz ph) (extrasz old)
                                 (prot_of_flags (p_flags ph)) (fd old) i in
                match get_extracopy minimal_copy img seg (phdr_mem img)
                        (e_phnum img) with
                | None => None
                | Some seg' =>
                    parse_elf_loop minimal_copy img n' (i + 1)
                                   (set_nth_z tbl num seg') (num + 1)
                end
            end
      end
  end.

Definition parse_elf (minimal_copy : bool) (img : image)
    (tbl : list seg_info) (num : Z) : option (list seg_info * Z) :=
  parse_elf_loop minimal_copy img (Z.to_nat (e_phnum img)) 0 tbl num.

(** ** C library string functions *)

Definition newline : string := String (ascii_of_nat 10) EmptyString.

(** [%d] *)
Definition dec (z : Z) : string := NilZero.string_of_int (Z.to_int z).

Definition strlen (s : string) : Z := Z.of_nat (String.length s).

Definition is_slash (c : ascii) : bool := Ascii.eqb c "/"%char.

Fixpoint has_slash (s : string) : bool :=
  match s with
  | EmptyString => false
  | String c r => is_slash c || has_slash r
  end.

(** GNU [basename] of <string.h>: the text after the last slash. *)
Fixpoint basename (s : string) : string :=
  match s with
  | EmptyString => EmptyString
  | String c r =>
      if has_slash r then basename r
      else if is_slash c then r else s
  end.

Definition tolower (c : ascii) : ascii :=
  let n := nat_of_ascii c in
  if (Nat.leb 65 n && Nat.leb n 90)%bool then ascii_of_nat (n + 32) else c.

(** [strcasecmp(a, b) == 0] *)
Fixpoint strcasecmp_eq (a b : string) : bool :=
  match a, b with
  | EmptyString, EmptyString => true
  | String x a', String y b' =>
      Ascii.eqb (tolower x) (tolower y) && strcasecmp_eq a' b'
  | _, _ => false
  end.

(** [strstr(s, sub) != NULL] *)
Fixpoint strstr (s sub : string) : bool :=
  prefix sub s
  || match s with
     | EmptyString => false
     | String _ r => strstr r sub
     end.

Definition isspace (c : ascii) : bool :=
  let n := nat_of_ascii c in
  (Nat.eqb n 32 || (Nat.leb 9 n && Nat.leb n 13))%bool.

Fixpoint atoi_digits (s : string) (acc : Z) : Z :=
  match s with
  | EmptyString => acc
  | String c r =>
      let n := nat_of_ascii c in
      if (Nat.leb 48 n && Nat.leb n 57)%bool
      then atoi_digits r (10 * acc + (Z.of_nat n - 48))
      else acc
  end.

(** The number that the text denotes: white space, an optional sign and
    decimal digits. *)
Fixpoint strtol_value (s : string) : Z :=
  match s with
  | EmptyString => 0
  | String c r =>
      if isspace c then strtol_value r
      else if Ascii.eqb c "-"%char then - atoi_digits r 0
      else if Ascii.eqb c "+"%char then atoi_digits r 0
      else atoi_digits s 0
  end.

Definition LONG_MAX : Z := 2 ^ 63 - 1.
Definition LONG_MIN : Z := - 2 ^ 63.

(** [strtol(s, NULL, 10)]: a value out of the range of [long] is replaced
    by LONG_MAX or LONG_MIN. *)
Definition strtol (s : string) : Z :=
  Z.max LONG_MIN (Z.min LONG_MAX (strtol_value s)).

(** [atoi(s)] is [(int) strtol(s, NULL, 10)]: the [long] is cut down to
    an [int]. *)
Definition atoi (s : string) : Z := to_int (strtol s).

(** ** The process and its environment *)

(** The C function that issues a call. *)
Inductive func :=
| F_assemble_path
| F_find_or_create_share_path
| F_get_shared_file_name
| F_prepare_segment
| F_find_or_prepare_shared_file
| F_obtain_prepared_file
| F_remap_segments
| F_write_err
| F_sys_abort.

(** System and library calls with their arguments.  [C_write], [C_getpid]
    and [C_kill] go through [direct_syscall]. *)
Inductive call :=
| C_open (path : string) (flags mode : Z)
| C_close (fildes : Z)
| C_unlink (path : string)
| C_rename (old new : string)
| C_mkdir (path : string) (mode : Z)
| C_lstat (path : string)
| C_readlink (path : string) (bufsiz : Z)
| C_mmap (addr len pr flags fildes off : Z)
| C_munmap (addr len : Z)
| C_memcpy (dst src n : Z)
| C_write (fildes : Z) (buf : string)
| C_getpid
| C_kill (pid sig : Z)
| C_sleep (seconds : Z)
| C_hugetlbfs_unlinked_fd
| C_abort.

(** What a call answers: its return value, the [errno] it sets (if any),
    the [st_mode] and [st_uid] of an [lstat] and the bytes of a
    [readlink]. *)
Record answer := mkAns {
  rv : Z;
  err : option Z;
  a_mode : Z;
  a_uid : Z;
  a_buf : string
}.

Definition event : Type := func * call * answer.

(** The environment of one run.  [oracle w n c] answers call [c] when it
    is the [n]-th call of the run.  [executable_start] is the weak symbol
    [__executable_start] ([None]: undefined). *)
Record world := mkWorld {
  getenv : string -> option string;
  getuid : Z;
  gethugepagesize : Z;
  hugetlbfs_find_path : string;
  hugetlbfs_test_path : string -> Z;
  executable_start : option image;
  oracle : nat -> call -> answer
}.

Record pstate := mkPstate {
  trace : list event;
  errno : Z
}.

Definition pstate0 : pstate := mkPstate [] 0.

(** How a computation ends: it returns, the process is killed by a signal,
    it faults on a memory read, or the retry loop of the shared-file
    protocol is still waiting when the fuel is spent. *)
Inductive outcome (A : Type) :=
| Returns (a : A)
| Killed (sig : Z)
| Faulted
| Waiting.

Arguments Returns {A} a.
Arguments Killed {A} sig.
Arguments Faulted {A}.
Arguments Waiting {A}.

Definition M (A : Type) : Type := pstate -> pstate * outcome A.

Definition ret {A : Type} (a : A) : M A := fun st => (st, Returns a).

Definition bind {A B : Type} (m : M A) (k : A -> M B) : M B :=
  fun st =>
    match m st with
    | (st', Returns a) => k a st'
    | (st', Killed s) => (st', Killed s)
    | (st', Faulted) => (st', Faulted)
    | (st', Waiting) => (st', Waiting)
    end.

Notation "x <- m ;; k" := (bind m (fun x => k))
  (at level 61, m at next level, right associativity).
Notation "m ;;; k" := (bind m (fun _ => k))
  (at level 61, right associativity).

Definition get_errno : M Z := fun st => (st, Returns (errno st)).

Definition when (b : bool) (m : M unit) : M unit := if b then m else ret tt.

Definition fault {A : Type} : M A := fun st => (st, Faulted).

Section Process.

Variable w : world.

(** A call: the oracle answers, the event is appended to the trace and
    [errno] is updated. *)
Definition sys (f : func) (c : call) : M answer :=
  fun st =>
    let a := oracle w (List.length (trace st)) c in
    (mkPstate (trace st ++ [(f, c, a)])
              (match err a with Some e => e | None => errno st end),
     Returns a).

(** Modelled from the spec: [direct_syscall], the raw-syscall primitive, is
    not among the sources; its [kill] of the process itself with SIGABRT is
    the self-signal for abnormal termination: the process ends there. *)
Definition sys_kill (f : func) (pid sig : Z) : M unit :=
  fun st =>
    let a := oracle w (List.length (trace st)) (C_kill pid sig) in
    (mkPstate (trace st ++ [(f, C_kill pid sig, a)]) (errno st), Killed sig).

(** [abort()] of the C library. *)
Definition libc_abort {A : Type} (f : func) : M A :=
  fun st =>
    let a := oracle w (List.length (trace st)) C_abort in
    (mkPstate (trace st ++ [(f, C_abort, a)]) (errno st), Killed SIGABRT).

(** ** write_err, sys_abort, write_err_base, unmapped_abort *)

Definition write_err (s : string) : M unit :=
  sys F_write_err (C_write 2 s) ;;; ret tt.

Definition sys_abort : M unit :=
  a <- sys F_sys_abort C_getpid ;;
  sys_kill F_sys_abort (rv a) SIGABRT.

Definition digit (d : Z) : ascii :=
  match get (Z.to_nat d) "0123456789abcdef" with
  | Some c => c
  | None => "0"%char
  end.

(** The digits of [val], least significant first: the contents of [str1]
    after the [while (val)] loop, which ends within [sizeof(val)*8]
    rounds. *)
Fixpoint digits_lsb (fuel : nat) (val base : Z) : list ascii :=
  match fuel with
  | O => []
  | S fuel' =>
      if val =? 0 then []
      else digit (val mod base) :: digits_lsb fuel' (val / base) base
  end.

Definition write_err_base (val base : Z) : M unit :=
  let str1 := digits_lsb 64 val base in
  let str1' := match str1 with [] => ["0"%char] | _ => str1 end in
  write_err (string_of_list_ascii (rev str1')).

Definition next_arg (args : list Z) : Z * list Z :=
  match args with
  | [] => (0, [])
  | a :: rest => (a, rest)
  end.

(** The scan of [unmapped_abort]: [p] is the format from the cursor on,
    [lit] the text between [q] and [p].  After a [%] that is followed by
    neither [u] nor [p], the scan goes on at the character after the [%]. *)
Fixpoint unmapped_abort_scan (p : string) (lit : string) (args : list Z)
  : M unit :=
  match p with
  | EmptyString => write_err lit
  | String c rest =>
      if Ascii.eqb c "%"%char then
        write_err lit ;;;
        match rest with
        | String c' rest' =>
            if Ascii.eqb c' "u"%char then
              let (val, args') := next_arg args in
              write_err_base (to_unsigned val) 10 ;;;
              unmapped_abort_scan rest' EmptyString args'
            else if Ascii.eqb c' "p"%char then
              let (val, args') := next_arg args in
              write_err_base (wrap val) 16 ;;;
              unmapped_abort_scan rest' EmptyString args'
            else unmapped_abort_scan rest EmptyString args
        | EmptyString => unmapped_abort_scan rest EmptyString args
        end
      else unmapped_abort_scan rest (lit ++ String c EmptyString)%string args
  end.

Definition unmapped_abort (fmt : string) (args : list Z) : M unit :=
  unmapped_abort_scan fmt EmptyString args ;;;
  sys_abort.

(** ** assemble_path *)

(** [assemble_path]: [s] is the text [vsnprintf] formats; a text longer
    than PATH_MAX ends the process through [abort()]. *)
Definition assemble_path (s : string) : M string :=
  if strlen s >? PATH_MAX then libc_abort F_assemble_path else ret s.

(** ** find_or_create_share_path *)

Definition S_ISDIR (mode : Z) : bool := Z.land mode S_IFMT =? S_IFDIR.

(** [find_or_create_share_path]: the return value and the contents of the
    global [share_path] ([old] before the call).  The [uid_t] that
    [getuid()] returns is formatted with [%d], as an [int]. *)
Definition find_or_create_share_path (old : string) : M (Z * string) :=
  match getenv w "HUGETLB_SHARE_PATH" with
  | Some env =>
      if negb (hugetlbfs_test_path w env =? 0) then ret (-1, old)
      else
        share_path <- assemble_path env ;;
        ret (0, share_path)
  | None =>
      share_path <- assemble_path
        (hugetlbfs_find_path w ++ "/elflink-uid-"
         ++ dec (to_int (getuid w)))%string ;;
      r <- sys F_find_or_create_share_path (C_mkdir share_path 448) ;;
      e <- get_errno ;;
      if negb (rv r =? 0) && negb (e =? EEXIST) then ret (-1, share_path)
      else
        r <- sys F_find_or_create_share_path (C_lstat share_path) ;;
        if negb (rv r =? 0) then ret (-1, share_path)
        else if negb (S_ISDIR (a_mode r)) then ret (-1, share_path)
        else if negb (a_uid r =? getuid w) then ret (-1, share_path)
        else if negb (Z.land (a_mode r) (Z.lor S_IWGRP S_IWOTH) =? 0)
        then ret (-1, share_path)
        else ret (0, share_path)
  end.

(** ** get_shared_file_name *)

(** [get_shared_file_name]: the return value and the path it assembles.
    [basename] is the GNU one, which never returns NULL, so that the
    second error exit is never taken. *)
Definition get_shared_file_name (share_path : string) (seg : seg_info)
  : M (Z * string) :=
  r <- sys F_get_shared_file_name (C_readlink "/proc/self/exe" PATH_MAX) ;;
  if rv r <? 0 then ret (-1, EmptyString)
  else
    let binary := substring 0 (Z.to_nat PATH_MAX) (a_buf r) in
    let binary2 := basename binary in
    file_path <- assemble_path
      (share_path ++ "/" ++ binary2 ++ "_" ++ dec 64 ++ "_"
       ++ dec (index seg))%string ;;
    ret (0, file_path).

(** ** prepare_segment *)

(** The size of the temporary mapping. *)
Definition prepare_size (seg : seg_info) : Z :=
  if negb (extra_vaddr seg =? 0)
  then ALIGN (wrap (extra_vaddr seg + extrasz seg - vaddr seg))
             (gethugepagesize w)
  else ALIGN (filesz seg) (gethugepagesize w).

Definition prepare_segment (seg : seg_info) : M Z :=
  let size := prepare_size seg in
  r <- sys F_prepare_segment
         (C_mmap 0 size (Z.lor PROT_READ PROT_WRITE) MAP_SHARED (fd seg) 0) ;;
  let p := rv r in
  if p =? MAP_FAILED then ret (-1)
  else
    sys F_prepare_segment (C_memcpy p (vaddr seg) (filesz seg)) ;;;
    when (negb (extra_vaddr seg =? 0))
      (let gap := ptr_diff (extra_vaddr seg)
                           (ptr_add (vaddr seg) (filesz seg)) in
       sys F_prepare_segment
           (C_memcpy (wrap (p + filesz seg + gap)) (extra_vaddr seg)
                     (extrasz seg)) ;;;
       ret tt) ;;;
    sys F_prepare_segment (C_munmap p size) ;;;
    ret 0.

(** ** find_or_prepare_shared_file *)

(** The code at the label [fail]. *)
Definition shared_file_fail (tmp_path : string) (fdx fds : Z) : M Z :=
  when (fdx >? 0)
    (sys F_find_or_prepare_shared_file (C_unlink tmp_path) ;;;
     sys F_find_or_prepare_shared_file (C_close fdx) ;;;
     ret tt) ;;;
  when (fds >? 0)
    (sys F_find_or_prepare_shared_file (C_close fds) ;;; ret tt) ;;;
  ret (-1).

(** The [do ... while (1)] loop; [fuel] bounds the number of rounds. *)
Fixpoint shared_file_loop (fuel : nat) (final_path tmp_path : string)
    (seg : seg_info) : M (Z * seg_info) :=
  match fuel with
  | O => fun st => (st, Waiting)
  | S fuel' =>
      rx <- sys F_find_or_prepare_shared_file
              (C_open tmp_path (Z.lor (Z.lor O_CREAT O_EXCL) O_RDWR) 438) ;;
      rs <- sys F_find_or_prepare_shared_file
              (C_open final_path O_RDONLY 0) ;;
      let fdx := rv rx in
      let fds := rv rs in
      if fds >=? 0 then
        when (fdx >? 0)
          (sys F_find_or_prepare_shared_file (C_unlink tmp_path) ;;;
           sys F_find_or_prepare_shared_file (C_close fdx) ;;;
           ret tt) ;;;
        ret (0, set_fd seg fds)
      else if fdx >=? 0 then
        let seg1 := set_fd seg fdx in
        r <- prepare_segment seg1 ;;
        if r <? 0 then
          r' <- shared_file_fail tmp_path fdx fds ;; ret (r', seg1)
        else
          rr <- sys F_find_or_prepare_shared_file
                  (C_rename tmp_path final_path) ;;
          if negb (rv rr =? 0) then
            r' <- shared_file_fail tmp_path fdx fds ;; ret (r', seg1)
          else ret (0, seg1)
      else
        sys F_find_or_prepare_shared_file (C_sleep 1) ;;;
        shared_file_loop fuel' final_path tmp_path seg
  end.

Definition find_or_prepare_shared_file (fuel : nat) (share_path : string)
    (seg : seg_info) : M (Z * seg_info) :=
  n <- get_shared_file_name share_path seg ;;
  let (r, final_path) := n in
  if r <? 0 then ret (-1, seg)
  else
    tmp_path <- assemble_path (final_path ++ ".tmp")%string ;;
    shared_file_loop fuel final_path tmp_path seg.

(** ** obtain_prepared_file *)

Definition obtain_prepared_file (fuel : nat) (sharing : Z)
    (share_path : string) (seg : seg_info) : M (Z * seg_info) :=
  r <- (if negb (sharing =? 0) && (Z.land (prot seg) PROT_WRITE =? 0)
        then
          r <- find_or_prepare_shared_file fuel share_path seg ;;
          ret (fst r =? 0, snd r)
        else ret (false, seg)) ;;
  let (shared, seg) := r in
  if shared then ret (0, seg)
  else
    a <- sys F_obtain_prepared_file C_hugetlbfs_unlinked_fd ;;
    if rv a <? 0 then ret (-1, seg)
    else
      let seg := set_fd seg (rv a) in
      r <- prepare_segment seg ;;
      if r <? 0 then ret (-1, seg) else ret (0, seg).

(** ** remap_segments *)

(** [for (i = ...; i < num; i++) body(seg[i])], with [n] rounds left. *)
Fixpoint for_segs (n : nat) (i : Z) (seg : list seg_info)
    (body : Z -> seg_info -> M unit) : M unit :=
  match n with
  | O => ret tt
  | S n' =>
      match nth_z seg i with
      | None => fault
      | Some s => body i s ;;; for_segs n' (i + 1) seg body
      end
  end.

Definition remap_unmap (i : Z) (s : seg_info) : M unit :=
  sys F_remap_segments (C_munmap (vaddr s) (memsz s)) ;;; ret tt.

Definition remap_map (i : Z) (s : seg_info) : M unit :=
  let mapsize := ALIGN (memsz s) (gethugepagesize w) in
  r <- sys F_remap_segments
         (C_mmap (vaddr s) mapsize (prot s) (Z.lor MAP_PRIVATE MAP_FIXED)
                 (fd s) 0) ;;
  let p := rv r in
  e <- get_errno ;;
  when (p =? MAP_FAILED)
    (unmapped_abort
       ("Failed to map hugepage segment %u: %p-%p (errno=%u)" ++ newline)%string
       [i; vaddr s; ptr_add (vaddr s) mapsize; e]) ;;;
  when (negb (p =? vaddr s))
    (unmapped_abort
       ("Mapped hugepage segment %u (%p-%p) at wrong address %p" ++ newline)%string
       [i; vaddr s; ptr_add (vaddr s) mapsize; p]).

Definition remap_segments (seg : list seg_info) (num : Z) : M unit :=
  sys F_remap_segments (C_mmap 0 0 0 0 0 0) ;;;
  for_segs (Z.to_nat num) 0 seg remap_unmap ;;;
  for_segs (Z.to_nat num) 0 seg remap_map.

(** ** check_env *)

(** The globals [minimal_copy], [sharing] and [__debug]. *)
Record flags := mkFlags {
  minimal_copy : bool;
  sharing : Z;
  debug : bool
}.

Definition flags0 : flags := mkFlags true 0 false.

Definition env_is_no (name : string) : bool :=
  match getenv w name with
  | Some env => strcasecmp_eq env "no"
  | None => false
  end.

(** [check_env]: the return value and the globals it leaves. *)
Definition check_env (g : flags) : Z * flags :=
  if env_is_no "HUGETLB_ELFMAP" then (-1, g)
  else if match getenv w "LD_PRELOAD" with
          | Some env => strstr env "libhugetlbfs"
          | None => false
          end
  then (-1, g)
  else
    let mc := if env_is_no "HUGETLB_MINIMAL_COPY" then false
              else minimal_copy g in
    let sh := match getenv w "HUGETLB_SHARE" with
              | Some env => atoi env
              | None => sharing g
              end in
    let sh' := if sh =? 2 then 0 else if sh =? 1 then sh else 0 in
    let dbg := match getenv w "HUGETLB_DEBUG" with
               | Some _ => true
               | None => debug g
               end in
    (0, mkFlags mc sh' dbg).

(** ** setup_elflink *)

(** Step 1 of [setup_elflink]: the loop over the table, from index [i] with
    [n] rounds left.  [None] is the early [return]. *)
Fixpoint obtain_all (fuel : nat) (g : flags) (share_path : string)
    (n : nat) (i : Z) (tbl : list seg_info) : M (option (list seg_info)) :=
  match n with
  | O => ret (Some tbl)
  | S n' =>
      match nth_z tbl i with
      | None => fault
      | Some s =>
          r <- obtain_prepared_file fuel (sharing g) share_path s ;;
          let tbl' := set_nth_z tbl i (snd r) in
          if fst r <? 0 then ret None
          else obtain_all fuel g share_path n' (i + 1) tbl'
      end
  end.

(** [htlb_seg_table] and [htlb_num_segs] when the constructor starts. *)
Definition htlb_seg_table0 : list seg_info := [seg_zero; seg_zero].

Definition setup_elflink (fuel : nat) : M unit :=
  match executable_start w with
  | None => ret tt
  | Some ehdr =>
      let (r, g) := check_env flags0 in
      if negb (r =? 0) then ret tt
      else
        match parse_elf (minimal_copy g) ehdr htlb_seg_table0 0 with
        | None => fault
        | Some (tbl, num) =>
            if num =? 0 then ret tt
            else
              sp <- (if negb (sharing g =? 0)
                     then find_or_create_share_path EmptyString
                     else ret (0, EmptyString)) ;;
              if negb (fst sp =? 0) then ret tt
              else
                t <- obtain_all fuel g (snd sp) (Z.to_nat num) 0 tbl ;;
                match t with
                | None => ret tt
                | Some tbl' => remap_segments tbl' num
                end
        end
  end.

End Process.

(** * Specification-side definitions and sample inputs *)

(** ** Scanner *)

(** A PT_LOAD header without the huge-page mark. *)
Definition phdr_load : Elf_Phdr := mkPhdr PT_LOAD 5 4194304 4096 4096.

(** The memory at the program headers of an image with two PT_LOAD
    headers; the third element is what lies behind the table. *)
Definition phdr_two_loads : list Elf_Phdr :=
  [phdr_load; phdr_load; mkPhdr 0 0 0 0 0].

(** The population size in the words of the specification:
    [align_up(extra_end - vaddr, hugepage_size)] with a copy window,
    [align_up(filesz, hugepage_size)] without, in [unsigned long]
    arithmetic. *)
Definition spec_population_size (hpage_size : Z) (seg : seg_info) : Z :=
  if extra_vaddr seg =? 0
  then ALIGN (filesz seg) hpage_size
  else ALIGN (wrap (extra_vaddr seg + extrasz seg - vaddr seg)) hpage_size.

(** The dynamic metadata is found: [find_dynamic] and [find_tables] both
    return 0, with the symbol table at [symtab] and the string table at
    [strtab]. *)
Definition located (img : image) (phdr : list Elf_Phdr) (phnum : Z)
    (symtab strtab : Z) : Prop :=
  exists dyntab,
    find_dynamic phdr phnum = Some (0, Some dyntab)
    /\ find_tables (dyn_at img dyntab) 0 0 = Some (0, symtab, strtab).

(** The three ways in which [get_extracopy] reaches the label [bail]. *)
Inductive unusable_metadata (img : image) (phdr : list Elf_Phdr) (phnum : Z)
  : Prop :=
| no_dynamic (d : option Z) :
    find_dynamic phdr phnum = Some (-1, d) ->
    unusable_metadata img phdr phnum
| no_tables (dyntab symtab strtab : Z) :
    find_dynamic phdr phnum = Some (0, Some dyntab) ->
    find_tables (dyn_at img dyntab) 0 0 = Some (-1, symtab, strtab) ->
    unusable_metadata img phdr phnum
| no_count (symtab strtab : Z) :
    located img phdr phnum symtab strtab ->
    find_numsyms symtab strtab < 0 ->
    unusable_metadata img phdr phnum.

(** A segment of 0x3000 file bytes and 0x5000 memory bytes at 0x10000. *)
Definition seg_tail : seg_info := mkSeg 65536 0 12288 20480 0 3 0 0.

(** Its marked PT_LOAD header, a PT_DYNAMIC header with the dynamic
    section at 0x2000, and what lies behind the table. *)
Definition phdr_with_dynamic : list Elf_Phdr :=
  [mkPhdr PT_LOAD (Z.lor PF_LINUX_HUGETLB 6) 65536 12288 20480;
   mkPhdr PT_DYNAMIC 6 8192 256 256;
   mkPhdr 0 0 0 0 0].

(** An image whose string table lies at or before its symbol table. *)
Definition img_strtab_first : image :=
  mkImage 2 phdr_with_dynamic
    (fun _ => [mkDyn 1 1; mkDyn DT_SYMTAB 4096; mkDyn DT_STRTAB 2048;
               mkDyn DT_NULL 0])
    (fun _ => []) 0.

(** An image whose string table starts 8 bytes after its symbol table:
    less than one [Elf_Sym], so that the entry count is 0. *)
Definition img_zero_count : image :=
  mkImage 2 phdr_with_dynamic
    (fun _ => [mkDyn 1 1; mkDyn DT_SYMTAB 4096; mkDyn DT_STRTAB 4104;
               mkDyn DT_NULL 0])
    (fun _ => []) 0.

(** The end of the byte range of a symbol. *)
Definition sym_end (s : Elf_Sym) : Z := st_value s + st_size s.

(** The symbols the specification keeps: value within the zero-fill tail
    [[tail_start, tail_end)], binding global or weak, type object, size
    nonzero. *)
Definition spec_keep (tail_start tail_end : Z) (s : Elf_Sym) : bool :=
  (tail_start <=? st_value s) && (st_value s <? tail_end)
  && ((ELF_ST_BIND (st_info s) =? STB_GLOBAL)
      || (ELF_ST_BIND (st_info s) =? STB_WEAK))
  && (ELF_ST_TYPE (st_info s) =? STT_OBJECT)
  && negb (st_size s =? 0).

(** The union of the byte ranges of a list of symbols: least start and
    greatest end; [None] for no symbol. *)
Definition spec_union (l : list Elf_Sym) : option (Z * Z) :=
  match l with
  | [] => None
  | s :: r =>
      Some (fold_left Z.min (map st_value r) (st_value s),
            fold_left Z.max (map sym_end r) (sym_end s))
  end.

(** The byte range of the symbol lies in the address space. *)
Definition sym_in_range (s : Elf_Sym) : Prop :=
  0 <= st_value s /\ 0 <= st_size s /\ st_value s + st_size s < WORD.

(** [st_info] values: binding in the high four bits, type in the low. *)
Definition info_global_object : Z := 17.
Definition info_global_func : Z := 18.
Definition info_local_object : Z := 1.

(** Dynamic symbols around the tail [0x13000, 0x15000) of [seg_tail]: one
    global object of 0x80 bytes at 0x13100 and four symbols that do not
    qualify (a function, a local object, a marker of size 0, an object in
    the file-backed part). *)
Definition syms_scenario : list Elf_Sym :=
  [mkSym 0 0 0;
   mkSym 78848 64 info_global_func;
   mkSym 78080 128 info_global_object;
   mkSym 79872 16 info_local_object;
   mkSym 80000 0 info_global_object;
   mkSym 69632 32 info_global_object].

(** The string table follows the six symbols at once. *)
Definition img_scenario (sentinel : Z) : image :=
  mkImage 2 phdr_with_dynamic
    (fun _ => [mkDyn 1 1; mkDyn DT_SYMTAB 4096; mkDyn DT_STRTAB 4240;
               mkDyn DT_NULL 0])
    (fun a => if a =? 4096 then syms_scenario else [])
    sentinel.

(** The dynamic symbols of [syms_scenario] without the global object. *)
Definition syms_none_kept : list Elf_Sym :=
  [mkSym 0 0 0;
   mkSym 78848 64 info_global_func;
   mkSym 79872 16 info_local_object].

(** An image whose sentinel [__libhuge_filesz] lies at 0x14000, inside the
    zero-fill tail of [seg_tail]. *)
Definition img_sentinel_only : image :=
  mkImage 2 phdr_with_dynamic
    (fun _ => [mkDyn 1 1; mkDyn DT_SYMTAB 4096; mkDyn DT_STRTAB 4168;
               mkDyn DT_NULL 0])
    (fun a => if a =? 4096 then syms_none_kept else [])
    81920.

(** The number of headers among the first [e_phnum] that [parse_elf]
    selects. *)
Definition count_eligible (img : image) : Z :=
  Z.of_nat (List.length
              (filter eligible
                      (firstn (Z.to_nat (e_phnum img)) (phdr_mem img)))).

(** A marked, read-only PT_LOAD header without a zero-fill tail. *)
Definition phdr_marked (va : Z) : Elf_Phdr :=
  mkPhdr PT_LOAD (Z.lor PF_LINUX_HUGETLB 5) va 8192 8192.

(** Three marked PT_LOAD segments and nothing else; the fourth element is
    what lies behind the table. *)
Definition img_three : image :=
  mkImage 3
    [phdr_marked 4194304; phdr_marked 8388608; phdr_marked 12582912;
     mkPhdr 0 0 0 0 0]
    (fun _ => []) (fun _ => []) 0.

(** ** Runs *)

(** The plain answer [r], which leaves [errno] alone. *)
Definition ans (r : Z) : answer := mkAns r None 0 0 EmptyString.

(** A process on [img_three] in which every call answers 0. *)
Definition world_three : world :=
  mkWorld (fun _ => None) 1000 2097152 "/mnt/huge" (fun _ => 0)
          (Some img_three) (fun _ _ => ans 0).

(** ** Abort path and remap engine *)

(** A raw write to the standard error stream. *)
Definition is_write (e : event) : Prop :=
  exists s a, e = (F_write_err, C_write 2 s, a).

(** What [unmapped_abort] adds to the trace: raw writes to the standard
    error stream, then [getpid] and the [kill] of the process itself with
    SIGABRT, which is the last event. *)
Definition abort_tail (evs : list event) : Prop :=
  exists msgs ap ak,
    evs = msgs ++ [(F_sys_abort, C_getpid, ap);
                   (F_sys_abort, C_kill (rv ap) SIGABRT, ak)]
    /\ Forall is_write msgs.

(** [st'] extends [st] by raw writes only. *)
Definition writes_more (st st' : pstate) : Prop :=
  exists msgs, trace st' = trace st ++ msgs /\ Forall is_write msgs.

(** The fixed-address mapping of a segment at [addr], answered by [a]. *)
Definition fixed_mmap (e : event) (addr : Z) (a : answer) : Prop :=
  exists len pr fildes,
    e = (F_remap_segments,
         C_mmap addr len pr (Z.lor MAP_PRIVATE MAP_FIXED) fildes 0, a).

(** The events of the remapping loop and how the loop ends: mappings that
    land where they were asked, and then either the end of the loop or one
    mapping that failed or landed elsewhere, followed by the abort path. *)
Inductive map_phase : list event -> outcome unit -> Prop :=
| mp_done : map_phase [] (Returns tt)
| mp_fault : map_phase [] Faulted
| mp_ok (e : event) (addr : Z) (a : answer) (rest : list event)
        (out : outcome unit) :
    fixed_mmap e addr a -> rv a = addr -> rv a <> MAP_FAILED ->
    map_phase rest out -> map_phase (e :: rest) out
| mp_abort (e : event) (addr : Z) (a : answer) (tail : list event) :
    fixed_mmap e addr a -> rv a = MAP_FAILED \/ rv a <> addr ->
    abort_tail tail -> map_phase (e :: tail) (Killed SIGABRT).

(** An unmapping issued by [remap_segments]. *)
Definition is_munmap (e : event) : Prop :=
  exists addr len a, e = (F_remap_segments, C_munmap addr len, a).

(** Two prepared segments; the kernel maps the first where it is asked
    and the second 2 MB higher. *)
Definition segs_two : list seg_info :=
  [mkSeg 4194304 0 8192 8192 0 5 7 0; mkSeg 8388608 0 4096 8192 0 3 8 1].

Definition oracle_wrong_address (n : nat) (c : call) : answer :=
  match c with
  | C_mmap addr _ _ flags _ _ =>
      if flags =? Z.lor MAP_PRIVATE MAP_FIXED
      then if addr =? 8388608 then ans (addr + 2097152) else ans addr
      else ans 0
  | C_getpid => ans 4242
  | _ => ans 0
  end.

Definition world_wrong_address : world :=
  mkWorld (fun _ => None) 1000 2097152 "/mnt/huge" (fun _ => 0) None
          oracle_wrong_address.

(** ** Shared files *)

(** The calls of a trace, in order. *)
Definition calls_of (st : pstate) : list call :=
  map (fun e : event => snd (fst e)) (trace st).

(** A run in which this process is the preparer and the materializer
    fails: the exclusive create of the temporary file yields descriptor
    [fdx], the final file is absent, and the mapping of the temporary file
    fails. *)
Definition oracle_prepare_fails (fdx : Z) (n : nat) (c : call) : answer :=
  match c with
  | C_readlink _ _ => mkAns 13 None 0 0 "/usr/bin/prog"
  | C_open _ flags _ =>
      if flags =? O_RDONLY then mkAns (-1) (Some ENOENT) 0 0 EmptyString
      else ans fdx
  | C_mmap _ _ _ _ _ _ => mkAns MAP_FAILED (Some 12) 0 0 EmptyString
  | _ => ans 0
  end.

Definition world_prepare_fails (fdx : Z) : world :=
  mkWorld (fun _ => None) 1000 2097152 "/mnt/huge" (fun _ => 0) None
          (oracle_prepare_fails fdx).

(** A read-only segment without a zero-fill tail. *)
Definition seg_text : seg_info := mkSeg 4194304 0 8192 8192 0 5 0 0.

(** The names [get_shared_file_name] and [assemble_path] build for the
    program [/usr/bin/prog], user 1000 and segment 0. *)
Definition share_dir : string := "/mnt/huge/elflink-uid-1000".
Definition final_name : string := "/mnt/huge/elflink-uid-1000/prog_64_0".
Definition tmp_name : string := "/mnt/huge/elflink-uid-1000/prog_64_0.tmp".

(** The default share directory: the user id is printed with [%d], as an
    [int]. *)
Definition share_path_default (w : world) : string :=
  (hugetlbfs_find_path w ++ "/elflink-uid-"
   ++ dec (to_int (getuid w)))%string.

(** What the default branch of [find_or_create_share_path] has checked
    when it returns 0: the directory was created with mode 0700 or was
    there already, and [lstat] shows a directory of the current user that
    neither group nor others may write. *)
Definition share_dir_checked (w : world) (st st' : pstate) (sp : string)
  : Prop :=
  exists am al,
    trace st' = trace st
                ++ [(F_find_or_create_share_path, C_mkdir sp 448, am);
                    (F_find_or_create_share_path, C_lstat sp, al)]
    /\ (rv am = 0
        \/ match err am with Some e => e | None => errno st end = EEXIST)
    /\ rv al = 0
    /\ S_ISDIR (a_mode al) = true
    /\ a_uid al = getuid w
    /\ Z.land (a_mode al) (Z.lor S_IWGRP S_IWOTH) = 0.

(** The run reaches the share-path step of [setup_elflink]: the image is
    there, [check_env] allows the remapping and enables sharing, and
    [parse_elf] selected [num > 0] segments. *)
Definition reaches_share_step (w : world) (g : flags)
    (tbl : list seg_info) (num : Z) : Prop :=
  exists img,
    executable_start w = Some img
    /\ check_env w flags0 = (0, g)
    /\ sharing g <> 0
    /\ parse_elf (minimal_copy g) img htlb_seg_table0 0 = Some (tbl, num)
    /\ num <> 0.

(** One marked read-only segment without a zero-fill tail. *)
Definition img_one : image :=
  mkImage 1 [phdr_marked 4194304; mkPhdr 0 0 0 0 0]
          (fun _ => []) (fun _ => []) 0.

(** An environment with HUGETLB_SHARE=1 and, possibly, an explicit
    HUGETLB_SHARE_PATH. *)
Definition env_sharing (override : option string) (name : string)
  : option string :=
  if String.eqb name "HUGETLB_SHARE" then Some "1"%string
  else if String.eqb name "HUGETLB_SHARE_PATH" then override
  else None.

(** Every directory is a directory of mode 0777 that belongs to root. *)
Definition oracle_foreign_dir (n : nat) (c : call) : answer :=
  match c with
  | C_lstat _ => mkAns 0 None (Z.lor S_IFDIR 511) 0 EmptyString
  | C_mkdir _ _ => mkAns (-1) (Some EEXIST) 0 0 EmptyString
  | _ => ans 0
  end.

Definition world_foreign_dir (override : option string) : world :=
  mkWorld (env_sharing override) 1000 2097152 "/mnt/huge" (fun _ => 0)
          (Some img_one) oracle_foreign_dir.

(** ** Orchestrator *)

(** An event that [remap_segments] did not issue. *)
Definition not_remap (e : event) : Prop := fst (fst e) <> F_remap_segments.

(** A computation that adds no event of [remap_segments] to the trace. *)
Definition quiet {A : Type} (m : M A) : Prop :=
  forall st, exists evs,
    trace (fst (m st)) = trace st ++ evs /\ Forall not_remap evs.

(** The segment has a backing file that is ready to be mapped: its
    descriptor is valid and came either from the read-only open of a final
    shared file, or went through a complete [prepare_segment] (the
    temporary mapping was made on it and released). *)
Definition backing_ready (tr : list event) (s : seg_info) : Prop :=
  0 <= fd s
  /\ ((exists path a,
          In (F_find_or_prepare_shared_file, C_open path O_RDONLY 0, a) tr
          /\ rv a = fd s)
      \/ (exists len a a',
             In (F_prepare_segment,
                 C_mmap 0 len (Z.lor PROT_READ PROT_WRITE) MAP_SHARED
                        (fd s) 0, a) tr
             /\ rv a <> MAP_FAILED
             /\ In (F_prepare_segment, C_munmap (rv a) len, a') tr)).

(** The run reaches Step 1 of [setup_elflink] in state [st0]: the image is
    there, [check_env] allows the remapping, [parse_elf] selected the
    [num > 0] segments of [tbl], and the share path, if sharing is on, was
    accepted. *)
Definition reaches_step1 (w : world) (g : flags) (sp : string)
    (tbl : list seg_info) (num : Z) (st0 : pstate) : Prop :=
  exists img,
    executable_start w = Some img
    /\ check_env w flags0 = (0, g)
    /\ parse_elf (minimal_copy g) img htlb_seg_table0 0 = Some (tbl, num)
    /\ num <> 0
    /\ (if negb (sharing g =? 0)
        then find_or_create_share_path w EmptyString
        else ret (0, EmptyString)) pstate0
       = (st0, Returns (0, sp)).

(** A run without sharing on [img_one]: [unlinked_fd] answers the
    descriptor or error [ufd]; mappings succeed. *)
Definition oracle_unlinked (ufd : Z) (n : nat) (c : call) : answer :=
  match c with
  | C_hugetlbfs_unlinked_fd => ans ufd
  | C_mmap addr _ _ flags _ _ =>
      if flags =? Z.lor MAP_PRIVATE MAP_FIXED then ans addr
      else if flags =? MAP_SHARED then ans 139637976727552
      else ans 0
  | _ => ans 0
  end.

Definition world_unlinked (ufd : Z) : world :=
  mkWorld (fun _ => None) 1000 2097152 "/mnt/huge" (fun _ => 0)
          (Some img_one) (oracle_unlinked ufd).

Definition run_prepared : pstate * outcome unit :=
  setup_elflink (world_unlinked 7) 1 pstate0.

Definition run_unprepared : pstate * outcome unit :=
  setup_elflink (world_unlinked (-1)) 1 pstate0.

(** ** Further properties: sample inputs and specification-side definitions *)

(** The indices [i], [i+1], ..., [i+n-1]. *)
Fixpoint Zrange (i : Z) (n : nat) : list Z :=
  match n with
  | O => []
  | S n' => i :: Zrange (i + 1) n'
  end.

(** A PT_DYNAMIC header whose dynamic section lies at [va]. *)
Definition phdr_dynamic (va : Z) : Elf_Phdr := mkPhdr PT_DYNAMIC 6 va 256 256.

(** The descriptor [parse_elf] fills in for header [i] of the table before
    it calls [get_extracopy], in a table entry that is still zero. *)
Definition fresh_seg (i : Z) (ph : Elf_Phdr) : seg_info :=
  mkSeg (p_vaddr ph) 0 (p_filesz ph) (p_memsz ph) 0
        (prot_of_flags (p_flags ph)) 0 i.

(** The headers of [l] that [parse_elf] selects, each with its index in
    the table; [i] is the index of the first header of [l]. *)
Fixpoint selected_from (i : Z) (l : list Elf_Phdr) : list (Z * Elf_Phdr) :=
  match l with
  | [] => []
  | ph :: rest =>
      if eligible ph then (i, ph) :: selected_from (i + 1) rest
      else selected_from (i + 1) rest
  end.

Definition selected (img : image) : list (Z * Elf_Phdr) :=
  selected_from 0 (firstn (Z.to_nat (e_phnum img)) (phdr_mem img)).

(** A marked, writable PT_LOAD header with a zero-fill tail. *)
Definition phdr_data : Elf_Phdr :=
  mkPhdr PT_LOAD (Z.lor PF_LINUX_HUGETLB 6) 65536 12288 20480.

(** A text and a data segment, both marked, between two unmarked
    headers; there is no PT_DYNAMIC header. *)
Definition img_two : image :=
  mkImage 4
    [phdr_load; phdr_marked 4194304; phdr_load; phdr_data;
     mkPhdr 0 0 0 0 0]
    (fun _ => []) (fun _ => []) 0.

(** The value of a digit character of [write_err_base]. *)
Definition digit_value (c : ascii) : Z :=
  match String.index 0 (String c EmptyString) "0123456789abcdef" with
  | Some n => Z.of_nat n
  | None => 0
  end.

(** The number a string of digits, most significant first, denotes in
    base [base]. *)
Definition digits_value (base : Z) (s : string) : Z :=
  fold_left (fun acc c => acc * base + digit_value c)
            (list_ascii_of_string s) 0.

(** The same for digits that come least significant first. *)
Fixpoint lsb_value (base : Z) (l : list ascii) : Z :=
  match l with
  | [] => 0
  | c :: rest => digit_value c + base * lsb_value base rest
  end.

(** A format without conversions. *)
Fixpoint no_percent (s : string) : bool :=
  match s with
  | EmptyString => true
  | String c rest => negb (Ascii.eqb c "%"%char) && no_percent rest
  end.

(** A computation all of whose new events satisfy [P]. *)
Definition avoids {A : Type} (P : event -> Prop) (m : M A) : Prop :=
  forall st, exists evs,
    trace (fst (m st)) = trace st ++ evs /\ Forall P evs.

Definition is_rename (c : call) : bool :=
  match c with
  | C_rename _ _ => true
  | _ => false
  end.

(** An event that is no [rename]. *)
Definition not_rename (e : event) : Prop := is_rename (snd (fst e)) = false.

(** The unmapping of the temporary mapping at the end of
    [prepare_segment]. *)
Definition is_prepare_munmap (e : event) : Prop :=
  exists p len a, e = (F_prepare_segment, C_munmap p len, a).

(** The functions of the shared-file path. *)
Definition sharing_func (f : func) : bool :=
  match f with
  | F_find_or_create_share_path
  | F_get_shared_file_name
  | F_find_or_prepare_shared_file => true
  | _ => false
  end.

(** An event that no function of the shared-file path issued. *)
Definition not_sharing (e : event) : Prop :=
  sharing_func (fst (fst e)) = false.

(** The calls of one round of the retry loop in which both opens fail. *)
Definition waiting_round (final_path tmp_path : string) : list call :=
  [C_open tmp_path (Z.lor (Z.lor O_CREAT O_EXCL) O_RDWR) 438;
   C_open final_path O_RDONLY 0;
   C_sleep 1].

(** A process in which every [open] fails. *)
Definition oracle_no_open (n : nat) (c : call) : answer :=
  match c with
  | C_open _ flags _ =>
      if flags =? O_RDONLY then mkAns (-1) (Some ENOENT) 0 0 EmptyString
      else mkAns (-1) (Some EEXIST) 0 0 EmptyString
  | _ => ans 0
  end.

Definition world_no_open : world :=
  mkWorld (fun _ => None) 1000 2097152 "/mnt/huge" (fun _ => 0) None
          oracle_no_open.

(** A process in which the final shared file is there: the exclusive
    create answers [fdx], the read-only open descriptor 9. *)
Definition oracle_final_there (fdx : Z) (n : nat) (c : call) : answer :=
  match c with
  | C_readlink _ _ => mkAns 13 None 0 0 "/usr/bin/prog"
  | C_open _ flags _ =>
      if flags =? O_RDONLY then ans 9
      else if fdx <? 0 then mkAns fdx (Some EEXIST) 0 0 EmptyString
      else ans fdx
  | _ => ans 0
  end.

Definition world_final_there (fdx : Z) : world :=
  mkWorld (fun _ => None) 1000 2097152 "/mnt/huge" (fun _ => 0) None
          (oracle_final_there fdx).

(** A process that prepares the shared file itself: the exclusive create
    answers descriptor 5, the final file is absent, the mapping succeeds
    and [rename] answers [ren]. *)
Definition oracle_preparer (ren : Z) (n : nat) (c : call) : answer :=
  match c with
  | C_readlink _ _ => mkAns 13 None 0 0 "/usr/bin/prog"
  | C_open _ flags _ =>
      if flags =? O_RDONLY then mkAns (-1) (Some ENOENT) 0 0 EmptyString
      else ans 5
  | C_mmap _ _ _ _ _ _ => ans 139637976727552
  | C_rename _ _ => ans ren
  | C_hugetlbfs_unlinked_fd => ans 6
  | _ => ans 0
  end.

Definition world_preparer (ren : Z) : world :=
  mkWorld (fun _ => None) 1000 2097152 "/mnt/huge" (fun _ => 0) None
          (oracle_preparer ren).

(** The unmapping and the remapping [remap_segments] asks for a
    segment. *)
Definition munmap_call (s : seg_info) : call :=
  C_munmap (vaddr s) (memsz s).

Definition remap_call (hpage_size : Z) (s : seg_info) : call :=
  C_mmap (vaddr s) (ALIGN (memsz s) hpage_size) (prot s)
         (Z.lor MAP_PRIVATE MAP_FIXED) (fd s) 0.

Definition call_of (e : event) : call := snd (fst e).

(** An explicit share path of 5000 characters. *)
Definition long_path : string :=
  string_of_list_ascii (repeat "a"%char 5000).

(** A process with HUGETLB_SHARE=1 and that share path, on [img_one]. *)
Definition world_long_path : world :=
  mkWorld (env_sharing (Some long_path)) 1000 2097152 "/mnt/huge"
          (fun _ => 0) (Some img_one) (fun _ _ => ans 0).

(** An image without any marked header. *)
Definition img_plain : image :=
  mkImage 2 [phdr_load; phdr_dynamic 8192; mkPhdr 0 0 0 0 0]
          (fun _ => []) (fun _ => []) 0.

Definition world_plain : world :=
  mkWorld (env_sharing None) 1000 2097152 "/mnt/huge" (fun _ => 0)
          (Some img_plain) (fun _ _ => ans 0).

(** A segment whose copy window is [0x13100, 0x13180). *)
Definition seg_window : seg_info := set_extra seg_tail 78080 128.

(** A process with HUGETLB_SHARE=2 on [img_one]. *)
Definition world_share2 : world :=
  mkWorld (fun name => if String.eqb name "HUGETLB_SHARE"
                       then Some "2"%string else None)
          1000 2097152 "/mnt/huge" (fun _ => 0) (Some img_one)
          (oracle_unlinked 7).

(** A computation that never ends up waiting in the retry loop. *)
Definition no_wait {A : Type} (m : M A) : Prop :=
  forall st, snd (m st) <> Waiting.

(** ** The messages of the abort path *)

(** A piece of a message of [unmapped_abort]: literal text, or a number
    written in a base. *)
Inductive piece : Type :=
| Lit (s : string)
| Num (base val : Z).

(** Event [e] is the raw write of piece [p] to the standard error stream:
    of the very text, or of a non-empty string of digits that denotes the
    number in its base. *)
Definition writes_piece (p : piece) (e : event) : Prop :=
  match p with
  | Lit s => exists a, e = (F_write_err, C_write 2 s, a)
  | Num base val =>
      exists s a,
        e = (F_write_err, C_write 2 s, a)
        /\ s <> EmptyString
        /\ digits_value base s = val
  end.

(** The abort path with its message: one raw write for each piece, in
    order, then [getpid] and the [kill] of the process itself with
    SIGABRT, which is the last event. *)
Definition abort_message (ps : list piece) (evs : list event) : Prop :=
  exists msgs ap ak,
    evs = msgs ++ [(F_sys_abort, C_getpid, ap);
                   (F_sys_abort, C_kill (rv ap) SIGABRT, ak)]
    /\ Forall2 writes_piece ps msgs.

(** The pieces of a format and its arguments, as [unmapped_abort] goes
    through them: [%u] takes an [unsigned], [%p] a pointer. *)
Fixpoint message_pieces (p : string) (lit : string) (args : list Z)
  : list piece :=
  match p with
  | EmptyString => [Lit lit]
  | String c rest =>
      if Ascii.eqb c "%"%char then
        Lit lit ::
        match rest with
        | String c' rest' =>
            if Ascii.eqb c' "u"%char then
              let (val, args') := next_arg args in
              Num 10 (to_unsigned val)
              :: message_pieces rest' EmptyString args'
            else if Ascii.eqb c' "p"%char then
              let (val, args') := next_arg args in
              Num 16 (wrap val) :: message_pieces rest' EmptyString args'
            else message_pieces rest EmptyString args
        | EmptyString => message_pieces rest EmptyString args
        end
      else message_pieces rest (lit ++ String c EmptyString)%string args
  end.

(** The message for a mapping that failed: segment number, the range
    [lo]-[hi] in hexadecimal, and [errno]. *)
Definition map_failed_text (i lo hi e : Z) : list piece :=
  [Lit "Failed to map hugepage segment "; Num 10 (to_unsigned i);
   Lit ": "; Num 16 (wrap lo); Lit "-"; Num 16 (wrap hi);
   Lit " (errno="; Num 10 (to_unsigned e); Lit (")" ++ newline)].

(** The message for a mapping that landed at [p] instead of [lo]. *)
Definition wrong_address_text (i lo hi p : Z) : list piece :=
  [Lit "Mapped hugepage segment "; Num 10 (to_unsigned i);
   Lit " ("; Num 16 (wrap lo); Lit "-"; Num 16 (wrap hi);
   Lit ") at wrong address "; Num 16 (wrap p); Lit newline].

(** The message of [remap_segments] for a mapping answered by [p]. *)
Definition remap_text (i lo hi e p : Z) : list piece :=
  if p =? MAP_FAILED then map_failed_text i lo hi e
  else wrong_address_text i lo hi p.

(** A process of a user whose id is above the range of [int]. *)
Definition world_big_uid : world :=
  mkWorld (fun _ => None) 4294967294 2097152 "/mnt/huge" (fun _ => 0)
          None (fun _ _ => ans 0).

(** A process with HUGETLB_SHARE=4294967297, which is 2^32 + 1, on
    [img_one]. *)
Definition world_share_wide : world :=
  mkWorld (fun name => if String.eqb name "HUGETLB_SHARE"
                       then Some "4294967297"%string else None)
          1000 2097152 "/mnt/huge" (fun _ => 0) (Some img_one)
          (oracle_unlinked 7).

(** * Properties *)

(** ** Words *)

Lemma WORD_pos : 0 < WORD.
Proof. unfold WORD. lia. Qed.

Lemma wrap_small (x : Z) : 0 <= x < WORD -> wrap x = x.
Proof. intros H. unfold wrap. now apply Z.mod_small. Qed.

Lemma wrap_sub_wrap (a b : Z) : wrap (wrap a - wrap b) = wrap (a - b).
Proof. unfold wrap. now rewrite <- Zminus_mod. Qed.

Lemma nth_z_Some {A : Type} (l : list A) (i : Z) (x : A) :
  nth_z l i = Some x -> 0 <= i < Z.of_nat (List.length l).
Proof.
  unfold nth_z. destruct (i <? 0) eqn:E; [discriminate|].
  intros H. apply Z.ltb_ge in E.
  assert (nth_error l (Z.to_nat i) <> None) as N by congruence.
  apply nth_error_Some in N. lia.
Qed.

(** ** find_dynamic *)

(** The loop reads the index it stops at. *)
Lemma find_dynamic_scan_stop (mem : list Elf_Phdr) (i phnum j : Z) :
  forall reads, find_dynamic_scan mem i phnum = (reads, Some j) -> In j reads.
Proof.
  revert i. induction mem as [|ph rest IH]; intros i reads; simpl.
  - discriminate.
  - destruct (negb (p_type ph =? PT_DYNAMIC) && (i <? phnum)).
    + destruct (find_dynamic_scan rest (i + 1) phnum) as [r o] eqn:E.
      intros H. inversion H; subst. right. eapply IH; eauto.
    + intros H. inversion H; subst. now left.
Qed.

(** Without a PT_DYNAMIC header at the indices the loop passes, the loop
    on readable memory reaches [phnum]. *)
Lemma find_dynamic_scan_reaches (mem : list Elf_Phdr) (phnum : Z) :
  forall i reads r,
    i <= phnum ->
    phnum - i < Z.of_nat (List.length mem) ->
    (forall k ph, (k < Z.to_nat (phnum - i))%nat ->
                  nth_error mem k = Some ph -> p_type ph <> PT_DYNAMIC) ->
    find_dynamic_scan mem i phnum = (reads, r) ->
    In phnum reads /\ r = Some phnum.
Proof.
  induction mem as [|ph rest IH]; intros i reads r Hi Hlen Hno; simpl.
  - simpl in Hlen. lia.
  - destruct (Z.eq_dec i phnum) as [->|Hne].
    + rewrite Z.ltb_irrefl, andb_false_r.
      intros H. inversion H; subst. split; [now left|reflexivity].
    + assert (p_type ph <> PT_DYNAMIC) as Hph.
      { apply (Hno 0%nat); [lia|reflexivity]. }
      apply Z.eqb_neq in Hph. rewrite Hph. simpl.
      assert ((i <? phnum) = true) as -> by (apply Z.ltb_lt; lia).
      destruct (find_dynamic_scan rest (i + 1) phnum) as [r' o] eqn:E.
      intros H. inversion H; subst.
      destruct (IH (i + 1) r' r) as [Hin Hr]; try lia.
      * simpl in Hlen. lia.
      * intros k ph' Hk Hn. apply (Hno (S k)); [lia|exact Hn].
      * exact E.
      * split; [now right|exact Hr].
Qed.

(** C10 (the code departs from it): when the program header table holds
    no PT_DYNAMIC entry at the indices 1 .. phnum-1, [find_dynamic] reads
    [phdr[phnum]], one element past the table. *)
Theorem find_dynamic_reads_past_table (phdr : list Elf_Phdr) (phnum : Z) :
  1 <= phnum ->
  phnum < Z.of_nat (List.length phdr) ->
  (forall i ph, 1 <= i < phnum -> nth_z phdr i = Some ph ->
                p_type ph <> PT_DYNAMIC) ->
  In phnum (find_dynamic_reads phdr phnum).
Proof.
  intros H1 Hlen Hno. unfold find_dynamic_reads, find_dynamic_run.
  destruct (find_dynamic_scan (skipn 1 phdr) 1 phnum) as [reads r] eqn:E.
  destruct phdr as [|ph0 rest]; [simpl in Hlen; lia|].
  simpl in E.
  destruct (find_dynamic_scan_reaches rest phnum 1 reads r) as [Hin Hr];
    try lia.
  - simpl in Hlen. lia.
  - intros k ph Hk Hn. apply (Hno (Z.of_nat (S k))); [lia|].
    unfold nth_z.
    replace (Z.of_nat (S k) <? 0) with false by (symmetry; apply Z.ltb_ge; lia).
    rewrite Nat2Z.id. exact Hn.
  - exact E.
  - subst r.
    destruct (nth_z (ph0 :: rest) phnum) as [ph|];
      [destruct (p_type ph =? PT_DYNAMIC)|]; simpl;
      try (apply in_or_app; now left); exact Hin.
Qed.

Lemma find_dynamic_reads_past_table_witness :
  find_dynamic_reads phdr_two_loads 2 = [1; 2; 2]
  /\ In 2 (find_dynamic_reads phdr_two_loads 2).
Proof.
  split; [reflexivity|].
  apply (find_dynamic_reads_past_table phdr_two_loads 2).
  - lia.
  - simpl. lia.
  - intros i ph Hi. assert (i = 1) as -> by lia.
    vm_compute. intros H. inversion H. subst. discriminate.
Defined.

(** With a table of exactly [phnum] headers the read of [phdr[phnum]] is
    the last thing the function does. *)
Example find_dynamic_exact_table :
  find_dynamic_run [phdr_load; phdr_load] 2 = ([1; 2], None).
Proof. reflexivity. Qed.

(** ** prepare_segment *)

(** C4: the first call of [prepare_segment] maps the backing file with
    exactly the population size of the specification; when that mapping
    succeeds the function ends by unmapping the same size and returns 0,
    when it fails it returns -1 at once. *)
Theorem prepare_segment_population_size (w : world) (seg : seg_info)
    (st : pstate) :
  exists a rest,
    trace (fst (prepare_segment w seg st))
    = trace st
      ++ (F_prepare_segment,
          C_mmap 0 (spec_population_size (gethugepagesize w) seg)
                 (Z.lor PROT_READ PROT_WRITE) MAP_SHARED (fd seg) 0, a)
         :: rest
    /\ (if rv a =? MAP_FAILED
        then rest = [] /\ snd (prepare_segment w seg st) = Returns (-1)
        else (exists mid a',
                 rest = mid
                   ++ [(F_prepare_segment,
                        C_munmap (rv a)
                          (spec_population_size (gethugepagesize w) seg),
                        a')])
             /\ snd (prepare_segment w seg st) = Returns 0).
Proof.
  assert (prepare_size w seg = spec_population_size (gethugepagesize w) seg)
    as Hsz.
  { unfold prepare_size, spec_population_size.
    now destruct (extra_vaddr seg =? 0). }
  unfold prepare_segment. rewrite Hsz.
  set (size := spec_population_size (gethugepagesize w) seg).
  unfold bind, sys, when, ret. cbv zeta. cbn [trace errno].
  set (a := oracle w (List.length (trace st)) _).
  exists a.
  destruct (rv a =? MAP_FAILED) eqn:E.
  - exists []. cbn. repeat split; reflexivity.
  - destruct (negb (extra_vaddr seg =? 0)); cbn [trace errno fst snd];
      eexists; (split; [rewrite <- !app_assoc; cbn [app]; reflexivity|]);
      (split; [|reflexivity]).
    + eexists [_; _], _. reflexivity.
    + eexists [_], _. reflexivity.
Qed.

(** ** get_extracopy: the fall-back to the whole zero-fill tail *)

Lemma bail2_window (seg : seg_info) :
  0 <= vaddr seg -> 0 <= filesz seg <= memsz seg ->
  vaddr seg + memsz seg < WORD ->
  bail2 seg
  = set_extra seg (vaddr seg + filesz seg) (memsz seg - filesz seg).
Proof.
  intros Hv Hf Hm. unfold bail2, ptr_diff, ptr_add.
  rewrite wrap_sub_wrap.
  rewrite !wrap_small by lia. f_equal. lia.
Qed.

Lemma find_numsyms_not_after (symtab strtab : Z) :
  strtab <= symtab -> find_numsyms symtab strtab = -1.
Proof.
  intros H. unfold find_numsyms.
  now replace (strtab <=? symtab) with true by (symmetry; apply Z.leb_le; lia).
Qed.

(** C5 (amended): for a segment with a zero-fill tail and minimal copy
    enabled, when [find_dynamic] or [find_tables] returns -1, or
    [find_numsyms] returns a negative count (it returns -1 when the string
    table does not lie after the symbol table), [get_extracopy] sets the
    copy window to the whole tail: [extra_vaddr = vaddr + filesz] and
    [extrasz = memsz - filesz]. *)
Theorem get_extracopy_fallback (img : image) (seg : seg_info)
    (phdr : list Elf_Phdr) (phnum : Z) :
  0 <= vaddr seg ->
  0 <= filesz seg < memsz seg ->
  vaddr seg + memsz seg < WORD ->
  unusable_metadata img phdr phnum ->
  get_extracopy true img seg phdr phnum
  = Some (set_extra seg (vaddr seg + filesz seg) (memsz seg - filesz seg)).
Proof.
  intros Hv Hf Hm Hu. rewrite <- bail2_window by lia.
  unfold get_extracopy.
  replace (filesz seg =? memsz seg) with false
    by (symmetry; apply Z.eqb_neq; lia).
  cbn [negb].
  destruct Hu as [d Hd | dyntab sy st Hd Ht | sy st (dyntab & Hd & Ht) Hn].
  - rewrite Hd. reflexivity.
  - rewrite Hd. cbn. rewrite Ht. reflexivity.
  - rewrite Hd. cbn. rewrite Ht. cbn.
    now replace (find_numsyms sy st <? 0) with true
      by (symmetry; apply Z.ltb_lt; lia).
Qed.

Lemma get_extracopy_fallback_witness :
  get_extracopy true img_strtab_first seg_tail phdr_with_dynamic 2
  = Some (set_extra seg_tail (65536 + 12288) (20480 - 12288)).
Proof.
  apply (get_extracopy_fallback img_strtab_first seg_tail
           phdr_with_dynamic 2).
  - simpl. lia.
  - simpl. lia.
  - unfold WORD. simpl. lia.
  - apply (no_count _ _ _ 4096 2048).
    + exists 8192. split; reflexivity.
    + vm_compute. reflexivity.
Defined.

(** C5 as stated fails for an entry count of zero: the count is
    non-positive, yet [get_extracopy] goes on with the (empty) symbol
    scan and leaves the copy window unset. *)
Lemma get_extracopy_zero_count_counterexample :
  filesz seg_tail < memsz seg_tail
  /\ located img_zero_count phdr_with_dynamic 2 4096 4104
  /\ find_numsyms 4096 4104 <= 0
  /\ get_extracopy true img_zero_count seg_tail phdr_with_dynamic 2
     = Some seg_tail
  /\ extra_vaddr seg_tail = 0
  /\ extra_vaddr seg_tail <> vaddr seg_tail + filesz seg_tail.
Proof.
  split; [reflexivity|].
  split; [exists 8192; split; reflexivity|].
  split; [vm_compute; discriminate|].
  split; [reflexivity|].
  split; [reflexivity|].
  vm_compute. discriminate.
Qed.

(** ** get_extracopy: the symbol-derived window *)

Lemma scan_symbols_fold (so eo : Z) (l : list Elf_Sym) :
  forall mem w,
    firstn (List.length l) mem = l ->
    scan_symbols (List.length l) mem so eo w
    = Some (fold_left (scan_step so eo) l w).
Proof.
  induction l as [|s l IH]; intros mem w H; simpl.
  - reflexivity.
  - destruct mem as [|s' mem']; simpl in H; [discriminate|].
    inversion H; subst. rewrite H2. now apply IH.
Qed.

Lemma scan_step_skip (so eo : Z) (w : window) (s : Elf_Sym) :
  keep_symbol s so eo = false -> scan_step so eo w s = w.
Proof. intros H. unfold scan_step. now rewrite H. Qed.

Lemma scan_step_keep (so eo : Z) (w : window) (s : Elf_Sym) :
  keep_symbol s so eo = true -> sym_in_range s ->
  scan_step so eo w s
  = mkWin (Z.min (w_start w) (st_value s)) (Z.max (w_end w) (sym_end s)) true.
Proof.
  intros H (Hv & Hs & Hw). unfold scan_step. rewrite H. cbn [negb].
  rewrite wrap_small by lia. fold (sym_end s). f_equal.
  - destruct (st_value s <? w_start w) eqn:E.
    + apply Z.ltb_lt in E. lia.
    + apply Z.ltb_ge in E. lia.
  - destruct (sym_end s >? w_end w) eqn:E.
    + apply Z.gtb_lt in E. lia.
    + rewrite Z.gtb_ltb in E. apply Z.ltb_ge in E. lia.
Qed.

Lemma scan_fold_filter (so eo : Z) (l : list Elf_Sym) :
  forall w,
    fold_left (scan_step so eo) l w
    = fold_left (scan_step so eo)
                (filter (fun s => keep_symbol s so eo) l) w.
Proof.
  induction l as [|s l IH]; intros w; simpl.
  - reflexivity.
  - destruct (keep_symbol s so eo) eqn:E; simpl.
    + apply IH.
    + rewrite scan_step_skip by exact E. apply IH.
Qed.

Lemma scan_fold_kept (so eo : Z) (l : list Elf_Sym) :
  forall a b,
    Forall (fun s => keep_symbol s so eo = true) l ->
    Forall sym_in_range l ->
    fold_left (scan_step so eo) l (mkWin a b true)
    = mkWin (fold_left Z.min (map st_value l) a)
            (fold_left Z.max (map sym_end l) b) true.
Proof.
  induction l as [|s l IH]; intros a b Hk Hr; simpl.
  - reflexivity.
  - inversion Hk; inversion Hr; subst.
    rewrite scan_step_keep by assumption. cbn [w_start w_end].
    now apply IH.
Qed.

Lemma fold_min_le (l : list Z) : forall a, fold_left Z.min l a <= a.
Proof.
  induction l as [|x l IH]; intros a; simpl; [lia|].
  specialize (IH (Z.min a x)). lia.
Qed.

Lemma fold_max_ge (l : list Z) : forall a, a <= fold_left Z.max l a.
Proof.
  induction l as [|x l IH]; intros a; simpl; [lia|].
  specialize (IH (Z.max a x)). lia.
Qed.

Lemma fold_min_lower (l : list Z) (c : Z) :
  forall a, c <= a -> Forall (fun x => c <= x) l -> c <= fold_left Z.min l a.
Proof.
  induction l as [|x l IH]; intros a Ha Hl; simpl; [exact Ha|].
  inversion Hl; subst. apply IH; [lia|assumption].
Qed.

Lemma fold_max_upper (l : list Z) (c : Z) :
  forall a, a < c -> Forall (fun x => x < c) l -> fold_left Z.max l a < c.
Proof.
  induction l as [|x l IH]; intros a Ha Hl; simpl; [exact Ha|].
  inversion Hl; subst. apply IH; [lia|assumption].
Qed.

(** Away from the upper end of the tail, [keep_symbol] keeps exactly the
    symbols of the specification. *)
Lemma keep_symbol_spec (so eo : Z) (s : Elf_Sym) :
  st_value s <> eo -> keep_symbol s so eo = spec_keep so eo s.
Proof.
  intros H. unfold keep_symbol, spec_keep.
  destruct (st_value s <? so) eqn:E1.
  - apply Z.ltb_lt in E1.
    now replace (so <=? st_value s) with false
      by (symmetry; apply Z.leb_gt; lia).
  - apply Z.ltb_ge in E1.
    replace (so <=? st_value s) with true by (symmetry; apply Z.leb_le; lia).
    destruct (st_value s >? eo) eqn:E2.
    + apply Z.gtb_lt in E2.
      now replace (st_value s <? eo) with false
        by (symmetry; apply Z.ltb_ge; lia).
    + rewrite Z.gtb_ltb in E2. apply Z.ltb_ge in E2.
      replace (st_value s <? eo) with true by (symmetry; apply Z.ltb_lt; lia).
      cbn [andb].
      destruct (ELF_ST_BIND (st_info s) =? STB_GLOBAL),
               (ELF_ST_BIND (st_info s) =? STB_WEAK),
               (ELF_ST_TYPE (st_info s) =? STT_OBJECT),
               (st_size s =? 0); reflexivity.
Qed.

Lemma keep_symbol_bounds (so eo : Z) (s : Elf_Sym) :
  keep_symbol s so eo = true ->
  so <= st_value s <= eo /\ st_size s <> 0.
Proof.
  unfold keep_symbol.
  destruct (st_value s <? so) eqn:E1; [discriminate|].
  destruct (st_value s >? eo) eqn:E2; [discriminate|].
  destruct (negb (ELF_ST_BIND (st_info s) =? STB_GLOBAL)
            && negb (ELF_ST_BIND (st_info s) =? STB_WEAK)); [discriminate|].
  destruct (negb (ELF_ST_TYPE (st_info s) =? STT_OBJECT)); [discriminate|].
  destruct (st_size s =? 0) eqn:E3; [discriminate|].
  intros _. apply Z.ltb_ge in E1. rewrite Z.gtb_ltb in E2.
  apply Z.ltb_ge in E2. apply Z.eqb_neq in E3. lia.
Qed.

(** The window the symbol loop leaves, for the symbols [keep_symbol]
    keeps. *)
Lemma scan_window (so eo : Z) (l : list Elf_Sym) :
  so <= eo ->
  Forall sym_in_range l ->
  fold_left (scan_step so eo) l (mkWin eo so false)
  = match spec_union (filter (fun s => keep_symbol s so eo) l) with
    | None => mkWin eo so false
    | Some (lo, hi) => mkWin lo hi true
    end.
Proof.
  intros Hso Hr. rewrite scan_fold_filter.
  assert (Forall (fun s => keep_symbol s so eo = true)
                 (filter (fun s => keep_symbol s so eo) l)) as Hk.
  { apply Forall_forall. intros s Hs. now apply filter_In in Hs. }
  assert (Forall sym_in_range (filter (fun s => keep_symbol s so eo) l))
    as Hr'.
  { apply Forall_forall. intros s Hs. apply filter_In in Hs.
    rewrite Forall_forall in Hr. now apply Hr. }
  destruct (filter (fun s => keep_symbol s so eo) l) as [|s k]; simpl.
  - reflexivity.
  - inversion Hk; inversion Hr'; subst.
    rewrite scan_step_keep by assumption. cbn [w_start w_end].
    rewrite scan_fold_kept by assumption.
    destruct (keep_symbol_bounds so eo s) as [Hb Hz]; [assumption|].
    match goal with H : sym_in_range s |- _ => destruct H as (Hv & Hs & Hw) end.
    unfold sym_end at 2.
    replace (Z.min eo (st_value s)) with (st_value s) by lia.
    replace (Z.max so (st_value s + st_size s)) with (sym_end s)
      by (unfold sym_end; lia).
    reflexivity.
Qed.

Lemma spec_union_bounds (l : list Elf_Sym) (lo hi : Z) :
  Forall sym_in_range l ->
  Forall (fun s => st_size s <> 0) l ->
  spec_union l = Some (lo, hi) ->
  0 <= lo /\ lo < hi /\ hi < WORD.
Proof.
  intros Hr Hz. destruct l as [|s r]; simpl; [discriminate|].
  intros H. inversion H; subst; clear H.
  inversion Hr as [|? ? (Hv & Hs & Hw) Hr']; subst.
  inversion Hz; subst.
  pose proof (fold_min_le (map st_value r) (st_value s)).
  pose proof (fold_max_ge (map sym_end r) (sym_end s)).
  assert (0 <= fold_left Z.min (map st_value r) (st_value s)).
  { apply fold_min_lower; [lia|]. apply Forall_map.
    eapply Forall_impl; [|exact Hr']. intros x Hx. apply Hx. }
  assert (fold_left Z.max (map sym_end r) (sym_end s) < WORD).
  { apply fold_max_upper; [unfold sym_end; lia|]. apply Forall_map.
    eapply Forall_impl; [|exact Hr']. intros x Hx. unfold sym_end.
    apply Hx. }
  unfold sym_end in *. lia.
Qed.

Lemma spec_union_start_in_tail (so eo : Z) (l : list Elf_Sym) (lo hi : Z) :
  Forall (fun s => spec_keep so eo s = true) l ->
  spec_union l = Some (lo, hi) -> lo < eo.
Proof.
  intros Hk. destruct l as [|s r]; simpl; [discriminate|].
  intros H. inversion H; subst; clear H. inversion Hk as [|? ? Hs _]; subst.
  unfold spec_keep in Hs. do 3 (apply andb_prop in Hs as [Hs _]).
  apply andb_prop in Hs as [_ Hs]. apply Z.ltb_lt in Hs.
  pose proof (fold_min_le (map st_value r) (st_value s)). lia.
Qed.

(** C6 (amended): for a segment with a zero-fill tail, minimal copy
    enabled and the dynamic metadata found, the copy window, when set,
    starts at the least start of the byte ranges of the symbols whose
    value lies in the tail, whose binding is global or weak, whose type is
    object and whose size is nonzero, and ends at their greatest end, or
    at [__libhuge_filesz] when that lies beyond it; without such a symbol
    the window stays unset.  (Symbols that start exactly at the end of the
    tail are left aside.) *)
Theorem get_extracopy_symbol_window (img : image) (seg : seg_info)
    (phdr : list Elf_Phdr) (phnum symtab strtab : Z) (syms : list Elf_Sym) :
  0 <= vaddr seg ->
  0 <= filesz seg < memsz seg ->
  vaddr seg + memsz seg < WORD ->
  located img phdr phnum symtab strtab ->
  0 <= find_numsyms symtab strtab ->
  firstn (Z.to_nat (find_numsyms symtab strtab)) (sym_at img symtab) = syms ->
  List.length syms = Z.to_nat (find_numsyms symtab strtab) ->
  Forall sym_in_range syms ->
  Forall (fun s => st_value s <> vaddr seg + memsz seg) syms ->
  0 <= libhuge_filesz img < WORD ->
  get_extracopy true img seg phdr phnum
  = Some match spec_union (filter (spec_keep (vaddr seg + filesz seg)
                                             (vaddr seg + memsz seg)) syms)
         with
         | None => seg
         | Some (lo, hi) =>
             set_extra seg lo (Z.max hi (libhuge_filesz img) - lo)
         end.
Proof.
  intros Hv Hf Hm (dyntab & Hd & Ht) Hn Hsyms Hlen Hr Hb Hsent.
  unfold get_extracopy.
  replace (filesz seg =? memsz seg) with false
    by (symmetry; apply Z.eqb_neq; lia).
  cbn [negb]. rewrite Hd. cbn. rewrite Ht. cbn.
  replace (find_numsyms symtab strtab <? 0) with false
    by (symmetry; apply Z.ltb_ge; lia).
  unfold ptr_add. rewrite !wrap_small by lia.
  rewrite <- Hlen in Hsyms |- *.
  rewrite scan_symbols_fold by exact Hsyms.
  rewrite scan_window by (assumption || lia).
  assert (filter (fun s => keep_symbol s (vaddr seg + filesz seg)
                                       (vaddr seg + memsz seg)) syms
          = filter (spec_keep (vaddr seg + filesz seg)
                              (vaddr seg + memsz seg)) syms) as Hfil.
  { apply filter_ext_in. intros s Hs. apply keep_symbol_spec.
    rewrite Forall_forall in Hb. now apply Hb. }
  rewrite Hfil.
  set (kept := filter (spec_keep (vaddr seg + filesz seg)
                                 (vaddr seg + memsz seg)) syms) in *.
  destruct (spec_union kept) as [[lo hi]|] eqn:Hu.
  - assert (0 <= lo /\ lo < hi /\ hi < WORD) as (H0 & H1 & H2).
    { apply (spec_union_bounds kept); [| |exact Hu].
      - apply Forall_forall. intros s Hs. apply filter_In in Hs.
        rewrite Forall_forall in Hr. now apply Hr.
      - apply Forall_forall. intros s Hs. subst kept. rewrite <- Hfil in Hs.
        apply filter_In in Hs. destruct Hs as [_ Hs].
        now apply keep_symbol_bounds in Hs. }
    assert (lo < vaddr seg + memsz seg) as Hlt.
    { apply (spec_union_start_in_tail (vaddr seg + filesz seg) _ kept lo hi);
        [|exact Hu].
      apply Forall_forall. intros s Hs. now apply filter_In in Hs. }
    unfold apply_sentinel. cbn [w_end w_start found_sym].
    destruct (libhuge_filesz img >? hi) eqn:Es.
    + apply Z.gtb_lt in Es.
      replace (lo =? vaddr seg + memsz seg) with false
        by (symmetry; apply Z.eqb_neq; lia).
      cbn. unfold ptr_diff. rewrite wrap_small by lia.
      now replace (Z.max hi (libhuge_filesz img)) with (libhuge_filesz img)
        by lia.
    + rewrite Z.gtb_ltb in Es. apply Z.ltb_ge in Es.
      cbn. unfold ptr_diff. rewrite wrap_small by lia.
      now replace (Z.max hi (libhuge_filesz img)) with hi by lia.
  - unfold apply_sentinel. cbn [w_end w_start found_sym].
    destruct (libhuge_filesz img >? vaddr seg + filesz seg); reflexivity.
Qed.

Lemma get_extracopy_symbol_window_witness :
  get_extracopy true (img_scenario 0) seg_tail phdr_with_dynamic 2
  = Some (set_extra seg_tail 78080 128).
Proof.
  apply (get_extracopy_symbol_window (img_scenario 0) seg_tail
           phdr_with_dynamic 2 4096 4240 syms_scenario).
  - simpl. lia.
  - simpl. lia.
  - unfold WORD. simpl. lia.
  - exists 8192. split; reflexivity.
  - vm_compute. discriminate.
  - reflexivity.
  - reflexivity.
  - unfold syms_scenario, sym_in_range, WORD.
    repeat (apply Forall_cons; [simpl; lia|]). apply Forall_nil.
  - unfold syms_scenario.
    repeat (apply Forall_cons; [simpl; lia|]). apply Forall_nil.
  - unfold WORD. simpl. lia.
Defined.

(** C6 as stated fails when [__libhuge_filesz] lies beyond the kept
    symbols: the only kept symbol covers [0x13100, 0x13180), yet the window
    runs on to the sentinel at 0x14000. *)
Lemma get_extracopy_sentinel_counterexample :
  located (img_scenario 81920) phdr_with_dynamic 2 4096 4240
  /\ spec_union (filter (spec_keep (vaddr seg_tail + filesz seg_tail)
                                   (vaddr seg_tail + memsz seg_tail))
                        syms_scenario)
     = Some (78080, 78208)
  /\ get_extracopy true (img_scenario 81920) seg_tail phdr_with_dynamic 2
     = Some (set_extra seg_tail 78080 3840)
  /\ 78080 + 3840 <> 78208.
Proof.
  split; [exists 8192; split; reflexivity|].
  split; [reflexivity|].
  split; [reflexivity|].
  lia.
Qed.

(** ** get_extracopy: the sentinel without kept symbols *)

(** C7 (the code departs from it): when the symbol loop keeps no symbol,
    [found_sym] stays 0 and [get_extracopy] records no window at all,
    wherever [__libhuge_filesz] lies: the start the sentinel branch sets
    to the beginning of the tail is never stored. *)
Theorem get_extracopy_sentinel_without_symbols (img : image)
    (seg : seg_info) (phdr : list Elf_Phdr) (phnum symtab strtab : Z)
    (syms : list Elf_Sym) :
  filesz seg <> memsz seg ->
  located img phdr phnum symtab strtab ->
  0 <= find_numsyms symtab strtab ->
  firstn (Z.to_nat (find_numsyms symtab strtab)) (sym_at img symtab) = syms ->
  List.length syms = Z.to_nat (find_numsyms symtab strtab) ->
  Forall (fun s => keep_symbol s (ptr_add (vaddr seg) (filesz seg))
                               (ptr_add (vaddr seg) (memsz seg)) = false)
         syms ->
  get_extracopy true img seg phdr phnum = Some seg.
Proof.
  intros Hf (dyntab & Hd & Ht) Hn Hsyms Hlen Hk.
  unfold get_extracopy.
  replace (filesz seg =? memsz seg) with false
    by (symmetry; apply Z.eqb_neq; lia).
  cbn [negb]. rewrite Hd. cbn. rewrite Ht. cbn.
  replace (find_numsyms symtab strtab <? 0) with false
    by (symmetry; apply Z.ltb_ge; lia).
  rewrite <- Hlen in Hsyms |- *.
  rewrite scan_symbols_fold by exact Hsyms.
  rewrite scan_fold_filter.
  replace (filter _ syms) with (@nil Elf_Sym).
  - cbn [fold_left]. unfold apply_sentinel. cbn [w_end w_start found_sym].
    destruct (libhuge_filesz img >? _); reflexivity.
  - symmetry. clear Hsyms Hlen. induction Hk as [|s l Hs Hl IH]; simpl.
    + reflexivity.
    + now rewrite Hs.
Qed.

Lemma get_extracopy_sentinel_without_symbols_witness :
  ptr_add (vaddr seg_tail) (filesz seg_tail) < libhuge_filesz img_sentinel_only
  /\ get_extracopy true img_sentinel_only seg_tail phdr_with_dynamic 2
     = Some seg_tail
  /\ extra_vaddr seg_tail = 0.
Proof.
  split; [reflexivity|]. split; [|reflexivity].
  apply (get_extracopy_sentinel_without_symbols img_sentinel_only seg_tail
           phdr_with_dynamic 2 4096 4168 syms_none_kept).
  - simpl. lia.
  - exists 8192. split; reflexivity.
  - vm_compute. discriminate.
  - reflexivity.
  - reflexivity.
  - unfold syms_none_kept.
    repeat (apply Forall_cons; [reflexivity|]). apply Forall_nil.
Defined.

(** ** parse_elf: more marked segments than the table holds *)

Lemma set_nth_length {A : Type} (n : nat) (l : list A) (x : A) :
  List.length (set_nth n l x) = List.length l.
Proof.
  revert n. induction l as [|h t IH]; intros [|n]; simpl; auto.
Qed.

Lemma set_nth_z_length {A : Type} (l : list A) (i : Z) (x : A) :
  List.length (set_nth_z l i x) = List.length l.
Proof.
  unfold set_nth_z. destruct (i <? 0); [reflexivity|apply set_nth_length].
Qed.

Lemma nth_z_in_range {A : Type} (l : list A) (i : Z) :
  0 <= i < Z.of_nat (List.length l) -> exists x, nth_z l i = Some x.
Proof.
  intros H. unfold nth_z.
  replace (i <? 0) with false by (symmetry; apply Z.ltb_ge; lia).
  destruct (nth_error l (Z.to_nat i)) as [x|] eqn:E; [now exists x|].
  apply nth_error_None in E. lia.
Qed.

Lemma firstn_skipn_cons {A : Type} (n k : nat) (mem : list A) (x : A)
    (l : list A) :
  firstn (S n) (skipn k mem) = x :: l ->
  nth_error mem k = Some x /\ firstn n (skipn (S k) mem) = l.
Proof.
  revert mem. induction k as [|k IH]; intros mem H.
  - destruct mem as [|y mem']; simpl in H; [discriminate|].
    inversion H; subst. split; reflexivity.
  - destruct mem as [|y mem']; simpl in H; [discriminate|].
    apply IH in H. exact H.
Qed.

Section TooMany.

Variables (mc : bool) (img : image).

Hypothesis no_fault :
  forall seg, get_extracopy mc img seg (phdr_mem img) (e_phnum img) <> None.

(** Once the table is full, or will be before the headers run out, the
    loop of [parse_elf] ends with [htlb_num_segs = 0]. *)
Lemma parse_elf_loop_too_many (l : list Elf_Phdr) :
  forall i tbl num,
    0 <= i ->
    firstn (List.length l) (skipn (Z.to_nat i) (phdr_mem img)) = l ->
    List.length tbl = Z.to_nat MAX_HTLB_SEGS ->
    0 <= num <= MAX_HTLB_SEGS ->
    MAX_HTLB_SEGS < num + Z.of_nat (List.length (filter eligible l)) ->
    exists tbl',
      parse_elf_loop mc img (List.length l) i tbl num = Some (tbl', 0).
Proof.
  induction l as [|ph l IH]; intros i tbl num Hi Hl Ht Hn Hc.
  - simpl in Hc. lia.
  - cbn [List.length] in Hl. apply firstn_skipn_cons in Hl.
    destruct Hl as [Hph Hl].
    cbn [List.length parse_elf_loop]. unfold nth_z at 1.
    replace (i <? 0) with false by (symmetry; apply Z.ltb_ge; lia).
    rewrite Hph.
    replace (S (Z.to_nat i)) with (Z.to_nat (i + 1)) in Hl by lia.
    simpl in Hc. unfold eligible in Hc at 1.
    destruct (p_type ph =? PT_LOAD); cbn [negb andb] in *.
    + destruct (Z.land (p_flags ph) PF_LINUX_HUGETLB =? 0);
        cbn [negb] in *.
      * apply IH; (assumption || lia).
      * cbn [List.length] in Hc.
        destruct (num >=? MAX_HTLB_SEGS) eqn:E; [now exists tbl|].
        rewrite Z.geb_leb in E. apply Z.leb_gt in E.
        destruct (nth_z_in_range tbl num) as [old Hold].
        { rewrite Ht. unfold MAX_HTLB_SEGS in *. lia. }
        rewrite Hold.
        match goal with
        | |- context [get_extracopy mc img ?s ?p ?n] =>
            destruct (get_extracopy mc img s p n) as [seg'|] eqn:G;
              [|now apply no_fault in G]
        end.
        apply IH; try (assumption || lia).
        now rewrite set_nth_z_length.
    + apply IH; (assumption || lia).
Qed.

Lemma parse_elf_too_many (tbl : list seg_info) :
  0 <= e_phnum img ->
  e_phnum img <= Z.of_nat (List.length (phdr_mem img)) ->
  List.length tbl = Z.to_nat MAX_HTLB_SEGS ->
  MAX_HTLB_SEGS < count_eligible img ->
  exists tbl', parse_elf mc img tbl 0 = Some (tbl', 0).
Proof.
  intros H0 Hlen Ht Hc. unfold parse_elf.
  set (l := firstn (Z.to_nat (e_phnum img)) (phdr_mem img)).
  assert (List.length l = Z.to_nat (e_phnum img)) as Hl.
  { subst l. rewrite length_firstn. lia. }
  rewrite <- Hl. apply parse_elf_loop_too_many; try lia.
  - rewrite Hl. reflexivity.
  - unfold MAX_HTLB_SEGS. lia.
  - unfold count_eligible in Hc. fold l in Hc. lia.
Qed.

End TooMany.

(** C2: when the image holds more PT_LOAD headers marked for huge pages
    than MAX_HTLB_SEGS, [parse_elf] leaves [htlb_num_segs = 0], and
    [setup_elflink] returns without a single call: nothing is prepared,
    unmapped or remapped. *)
Theorem too_many_segments_promote_nothing (w : world) (fuel : nat)
    (img : image) :
  executable_start w = Some img ->
  0 <= e_phnum img <= Z.of_nat (List.length (phdr_mem img)) ->
  MAX_HTLB_SEGS < count_eligible img ->
  (forall mc seg,
      get_extracopy mc img seg (phdr_mem img) (e_phnum img) <> None) ->
  (forall mc, exists tbl',
        parse_elf mc img htlb_seg_table0 0 = Some (tbl', 0))
  /\ setup_elflink w fuel pstate0 = (pstate0, Returns tt).
Proof.
  intros He Hn Hc Hf.
  assert (forall mc, exists tbl',
             parse_elf mc img htlb_seg_table0 0 = Some (tbl', 0)) as Hp.
  { intros mc. apply parse_elf_too_many; try (reflexivity || lia).
    apply Hf. }
  split; [exact Hp|].
  unfold setup_elflink. rewrite He.
  destruct (check_env w flags0) as [r g].
  destruct (negb (r =? 0)); [reflexivity|].
  destruct (Hp (minimal_copy g)) as [tbl' ->]. reflexivity.
Qed.

Lemma too_many_segments_promote_nothing_witness :
  (forall mc, exists tbl',
        parse_elf mc img_three htlb_seg_table0 0 = Some (tbl', 0))
  /\ setup_elflink world_three 1 pstate0 = (pstate0, Returns tt).
Proof.
  apply (too_many_segments_promote_nothing world_three 1 img_three).
  - reflexivity.
  - simpl. lia.
  - vm_compute. reflexivity.
  - intros mc seg. unfold get_extracopy.
    destruct (filesz seg =? memsz seg); [discriminate|].
    destruct mc; cbn; discriminate.
Defined.

(** ** Digits and their values *)

Lemma digit_value_digit (k : Z) : 0 <= k < 16 -> digit_value (digit k) = k.
Proof.
  intros H. replace k with (Z.of_nat (Z.to_nat k)) by lia.
  assert (Z.to_nat k < 16)%nat as Hn by lia.
  set (n := Z.to_nat k) in *. clearbody n.
  do 16 (destruct n as [|n]; [reflexivity|]). lia.
Qed.

Lemma digits_lsb_value (base : Z) (fuel : nat) :
  2 <= base <= 16 ->
  forall val,
    0 <= val < base ^ Z.of_nat fuel ->
    lsb_value base (digits_lsb fuel val base) = val.
Proof.
  intros Hb. induction fuel as [|fuel IH]; intros val Hv.
  - simpl in *. lia.
  - cbn [digits_lsb]. destruct (val =? 0) eqn:E.
    + apply Z.eqb_eq in E. now subst.
    + cbn [lsb_value].
      rewrite digit_value_digit
        by (pose proof (Z.mod_pos_bound val base); lia).
      rewrite IH.
      * pose proof (Z.div_mod val base). lia.
      * split; [apply Z.div_pos; lia|].
        apply Z.div_lt_upper_bound; [lia|].
        rewrite Nat2Z.inj_succ, Z.pow_succ_r in Hv by lia. lia.
Qed.

Lemma digits_value_rev (base : Z) (l : list ascii) :
  digits_value base (string_of_list_ascii (rev l)) = lsb_value base l.
Proof.
  unfold digits_value. rewrite list_ascii_of_string_of_list_ascii.
  induction l as [|c l IH]; [reflexivity|].
  cbn [rev lsb_value]. rewrite fold_left_app. cbn [fold_left].
  rewrite IH. lia.
Qed.

(** ** The abort path *)

Lemma writes_more_refl (st : pstate) : writes_more st st.
Proof. exists []. split; [now rewrite app_nil_r|constructor]. Qed.

Lemma writes_more_trans (a b c : pstate) :
  writes_more a b -> writes_more b c -> writes_more a c.
Proof.
  intros (m1 & H1 & F1) (m2 & H2 & F2). exists (m1 ++ m2). split.
  - now rewrite H2, H1, app_assoc.
  - now apply Forall_app.
Qed.

Section AbortPath.

Variable w : world.

Lemma bind_returns {A B : Type} (m : M A) (k : A -> M B) (st st1 : pstate)
    (a : A) :
  m st = (st1, Returns a) -> bind m k st = k a st1.
Proof. intros H. unfold bind. now rewrite H. Qed.

Lemma bind_killed {A B : Type} (m : M A) (k : A -> M B) (st st1 : pstate)
    (s : Z) :
  m st = (st1, Killed s) -> bind m k st = (st1, Killed s).
Proof. intros H. unfold bind. now rewrite H. Qed.

Lemma write_err_writes (s : string) (st : pstate) :
  exists st', write_err w s st = (st', Returns tt) /\ writes_more st st'.
Proof.
  unfold write_err, bind, sys, ret. cbv zeta. eexists. split; [reflexivity|].
  eexists [_]. split; [reflexivity|].
  constructor; [|constructor]. eexists _, _. reflexivity.
Qed.

Lemma write_err_base_writes (val base : Z) (st : pstate) :
  exists st',
    write_err_base w val base st = (st', Returns tt) /\ writes_more st st'.
Proof. unfold write_err_base. apply write_err_writes. Qed.

Lemma unmapped_abort_scan_writes (n : nat) :
  forall p lit args st,
    (String.length p <= n)%nat ->
    exists st',
      unmapped_abort_scan w p lit args st = (st', Returns tt)
      /\ writes_more st st'.
Proof.
  induction n as [|n IH]; intros p lit args st Hn.
  - destruct p; [|simpl in Hn; lia]. simpl. apply write_err_writes.
  - destruct p as [|c rest]; [simpl; apply write_err_writes|].
    simpl in Hn. cbn [unmapped_abort_scan].
    destruct (Ascii.eqb c "%") eqn:Ec; [|apply IH; lia].
    destruct (write_err_writes lit st) as (st1 & H1 & W1).
    rewrite (bind_returns _ _ _ _ _ H1).
    assert (forall p' lit' args',
               (String.length p' <= n)%nat ->
               exists st',
                 unmapped_abort_scan w p' lit' args' st1 = (st', Returns tt)
                 /\ writes_more st st') as IH1.
    { intros p' lit' args' Hp.
      destruct (IH p' lit' args' st1 Hp) as (st2 & H2 & W2).
      exists st2. split; [exact H2|]. eapply writes_more_trans; eauto. }
    destruct rest as [|c' rest']; [apply IH1; simpl; lia|].
    simpl in Hn.
    assert (forall val base args',
               exists st',
                 (write_err_base w val base ;;;
                  unmapped_abort_scan w rest' EmptyString args') st1
                 = (st', Returns tt)
                 /\ writes_more st st') as Hconv.
    { intros val base args'.
      destruct (write_err_base_writes val base st1) as (st2 & H2 & W2).
      rewrite (bind_returns _ _ _ _ _ H2).
      destruct (IH rest' EmptyString args' st2) as (st3 & H3 & W3); [lia|].
      exists st3. split; [exact H3|].
      eapply writes_more_trans; [exact W1|].
      eapply writes_more_trans; eauto. }
    destruct (Ascii.eqb c' "u").
    { destruct (next_arg args) as [val args']. apply Hconv. }
    destruct (Ascii.eqb c' "p").
    { destruct (next_arg args) as [val args']. apply Hconv. }
    apply IH1. simpl. lia.
Qed.

(** [unmapped_abort] never returns: after its writes it signals the
    process, which ends there. *)
Lemma unmapped_abort_kills (fmt : string) (args : list Z) (st : pstate) :
  exists st' evs,
    unmapped_abort w fmt args st = (st', Killed SIGABRT)
    /\ trace st' = trace st ++ evs
    /\ abort_tail evs.
Proof.
  unfold unmapped_abort.
  destruct (unmapped_abort_scan_writes (String.length fmt) fmt EmptyString
              args st (le_n _)) as (st1 & H1 & (msgs & Ht & Hw)).
  rewrite (bind_returns _ _ _ _ _ H1).
  unfold sys_abort, bind, sys, sys_kill. cbv zeta. cbn [trace errno rv].
  eexists _, _. split; [reflexivity|]. cbn [trace]. split.
  - rewrite Ht, <- !app_assoc. cbn [app]. reflexivity.
  - eexists msgs, _, _. split; [reflexivity|exact Hw].
Qed.

End AbortPath.

(** ** remap_segments *)

Section Remap.

Variable w : world.

Lemma remap_map_run (i : Z) (s : seg_info) (st : pstate) :
  exists st' e a,
    fixed_mmap e (vaddr s) a
    /\ ((rv a = vaddr s /\ rv a <> MAP_FAILED
         /\ remap_map w i s st = (st', Returns tt)
         /\ trace st' = trace st ++ [e])
        \/ ((rv a = MAP_FAILED \/ rv a <> vaddr s)
            /\ exists tail,
                remap_map w i s st = (st', Killed SIGABRT)
                /\ trace st' = trace st ++ e :: tail
                /\ abort_tail tail)).
Proof.
  unfold remap_map. cbv zeta.
  set (c := C_mmap _ _ _ _ _ _).
  set (a := oracle w (List.length (trace st)) c).
  set (st1 := mkPstate (trace st ++ [(F_remap_segments, c, a)])
                       (match err a with Some e => e | None => errno st end)).
  assert (sys w F_remap_segments c st = (st1, Returns a)) as Hs
    by reflexivity.
  rewrite (bind_returns _ _ _ _ _ Hs).
  assert (get_errno st1 = (st1, Returns (errno st1))) as He by reflexivity.
  rewrite (bind_returns _ _ _ _ _ He).
  assert (fixed_mmap (F_remap_segments, c, a) (vaddr s) a) as Hfix.
  { eexists _, _, _. reflexivity. }
  destruct (rv a =? MAP_FAILED) eqn:E1.
  - apply Z.eqb_eq in E1. cbn [when].
    match goal with
    | |- context [unmapped_abort w ?f ?args] =>
        destruct (unmapped_abort_kills w f args st1) as (st2 & evs & Hk & Ht & Ha)
    end.
    exists st2, (F_remap_segments, c, a), a. split; [exact Hfix|].
    right. split; [now left|]. exists evs.
    rewrite (bind_killed _ _ _ _ _ Hk). split; [reflexivity|].
    split; [|exact Ha]. rewrite Ht. subst st1. cbn [trace].
    now rewrite <- app_assoc.
  - apply Z.eqb_neq in E1. cbn [when].
    assert (ret tt st1 = (st1, Returns tt)) as Hr by reflexivity.
    rewrite (bind_returns _ _ _ _ _ Hr).
    destruct (rv a =? vaddr s) eqn:E2.
    + apply Z.eqb_eq in E2. cbn [negb when].
      exists st1, (F_remap_segments, c, a), a. split; [exact Hfix|].
      left. repeat split; auto.
    + apply Z.eqb_neq in E2. cbn [negb when].
      match goal with
      | |- context [unmapped_abort w ?f ?args] =>
          destruct (unmapped_abort_kills w f args st1)
            as (st2 & evs & Hk & Ht & Ha)
      end.
      exists st2, (F_remap_segments, c, a), a. split; [exact Hfix|].
      right. split; [now right|]. exists evs.
      split; [exact Hk|]. split; [|exact Ha]. rewrite Ht. subst st1.
      cbn [trace]. now rewrite <- app_assoc.
Qed.

Lemma for_segs_map_phase (seg : list seg_info) (n : nat) :
  forall i st,
    exists st' out evs,
      for_segs n i seg (remap_map w) st = (st', out)
      /\ trace st' = trace st ++ evs
      /\ map_phase evs out.
Proof.
  induction n as [|n IH]; intros i st; cbn [for_segs].
  - exists st, (Returns tt), []. split; [reflexivity|].
    split; [now rewrite app_nil_r|constructor].
  - destruct (nth_z seg i) as [s|].
    + destruct (remap_map_run i s st)
        as (st1 & e & a & Hfix
            & [(Hrv & Hnf & Hrun & Ht) | (Hbad & tail & Hrun & Ht & Ha)]).
      * rewrite (bind_returns _ _ _ _ _ Hrun).
        destruct (IH (i + 1) st1) as (st2 & out & evs & H2 & Ht2 & Hp).
        exists st2, out, (e :: evs). split; [exact H2|]. split.
        -- rewrite Ht2, Ht, <- app_assoc. reflexivity.
        -- eapply mp_ok; eauto.
      * rewrite (bind_killed _ _ _ _ _ Hrun).
        exists st1, (Killed SIGABRT), (e :: tail).
        split; [reflexivity|]. split; [exact Ht|].
        eapply mp_abort; eauto.
    + exists st, Faulted, []. split; [reflexivity|].
      split; [now rewrite app_nil_r|constructor].
Qed.

Lemma for_segs_unmap (seg : list seg_info) (n : nat) :
  forall i st,
    exists st' evs,
      trace st' = trace st ++ evs
      /\ Forall is_munmap evs
      /\ (for_segs n i seg (remap_unmap w) st = (st', Returns tt)
          \/ for_segs n i seg (remap_unmap w) st = (st', Faulted)).
Proof.
  induction n as [|n IH]; intros i st; cbn [for_segs].
  - exists st, []. split; [now rewrite app_nil_r|].
    split; [constructor|now left].
  - destruct (nth_z seg i) as [s|].
    + unfold remap_unmap at 1.
      set (c := C_munmap (vaddr s) (memsz s)).
      set (a := oracle w (List.length (trace st)) c).
      set (st1 := mkPstate (trace st ++ [(F_remap_segments, c, a)])
                    (match err a with Some e => e | None => errno st end)).
      assert ((sys w F_remap_segments c ;;; ret tt) st = (st1, Returns tt))
        as Hs by reflexivity.
      rewrite (bind_returns _ _ _ _ _ Hs).
      destruct (IH (i + 1) st1) as (st2 & evs & Ht & Hf & Hr).
      exists st2, ((F_remap_segments, c, a) :: evs). split.
      * rewrite Ht. subst st1. cbn [trace]. now rewrite <- app_assoc.
      * split; [|exact Hr]. constructor; [|exact Hf].
        eexists _, _, _. reflexivity.
    + exists st, []. split; [now rewrite app_nil_r|].
      split; [constructor|now right].
Qed.

End Remap.

(** In the remapping loop, a mapping that failed or landed elsewhere is
    followed by the abort path and by nothing else. *)
Lemma map_phase_bad (evs : list event) (out : outcome unit) :
  map_phase evs out ->
  forall pre e post addr a,
    evs = pre ++ e :: post ->
    fixed_mmap e addr a ->
    rv a = MAP_FAILED \/ rv a <> addr ->
    out = Killed SIGABRT /\ abort_tail post.
Proof.
  induction 1 as [| |e0 addr0 a0 rest out Hfix Hrv Hnf Hp IH
                  |e0 addr0 a0 tail Hfix Hbad Htail];
    intros pre e post addr a Heq Hf Hb.
  - destruct pre; discriminate.
  - destruct pre; discriminate.
  - destruct pre as [|x pre]; simpl in Heq; inversion Heq; subst.
    + destruct Hfix as (l1 & p1 & f1 & E1), Hf as (l2 & p2 & f2 & E2).
      rewrite E1 in E2. inversion E2; subst. destruct Hb; congruence.
    + eapply IH; eauto.
  - destruct pre as [|x pre]; simpl in Heq; inversion Heq; subst.
    + split; [reflexivity|exact Htail].
    + exfalso. destruct Htail as (msgs & ap & ak & Ht & Hw).
      destruct Hf as (l2 & p2 & f2 & E2).
      assert (In e (msgs ++ [(F_sys_abort, C_getpid, ap);
                             (F_sys_abort, C_kill (rv ap) SIGABRT, ak)]))
        as Hin.
      { rewrite <- Ht. apply in_or_app. right. now left. }
      apply in_app_or in Hin. destruct Hin as [Hin | [Hin | [Hin | []]]].
      * rewrite Forall_forall in Hw. destruct (Hw e Hin) as (s & a' & Es).
        rewrite Es in E2. discriminate.
      * rewrite <- Hin in E2. discriminate.
      * rewrite <- Hin in E2. discriminate.
Qed.

Lemma app_split_at {A : Type} (P : A -> Prop) (l1 l2 pre post : list A)
    (e : A) :
  Forall P l1 -> ~ P e ->
  l1 ++ l2 = pre ++ e :: post ->
  exists pre', pre = l1 ++ pre' /\ l2 = pre' ++ e :: post.
Proof.
  revert pre. induction l1 as [|x l1 IH]; intros pre Hf Hn Heq.
  - exists pre. split; [reflexivity|exact Heq].
  - inversion Hf; subst. destruct pre as [|y pre]; simpl in Heq.
    + inversion Heq; subst. contradiction.
    + inversion Heq; subst. destruct (IH pre) as (pre' & -> & ->); auto.
      now exists pre'.
Qed.

Lemma remap_prefix_events (e0 : event) (mun : list event) :
  Forall is_munmap mun ->
  Forall (fun e => e = e0 \/ is_munmap e) (e0 :: mun).
Proof.
  intros H. constructor; [now left|].
  eapply Forall_impl; [|exact H]. intros x Hx. now right.
Qed.

Lemma remap_prefix_not_fixed (a0 a : answer) (addr len pr fildes off : Z) :
  let e := (F_remap_segments,
            C_mmap addr len pr (Z.lor MAP_PRIVATE MAP_FIXED) fildes off, a) in
  ~ (e = (F_remap_segments, C_mmap 0 0 0 0 0 0, a0) \/ is_munmap e).
Proof.
  intros e [H | (ad & ln & an & H)]; [|discriminate]. inversion H.
Qed.

(** *** The message of the abort path *)

Lemma write_err_piece (w : world) (s : string) (st : pstate) :
  exists st' e,
    write_err w s st = (st', Returns tt)
    /\ trace st' = trace st ++ [e]
    /\ writes_piece (Lit s) e.
Proof.
  unfold write_err, bind, sys, ret. cbv zeta.
  eexists _, _. split; [reflexivity|]. split; [reflexivity|].
  eexists. reflexivity.
Qed.

Lemma write_err_base_piece (w : world) (val base : Z) (st : pstate) :
  2 <= base <= 16 ->
  0 <= val < WORD ->
  exists st' e,
    write_err_base w val base st = (st', Returns tt)
    /\ trace st' = trace st ++ [e]
    /\ writes_piece (Num base val) e.
Proof.
  intros Hb Hv. unfold write_err_base, write_err, bind, sys, ret.
  cbv zeta. eexists _, _. split; [reflexivity|]. split; [reflexivity|].
  eexists _, _. split; [reflexivity|].
  assert (lsb_value base (digits_lsb 64 val base) = val) as Hl.
  { apply digits_lsb_value; [exact Hb|]. split; [lia|].
    apply Z.lt_le_trans with (2 ^ 64); [exact (proj2 Hv)|].
    apply Z.pow_le_mono_l. lia. }
  destruct (digits_lsb 64 val base) as [|c l] eqn:E.
  - cbn in Hl. subst val. split; [discriminate|reflexivity].
  - split; [|now rewrite digits_value_rev].
    intros H. apply (f_equal list_ascii_of_string) in H.
    rewrite list_ascii_of_string_of_list_ascii in H. cbn [rev] in H.
    destruct (rev l); discriminate.
Qed.

Lemma to_unsigned_word (x : Z) : 0 <= to_unsigned x < WORD.
Proof.
  unfold to_unsigned, WORD. pose proof (Z.mod_pos_bound x (2 ^ 32)). lia.
Qed.

Lemma wrap_word (x : Z) : 0 <= wrap x < WORD.
Proof. unfold wrap. apply Z.mod_pos_bound. unfold WORD. lia. Qed.

Lemma unmapped_abort_scan_pieces (w : world) (n : nat) :
  forall p lit args st,
    (String.length p <= n)%nat ->
    exists st' msgs,
      unmapped_abort_scan w p lit args st = (st', Returns tt)
      /\ trace st' = trace st ++ msgs
      /\ Forall2 writes_piece (message_pieces p lit args) msgs.
Proof.
  assert (forall lit st,
             exists st' msgs,
               write_err w lit st = (st', Returns tt)
               /\ trace st' = trace st ++ msgs
               /\ Forall2 writes_piece [Lit lit] msgs) as Hend.
  { intros lit st. destruct (write_err_piece w lit st) as (st' & e & H & T & P).
    exists st', [e]. repeat split; auto. }
  induction n as [|n IH]; intros p lit args st Hn.
  - destruct p; [|simpl in Hn; lia]. apply Hend.
  - destruct p as [|c rest]; [apply Hend|].
    simpl in Hn. cbn [unmapped_abort_scan message_pieces].
    destruct (Ascii.eqb c "%") eqn:Ec; [|apply IH; lia].
    destruct (write_err_piece w lit st) as (st1 & e1 & H1 & T1 & P1).
    rewrite (bind_returns _ _ _ _ _ H1).
    assert (forall p' args',
               (String.length p' <= n)%nat ->
               exists st' msgs,
                 unmapped_abort_scan w p' EmptyString args' st1
                 = (st', Returns tt)
                 /\ trace st' = trace st ++ msgs
                 /\ Forall2 writes_piece
                      (Lit lit :: message_pieces p' EmptyString args') msgs)
      as IH1.
    { intros p' args' Hp.
      destruct (IH p' EmptyString args' st1 Hp) as (st2 & m2 & H2 & T2 & P2).
      exists st2, (e1 :: m2). split; [exact H2|]. split.
      - rewrite T2, T1, <- app_assoc. reflexivity.
      - now constructor. }
    destruct rest as [|c' rest']; [apply IH1; simpl; lia|].
    simpl in Hn.
    assert (forall val base args',
               2 <= base <= 16 -> 0 <= val < WORD ->
               exists st' msgs,
                 (write_err_base w val base ;;;
                  unmapped_abort_scan w rest' EmptyString args') st1
                 = (st', Returns tt)
                 /\ trace st' = trace st ++ msgs
                 /\ Forall2 writes_piece
                      (Lit lit :: Num base val
                       :: message_pieces rest' EmptyString args') msgs)
      as Hconv.
    { intros val base args' Hb Hv.
      destruct (write_err_base_piece w val base st1 Hb Hv)
        as (st2 & e2 & H2 & T2 & P2).
      rewrite (bind_returns _ _ _ _ _ H2).
      destruct (IH rest' EmptyString args' st2) as (st3 & m3 & H3 & T3 & P3);
        [lia|].
      exists st3, (e1 :: e2 :: m3). split; [exact H3|]. split.
      - rewrite T3, T2, T1, <- !app_assoc. reflexivity.
      - now repeat constructor. }
    destruct (Ascii.eqb c' "u").
    { destruct (next_arg args) as [val args'].
      apply Hconv; [lia|apply to_unsigned_word]. }
    destruct (Ascii.eqb c' "p").
    { destruct (next_arg args) as [val args'].
      apply Hconv; [lia|apply wrap_word]. }
    apply IH1. simpl. lia.
Qed.

(** [unmapped_abort] writes its message piece by piece and then signals
    the process. *)
Lemma unmapped_abort_message (w : world) (fmt : string) (args : list Z)
    (st : pstate) :
  exists st' evs,
    unmapped_abort w fmt args st = (st', Killed SIGABRT)
    /\ trace st' = trace st ++ evs
    /\ abort_message (message_pieces fmt EmptyString args) evs.
Proof.
  unfold unmapped_abort.
  destruct (unmapped_abort_scan_pieces w (String.length fmt) fmt EmptyString
              args st (le_n _)) as (st1 & msgs & H1 & Ht & Hw).
  rewrite (bind_returns _ _ _ _ _ H1).
  unfold sys_abort, bind, sys, sys_kill. cbv zeta. cbn [trace errno rv].
  eexists _, _. split; [reflexivity|]. cbn [trace]. split.
  - rewrite Ht, <- !app_assoc. cbn [app]. reflexivity.
  - eexists msgs, _, _. split; [reflexivity|exact Hw].
Qed.

Lemma writes_piece_is_write (p : piece) (e : event) :
  writes_piece p e -> is_write e.
Proof.
  destruct p as [s | b v]; cbn.
  - intros (a & ->). eexists _, _. reflexivity.
  - intros (s & a & -> & _). eexists _, _. reflexivity.
Qed.

Lemma abort_message_tail (ps : list piece) (evs : list event) :
  abort_message ps evs -> abort_tail evs.
Proof.
  intros (msgs & ap & ak & -> & Hw). exists msgs, ap, ak.
  split; [reflexivity|].
  induction Hw; constructor; eauto using writes_piece_is_write.
Qed.

Lemma abort_tail_not_remap (evs : list event) (e : event) (c : call)
    (a : answer) :
  abort_tail evs -> In e evs -> e <> (F_remap_segments, c, a).
Proof.
  intros (msgs & ap & ak & -> & Hw) Hin Heq. subst e.
  apply in_app_or in Hin. destruct Hin as [Hin | [Hin | [Hin | []]]];
    try discriminate.
  rewrite Forall_forall in Hw. destruct (Hw _ Hin) as (s & a' & Es).
  discriminate.
Qed.

(** One round of the remapping loop: the mapping lands where it is asked,
    or the process dies with the message for that segment. *)
Lemma remap_map_message (w : world) (i : Z) (s : seg_info) (st : pstate) :
  let mapsize := ALIGN (memsz s) (gethugepagesize w) in
  let c := C_mmap (vaddr s) mapsize (prot s) (Z.lor MAP_PRIVATE MAP_FIXED)
                  (fd s) 0 in
  let a := oracle w (List.length (trace st)) c in
  let en := match err a with Some x => x | None => errno st end in
  (rv a = vaddr s /\ rv a <> MAP_FAILED
   /\ remap_map w i s st
      = (mkPstate (trace st ++ [(F_remap_segments, c, a)]) en, Returns tt))
  \/ ((rv a = MAP_FAILED \/ rv a <> vaddr s)
      /\ exists st' tail,
          remap_map w i s st = (st', Killed SIGABRT)
          /\ trace st' = trace st ++ (F_remap_segments, c, a) :: tail
          /\ abort_message
               (remap_text i (vaddr s) (ptr_add (vaddr s) mapsize) en (rv a))
               tail).
Proof.
  intros mapsize c a en. unfold remap_map. cbv zeta.
  fold mapsize. fold c.
  set (st1 := mkPstate (trace st ++ [(F_remap_segments, c, a)]) en).
  assert (sys w F_remap_segments c st = (st1, Returns a)) as Hs
    by reflexivity.
  rewrite (bind_returns _ _ _ _ _ Hs).
  assert (get_errno st1 = (st1, Returns en)) as He by reflexivity.
  rewrite (bind_returns _ _ _ _ _ He).
  unfold remap_text.
  destruct (rv a =? MAP_FAILED) eqn:E1.
  - apply Z.eqb_eq in E1. cbn [when]. right. split; [now left|].
    match goal with
    | |- context [unmapped_abort w ?f ?args] =>
        destruct (unmapped_abort_message w f args st1)
          as (st2 & evs & Hk & Ht & Ha)
    end.
    exists st2, evs. rewrite (bind_killed _ _ _ _ _ Hk).
    split; [reflexivity|]. split; [|exact Ha].
    rewrite Ht. subst st1. cbn [trace]. now rewrite <- app_assoc.
  - apply Z.eqb_neq in E1. cbn [when].
    assert (ret tt st1 = (st1, Returns tt)) as Hr by reflexivity.
    rewrite (bind_returns _ _ _ _ _ Hr).
    destruct (rv a =? vaddr s) eqn:E2.
    + apply Z.eqb_eq in E2. cbn [negb when]. left. repeat split; auto.
    + apply Z.eqb_neq in E2. cbn [negb when]. right. split; [now right|].
      match goal with
      | |- context [unmapped_abort w ?f ?args] =>
          destruct (unmapped_abort_message w f args st1)
            as (st2 & evs & Hk & Ht & Ha)
      end.
      exists st2, evs. split; [exact Hk|]. split; [|exact Ha].
      rewrite Ht. subst st1. cbn [trace]. now rewrite <- app_assoc.
Qed.

Lemma for_segs_map_grows (w : world) (seg : list seg_info) (n : nat) (i : Z)
    (st st' : pstate) (out : outcome unit) :
  for_segs n i seg (remap_map w) st = (st', out) ->
  exists evs, trace st' = trace st ++ evs.
Proof.
  intros Hrun.
  destruct (for_segs_map_phase w seg n i st) as (st2 & out2 & evs & H & Ht & _).
  rewrite Hrun in H. inversion H; subst. now exists evs.
Qed.

(** In the remapping loop, the mapping that failed or landed elsewhere
    belongs to a segment of the table, and what follows it is the message
    for that segment and the signal. *)
Lemma for_segs_map_bad (w : world) (seg : list seg_info) (n : nat) :
  forall i st st' out pre post addr len pr fildes a,
    for_segs n i seg (remap_map w) st = (st', out) ->
    trace st'
    = trace st
      ++ pre
      ++ (F_remap_segments,
          C_mmap addr len pr (Z.lor MAP_PRIVATE MAP_FIXED) fildes 0, a)
         :: post ->
    rv a = MAP_FAILED \/ rv a <> addr ->
    out = Killed SIGABRT
    /\ exists j s e,
        i <= j < i + Z.of_nat n
        /\ nth_z seg j = Some s
        /\ addr = vaddr s
        /\ len = ALIGN (memsz s) (gethugepagesize w)
        /\ (forall x, err a = Some x -> e = x)
        /\ abort_message (remap_text j addr (ptr_add addr len) e (rv a)) post.
Proof.
  induction n as [|n IH];
    intros i st st' out pre post addr len pr fildes a Hrun Htr Hbad;
    cbn [for_segs] in Hrun.
  - inversion Hrun; subst. exfalso.
    rewrite <- (app_nil_r (trace st')) in Htr at 1.
    apply app_inv_head in Htr. destruct pre; discriminate.
  - destruct (nth_z seg i) as [s|] eqn:Es.
    2:{ inversion Hrun; subst. exfalso.
        rewrite <- (app_nil_r (trace st')) in Htr at 1.
        apply app_inv_head in Htr. destruct pre; discriminate. }
    destruct (remap_map_message w i s st)
      as [(Hrv & Hnf & Hm) | (Hb & st1 & tail & Hm & Ht & Ha)].
    + rewrite (bind_returns _ _ _ _ _ Hm) in Hrun.
      destruct pre as [|x pre].
      * exfalso.
        destruct (for_segs_map_grows _ _ _ _ _ _ _ Hrun) as (more & Hmore).
        cbn [trace] in Hmore. rewrite Hmore, <- app_assoc in Htr.
        apply app_inv_head in Htr. cbn [app] in Htr.
        inversion Htr; subst. destruct Hbad; congruence.
      * destruct (for_segs_map_grows _ _ _ _ _ _ _ Hrun) as (more & Hmore).
        cbn [trace] in Hmore.
        assert (Htr' := Htr). rewrite Hmore, <- app_assoc in Htr'.
        apply app_inv_head in Htr'. cbn [app] in Htr'.
        inversion Htr' as [[Hx Hrest]].
        destruct (IH (i + 1) _ st' out pre post addr len pr fildes a Hrun)
          as (Hout & j & s' & e & Hj & Hrest');
          [|exact Hbad|].
        { cbn [trace]. rewrite Htr, <- !app_assoc. cbn [app].
          rewrite <- Hx. reflexivity. }
        split; [exact Hout|]. exists j, s', e. split; [lia|exact Hrest'].
    + rewrite (bind_killed _ _ _ _ _ Hm) in Hrun. inversion Hrun; subst.
      rewrite Ht in Htr. apply app_inv_head in Htr.
      destruct pre as [|x pre]; cbn [app] in Htr.
      * inversion Htr; subst. split; [reflexivity|].
        eexists i, s, _.
        split; [lia|]. split; [exact Es|]. split; [reflexivity|].
        split; [reflexivity|]. split; [|exact Ha].
        intros x Hx.
        exact (eq_ind_r (x := Some x)
                 (fun o => match o with Some y => y | None => errno st end
                           = x) eq_refl Hx).
      * exfalso. inversion Htr as [[Hx Htail]].
        apply (abort_tail_not_remap tail
                 (F_remap_segments,
                  C_mmap addr len pr (Z.lor MAP_PRIVATE MAP_FIXED) fildes 0,
                  a)
                 (C_mmap addr len pr (Z.lor MAP_PRIVATE MAP_FIXED) fildes 0)
                 a (abort_message_tail _ _ Ha)); [|reflexivity].
        rewrite Htail. apply in_or_app. right. now left.
Qed.

(** C3: in [remap_segments], a fixed-address mapping that fails or lands
    at another address than the segment's belongs to a segment [i] of the
    table and is followed only by the abort path: the raw writes to the
    standard error stream that spell the message for that segment (its
    number, its range and [errno] after a failure, or the address the
    mapping landed at), then [getpid] and the SIGABRT the process sends
    itself.  The process is killed, [remap_segments] does not return, and
    no further mapping or unmapping is issued. *)
Theorem remap_failure_aborts (w : world) (seg : list seg_info) (num : Z)
    (st st' : pstate) (out : outcome unit)
    (pre post : list event) (addr len pr fildes : Z) (a : answer) :
  remap_segments w seg num st = (st', out) ->
  trace st'
  = trace st
    ++ pre
    ++ (F_remap_segments,
        C_mmap addr len pr (Z.lor MAP_PRIVATE MAP_FIXED) fildes 0, a)
       :: post ->
  rv a = MAP_FAILED \/ rv a <> addr ->
  out = Killed SIGABRT
  /\ abort_tail post
  /\ exists i s e,
      0 <= i < num
      /\ nth_z seg i = Some s
      /\ addr = vaddr s
      /\ len = ALIGN (memsz s) (gethugepagesize w)
      /\ (forall x, err a = Some x -> e = x)
      /\ abort_message
           (if rv a =? MAP_FAILED
            then map_failed_text i addr (ptr_add addr len) e
            else wrong_address_text i addr (ptr_add addr len) (rv a))
           post.
Proof.
  intros Hrun Htr Hbad. unfold remap_segments in Hrun.
  set (c0 := C_mmap 0 0 0 0 0 0) in Hrun.
  set (a0 := oracle w (List.length (trace st)) c0).
  set (st0 := mkPstate (trace st ++ [(F_remap_segments, c0, a0)])
                (match err a0 with Some e => e | None => errno st end)).
  assert (sys w F_remap_segments c0 st = (st0, Returns a0)) as H0
    by reflexivity.
  rewrite (bind_returns _ _ _ _ _ H0) in Hrun.
  destruct (for_segs_unmap w seg (Z.to_nat num) 0 st0)
    as (st1 & mun & Ht1 & Hmun & [Hu | Hu]).
  - rewrite (bind_returns _ _ _ _ _ Hu) in Hrun.
    destruct (for_segs_map_grows _ _ _ _ _ _ _ Hrun) as (evs & Ht2).
    rewrite Ht2, Ht1 in Htr. subst st0. cbn [trace] in Htr.
    rewrite <- !app_assoc in Htr. apply app_inv_head in Htr.
    change ([(F_remap_segments, c0, a0)] ++ mun ++ evs)
      with (((F_remap_segments, c0, a0) :: mun) ++ evs) in Htr.
    destruct (app_split_at
                (fun e => e = (F_remap_segments, c0, a0) \/ is_munmap e)
                _ _ _ _ _ (remap_prefix_events _ _ Hmun)
                (remap_prefix_not_fixed _ _ _ _ _ _ _) Htr)
      as (pre' & _ & Hevs).
    rewrite Hevs in Ht2.
    destruct (for_segs_map_bad w seg (Z.to_nat num) 0 st1 st' out pre' post
                addr len pr fildes a Hrun Ht2 Hbad)
      as (Hout & i & s & e & Hi & Hs & Ha & Hl & He & Hm).
    split; [exact Hout|]. split; [exact (abort_message_tail _ _ Hm)|].
    exists i, s, e. repeat (split; [first [lia | assumption]|]).
    exact Hm.
  - unfold bind in Hrun at 1. rewrite Hu in Hrun. inversion Hrun; subst.
    exfalso. rewrite Ht1 in Htr. subst st0. cbn [trace] in Htr.
    rewrite <- !app_assoc in Htr. apply app_inv_head in Htr.
    rewrite <- (app_nil_r mun) in Htr.
    change ([(F_remap_segments, c0, a0)] ++ mun ++ [])
      with (((F_remap_segments, c0, a0) :: mun) ++ []) in Htr.
    destruct (app_split_at
                (fun e => e = (F_remap_segments, c0, a0) \/ is_munmap e)
                _ _ _ _ _ (remap_prefix_events _ _ Hmun)
                (remap_prefix_not_fixed _ _ _ _ _ _ _) Htr)
      as (pre' & _ & Hevs).
    destruct pre'; discriminate.
Qed.

Lemma remap_failure_aborts_witness :
  snd (remap_segments world_wrong_address segs_two 2 pstate0)
  = Killed SIGABRT
  /\ abort_tail
       (skipn 5
          (trace (fst (remap_segments world_wrong_address segs_two 2
                                      pstate0))))
  /\ exists i s e,
      0 <= i < 2
      /\ nth_z segs_two i = Some s
      /\ 8388608 = vaddr s
      /\ 2097152 = ALIGN (memsz s) (gethugepagesize world_wrong_address)
      /\ (forall x, err (ans 10485760) = Some x -> e = x)
      /\ abort_message
           (if rv (ans 10485760) =? MAP_FAILED
            then map_failed_text i 8388608 (ptr_add 8388608 2097152) e
            else wrong_address_text i 8388608 (ptr_add 8388608 2097152)
                                    (rv (ans 10485760)))
           (skipn 5
              (trace (fst (remap_segments world_wrong_address segs_two 2
                                          pstate0)))).
Proof.
  apply (remap_failure_aborts world_wrong_address segs_two 2 pstate0
           (fst (remap_segments world_wrong_address segs_two 2 pstate0))
           (snd (remap_segments world_wrong_address segs_two 2 pstate0))
           (firstn 4
              (trace (fst (remap_segments world_wrong_address segs_two 2
                                          pstate0))))
           (skipn 5
              (trace (fst (remap_segments world_wrong_address segs_two 2
                                          pstate0))))
           8388608 2097152 3 8 (ans 10485760)).
  - apply surjective_pairing.
  - vm_compute. reflexivity.
  - right. vm_compute. discriminate.
Defined.

(** What the process writes before it dies in that run. *)
Example wrong_address_message :
  concat EmptyString
    (map (fun e : event =>
            match snd (fst e) with C_write _ s => s | _ => EmptyString end)
         (trace (fst (remap_segments world_wrong_address segs_two 2
                                     pstate0))))
  = ("Mapped hugepage segment 1 (800000-a00000) at wrong address a00000"
     ++ newline)%string.
Proof. vm_compute. reflexivity. Qed.

(** ** find_or_prepare_shared_file: cleanup after a failed preparation *)

(** C8 (the code departs from it): when the exclusive create returns
    descriptor 0 (the process was started with its standard input closed)
    and the materializer fails, [find_or_prepare_shared_file] reports the
    failure but neither unlinks the temporary file nor closes the
    descriptor: the test at [fail] is [fdx > 0], while the preparer branch
    is entered on [fdx >= 0]. *)
Theorem shared_file_fd0_no_cleanup :
  snd (find_or_prepare_shared_file (world_prepare_fails 0) 1 share_dir
         seg_text pstate0)
  = Returns (-1, set_fd seg_text 0)
  /\ calls_of (fst (find_or_prepare_shared_file (world_prepare_fails 0) 1
                      share_dir seg_text pstate0))
     = [C_readlink "/proc/self/exe" PATH_MAX;
        C_open tmp_name (Z.lor (Z.lor O_CREAT O_EXCL) O_RDWR) 438;
        C_open final_name O_RDONLY 0;
        C_mmap 0 2097152 (Z.lor PROT_READ PROT_WRITE) MAP_SHARED 0 0].
Proof. split; vm_compute; reflexivity. Qed.

(** The same run with descriptor 5: the temporary file is unlinked and the
    descriptor closed. *)
Example shared_file_fd5_cleanup :
  snd (find_or_prepare_shared_file (world_prepare_fails 5) 1 share_dir
         seg_text pstate0)
  = Returns (-1, set_fd seg_text 5)
  /\ calls_of (fst (find_or_prepare_shared_file (world_prepare_fails 5) 1
                      share_dir seg_text pstate0))
     = [C_readlink "/proc/self/exe" PATH_MAX;
        C_open tmp_name (Z.lor (Z.lor O_CREAT O_EXCL) O_RDWR) 438;
        C_open final_name O_RDONLY 0;
        C_mmap 0 2097152 (Z.lor PROT_READ PROT_WRITE) MAP_SHARED 5 0;
        C_unlink tmp_name;
        C_close 5].
Proof. split; vm_compute; reflexivity. Qed.

(** ** find_or_create_share_path *)

(** C9 (amended): a share path that [find_or_create_share_path] accepts
    was validated as follows.  An explicit HUGETLB_SHARE_PATH is only
    tested to be on a hugetlbfs filesystem; it is taken as it is, without
    a look at its owner or its permissions.  The default directory
    [<hugetlbfs>/elflink-uid-<uid>], with the user id printed by [%d] as
    an [int], is created with mode 0700 if absent and must be a directory
    owned by the current user that neither group nor others may write.  When the function rejects the path,
    [setup_elflink] returns at once: no segment is prepared and the
    address space is left alone. *)
Theorem share_path_validation (w : world) (old : string) (st st' : pstate)
    (r : Z) (sp : string) :
  find_or_create_share_path w old st = (st', Returns (r, sp)) ->
  (r = 0 ->
   match getenv w "HUGETLB_SHARE_PATH" with
   | Some env => sp = env /\ hugetlbfs_test_path w env = 0 /\ st' = st
   | None => sp = share_path_default w /\ share_dir_checked w st st' sp
   end)
  /\ (r <> 0 ->
      forall fuel g tbl num,
        old = EmptyString -> st = pstate0 ->
        reaches_share_step w g tbl num ->
        setup_elflink w fuel pstate0 = (st', Returns tt)).
Proof.
  intros Hrun. split.
  - intros ->. unfold find_or_create_share_path in Hrun.
    destruct (getenv w "HUGETLB_SHARE_PATH") as [env|].
    + destruct (hugetlbfs_test_path w env =? 0) eqn:E; cbn [negb] in Hrun.
      * unfold assemble_path, bind, ret, libc_abort in Hrun.
        destruct (strlen env >? PATH_MAX); [discriminate|].
        inversion Hrun; subst. apply Z.eqb_eq in E. auto.
      * inversion Hrun.
    + fold (share_path_default w) in Hrun.
      unfold assemble_path, bind, ret, libc_abort, sys, get_errno in Hrun.
      cbv zeta in Hrun.
      destruct (strlen (share_path_default w) >? PATH_MAX); [discriminate|].
      cbn [trace errno] in Hrun.
      set (d := share_path_default w) in *.
      set (am := oracle w (List.length (trace st)) (C_mkdir d 448)) in *.
      destruct (negb (rv am =? 0)
                && negb (match err am with Some e => e | None => errno st end
                         =? EEXIST)) eqn:E1;
        [inversion Hrun|].
      set (al := oracle w _ (C_lstat d)) in *.
      destruct (negb (rv al =? 0)) eqn:E2; [inversion Hrun|].
      destruct (negb (S_ISDIR (a_mode al))) eqn:E3; [inversion Hrun|].
      destruct (negb (a_uid al =? getuid w)) eqn:E4; [inversion Hrun|].
      destruct (negb (Z.land (a_mode al) (Z.lor S_IWGRP S_IWOTH) =? 0)) eqn:E5;
        [inversion Hrun|].
      inversion Hrun; subst. split; [reflexivity|].
      exists am, al. cbn [trace]. rewrite <- app_assoc. cbn [app].
      split; [reflexivity|].
      apply negb_false_iff in E2, E3, E4, E5.
      apply Z.eqb_eq in E2, E4, E5.
      apply andb_false_iff in E1.
      repeat split; auto.
      destruct E1 as [E1 | E1]; apply negb_false_iff, Z.eqb_eq in E1; auto.
  - intros Hr fuel g tbl num -> -> (img & He & Hc & Hs & Hp & Hn).
    unfold setup_elflink. rewrite He, Hc. cbn [negb Z.eqb]. rewrite Hp.
    replace (num =? 0) with false by (symmetry; now apply Z.eqb_neq).
    replace (sharing g =? 0) with false by (symmetry; now apply Z.eqb_neq).
    cbn [negb]. rewrite (bind_returns _ _ _ _ _ Hrun). cbn [fst].
    replace (r =? 0) with false by (symmetry; now apply Z.eqb_neq).
    reflexivity.
Qed.

Lemma share_path_validation_witness :
  setup_elflink (world_foreign_dir None) 1 pstate0
  = (fst (find_or_create_share_path (world_foreign_dir None) EmptyString
            pstate0),
     Returns tt)
  /\ calls_of (fst (find_or_create_share_path (world_foreign_dir None)
                      EmptyString pstate0))
     = [C_mkdir share_dir 448; C_lstat share_dir].
Proof.
  split; [|vm_compute; reflexivity].
  apply (proj2 (share_path_validation (world_foreign_dir None) EmptyString
                  pstate0
                  (fst (find_or_create_share_path (world_foreign_dir None)
                          EmptyString pstate0))
                  (-1) share_dir ltac:(vm_compute; reflexivity))
               ltac:(discriminate) 1%nat
               (mkFlags true 1 false)
               [mkSeg 4194304 0 8192 8192 0 5 0 0; seg_zero] 1
               eq_refl eq_refl).
  exists img_one. repeat split; try (vm_compute; reflexivity); discriminate.
Defined.

(** C9 as stated fails for an explicit HUGETLB_SHARE_PATH: the directory
    belongs to another user and everyone may write it, yet
    [find_or_create_share_path] accepts it without a single call. *)
Lemma share_path_override_counterexample :
  find_or_create_share_path (world_foreign_dir (Some "/mnt/huge/pub"%string))
                            EmptyString pstate0
  = (pstate0, Returns (0, "/mnt/huge/pub"%string))
  /\ a_uid (oracle_foreign_dir 0 (C_lstat "/mnt/huge/pub"))
     <> getuid (world_foreign_dir (Some "/mnt/huge/pub"%string))
  /\ Z.land (a_mode (oracle_foreign_dir 0 (C_lstat "/mnt/huge/pub")))
            (Z.lor S_IWGRP S_IWOTH) <> 0.
Proof.
  split; [reflexivity|]. split; vm_compute; discriminate.
Qed.

(** ** setup_elflink: preparation before remapping *)

Lemma quiet_ret {A : Type} (a : A) : quiet (ret a).
Proof. intros st. exists []. split; [now rewrite app_nil_r|constructor]. Qed.

Lemma quiet_fault {A : Type} : quiet (@fault A).
Proof. intros st. exists []. split; [now rewrite app_nil_r|constructor]. Qed.

Lemma quiet_waiting {A : Type} : quiet (fun st => (st, @Waiting A)).
Proof. intros st. exists []. split; [now rewrite app_nil_r|constructor]. Qed.

Lemma quiet_get_errno : quiet get_errno.
Proof. intros st. exists []. split; [now rewrite app_nil_r|constructor]. Qed.

Lemma quiet_bind {A B : Type} (m : M A) (k : A -> M B) :
  quiet m -> (forall a, quiet (k a)) -> quiet (bind m k).
Proof.
  intros Hm Hk st. unfold bind. destruct (Hm st) as (e1 & H1 & F1).
  destruct (m st) as [st1 [a| s | |]]; cbn [fst] in *;
    try (exists e1; split; assumption).
  destruct (Hk a st1) as (e2 & H2 & F2). exists (e1 ++ e2). split.
  - now rewrite H2, H1, app_assoc.
  - now apply Forall_app.
Qed.

Lemma quiet_sys (w : world) (f : func) (c : call) :
  f <> F_remap_segments -> quiet (sys w f c).
Proof.
  intros Hf st. eexists [_]. split; [reflexivity|].
  constructor; [exact Hf|constructor].
Qed.

Lemma quiet_libc_abort {A : Type} (w : world) (f : func) :
  f <> F_remap_segments -> quiet (@libc_abort w A f).
Proof.
  intros Hf st. eexists [_]. split; [reflexivity|].
  constructor; [exact Hf|constructor].
Qed.

Lemma quiet_when (b : bool) (m : M unit) : quiet m -> quiet (when b m).
Proof. intros H. destruct b; [exact H|apply quiet_ret]. Qed.

Create HintDb quiet.

#[local] Hint Resolve quiet_ret quiet_fault quiet_waiting quiet_get_errno
  quiet_when : quiet.
#[local] Hint Extern 1 (quiet (sys _ _ _)) =>
  apply quiet_sys; discriminate : quiet.
#[local] Hint Extern 1 (quiet (libc_abort _ _)) =>
  apply quiet_libc_abort; discriminate : quiet.
#[local] Hint Extern 2 (quiet (bind _ _)) =>
  apply quiet_bind; [|intros ?] : quiet.
#[local] Hint Extern 3 (quiet (if ?b then _ else _)) => destruct b : quiet.
#[local] Hint Extern 3 (quiet (let (_, _) := ?p in _)) => destruct p : quiet.

Section Quiet.

Variable w : world.

Lemma quiet_assemble_path (s : string) : quiet (assemble_path w s).
Proof. unfold assemble_path. auto with quiet. Qed.

Lemma quiet_find_or_create_share_path (old : string) :
  quiet (find_or_create_share_path w old).
Proof.
  unfold find_or_create_share_path.
  pose proof quiet_assemble_path.
  destruct (getenv w "HUGETLB_SHARE_PATH"); auto 20 with quiet.
Qed.

Lemma quiet_prepare_segment (seg : seg_info) : quiet (prepare_segment w seg).
Proof. unfold prepare_segment. cbv zeta. auto 20 with quiet. Qed.

Lemma quiet_shared_file_fail (tmp : string) (fdx fds : Z) :
  quiet (shared_file_fail w tmp fdx fds).
Proof. unfold shared_file_fail. auto 20 with quiet. Qed.

Lemma quiet_shared_file_loop (fuel : nat) (final tmp : string)
    (seg : seg_info) :
  quiet (shared_file_loop w fuel final tmp seg).
Proof.
  pose proof quiet_prepare_segment. pose proof quiet_shared_file_fail.
  induction fuel as [|fuel IH]; cbn [shared_file_loop]; cbv zeta;
    auto 30 with quiet.
Qed.

Lemma quiet_get_shared_file_name (sp : string) (seg : seg_info) :
  quiet (get_shared_file_name w sp seg).
Proof.
  pose proof quiet_assemble_path.
  unfold get_shared_file_name. cbv zeta. auto 20 with quiet.
Qed.

Lemma quiet_find_or_prepare_shared_file (fuel : nat) (sp : string)
    (seg : seg_info) :
  quiet (find_or_prepare_shared_file w fuel sp seg).
Proof.
  pose proof quiet_assemble_path. pose proof quiet_get_shared_file_name.
  pose proof quiet_shared_file_loop.
  unfold find_or_prepare_shared_file. auto 20 with quiet.
Qed.

Lemma quiet_obtain_prepared_file (fuel : nat) (sh : Z) (sp : string)
    (seg : seg_info) :
  quiet (obtain_prepared_file w fuel sh sp seg).
Proof.
  pose proof quiet_find_or_prepare_shared_file.
  pose proof quiet_prepare_segment.
  unfold obtain_prepared_file. cbv zeta. auto 30 with quiet.
Qed.

Lemma quiet_obtain_all (fuel : nat) (g : flags) (sp : string) (n : nat) :
  forall i tbl, quiet (obtain_all w fuel g sp n i tbl).
Proof.
  pose proof quiet_obtain_prepared_file.
  induction n as [|n IH]; intros i tbl; cbn [obtain_all]; cbv zeta.
  - auto with quiet.
  - destruct (nth_z tbl i); auto 20 with quiet.
Qed.

End Quiet.

Lemma backing_ready_mono (tr more : list event) (s : seg_info) :
  backing_ready tr s -> backing_ready (tr ++ more) s.
Proof.
  intros (Hfd & [(p & a & Hin & Hrv) | (len & a & a' & H1 & Hnf & H2)]);
    (split; [exact Hfd|]).
  - left. exists p, a. split; [apply in_or_app; now left|exact Hrv].
  - right. exists len, a, a'.
    repeat split; try (apply in_or_app; now left); exact Hnf.
Qed.

Lemma bind_inv {A B : Type} (m : M A) (k : A -> M B) (st st' : pstate)
    (b : B) :
  bind m k st = (st', Returns b) ->
  exists st1 a, m st = (st1, Returns a) /\ k a st1 = (st', Returns b).
Proof.
  unfold bind. destruct (m st) as [st1 [a| s | |]]; try discriminate.
  intros H. now exists st1, a.
Qed.

Lemma run_grows {A : Type} (m : M A) (st st' : pstate) (o : outcome A) :
  quiet m -> m st = (st', o) ->
  exists evs, trace st' = trace st ++ evs /\ Forall not_remap evs.
Proof. intros Hq H. specialize (Hq st). now rewrite H in Hq. Qed.

Lemma backing_ready_run {A : Type} (m : M A) (st st' : pstate)
    (o : outcome A) (s : seg_info) :
  quiet m -> m st = (st', o) ->
  backing_ready (trace st) s -> backing_ready (trace st') s.
Proof.
  intros Hq H Hb. destruct (run_grows m st st' o Hq H) as (evs & -> & _).
  now apply backing_ready_mono.
Qed.

Lemma set_nth_same {A : Type} (n : nat) (l : list A) (y : A) :
  (n < List.length l)%nat -> nth_error (set_nth n l y) n = Some y.
Proof.
  revert n. induction l as [|h t IH]; intros [|n] H; simpl in *;
    try lia; [reflexivity|apply IH; lia].
Qed.

Lemma set_nth_other {A : Type} (n m : nat) (l : list A) (y : A) :
  n <> m -> nth_error (set_nth n l y) m = nth_error l m.
Proof.
  revert n m. induction l as [|h t IH]; intros [|n] [|m] H; simpl;
    try reflexivity; try congruence. apply IH. congruence.
Qed.

Lemma nth_z_set_same {A : Type} (l : list A) (i : Z) (x y : A) :
  nth_z l i = Some x -> nth_z (set_nth_z l i y) i = Some y.
Proof.
  intros H. pose proof (nth_z_Some l i x H) as Hr.
  unfold nth_z, set_nth_z.
  replace (i <? 0) with false by (symmetry; apply Z.ltb_ge; lia).
  apply set_nth_same. lia.
Qed.

Lemma nth_z_set_other {A : Type} (l : list A) (i j : Z) (y : A) :
  0 <= i -> i <> j -> nth_z (set_nth_z l i y) j = nth_z l j.
Proof.
  intros Hi H. unfold nth_z, set_nth_z.
  replace (i <? 0) with false by (symmetry; apply Z.ltb_ge; lia).
  destruct (j <? 0) eqn:E; [reflexivity|]. apply Z.ltb_ge in E.
  apply set_nth_other. lia.
Qed.

Section Prepared.

Variable w : world.

Lemma sys_run (f : func) (c : call) (st st1 : pstate) (a : answer) :
  sys w f c st = (st1, Returns a) -> trace st1 = trace st ++ [(f, c, a)].
Proof. unfold sys. intros H. inversion H; subst. reflexivity. Qed.

Lemma prepare_segment_ready (s : seg_info) (st st' : pstate) (r : Z) :
  prepare_segment w s st = (st', Returns r) ->
  (r <? 0) = false -> 0 <= fd s -> backing_ready (trace st') s.
Proof.
  unfold prepare_segment. cbv zeta. intros H Hr Hfd.
  apply bind_inv in H as (st1 & a & H1 & H). apply sys_run in H1.
  destruct (rv a =? MAP_FAILED) eqn:E.
  - inversion H; subst. discriminate.
  - apply Z.eqb_neq in E.
    apply bind_inv in H as (st2 & a2 & H2 & H).
    apply bind_inv in H as (st3 & [] & H3 & H).
    apply bind_inv in H as (st4 & a4 & H4 & H). apply sys_run in H4.
    inversion H; subst.
    assert (exists evs, trace st3 = trace st1 ++ evs) as (evs & Hev).
    { destruct (run_grows _ _ _ _ (quiet_sys w F_prepare_segment _
                  ltac:(discriminate)) H2) as (e2 & G2 & _).
      assert (quiet (when (negb (extra_vaddr s =? 0))
                (sys w F_prepare_segment
                   (C_memcpy
                      (wrap (rv a + filesz s
                             + ptr_diff (extra_vaddr s)
                                        (ptr_add (vaddr s) (filesz s))))
                      (extra_vaddr s) (extrasz s)) ;;; ret tt))) as Hq
        by auto 10 with quiet.
      destruct (run_grows _ _ _ _ Hq H3) as (e3 & G3 & _).
      exists (e2 ++ e3). now rewrite G3, G2, app_assoc. }
    split; [exact Hfd|]. right. eexists _, a, a4.
    rewrite H4, Hev, H1. repeat split.
    + apply in_or_app. left. apply in_or_app. left. apply in_or_app.
      right. now left.
    + exact E.
    + apply in_or_app. right. now left.
Qed.

Lemma shared_file_fail_returns (tmp : string) (fdx fds : Z)
    (st st' : pstate) (r : Z) :
  shared_file_fail w tmp fdx fds st = (st', Returns r) -> r = -1.
Proof.
  unfold shared_file_fail. intros H.
  apply bind_inv in H as (st1 & [] & _ & H).
  apply bind_inv in H as (st2 & [] & _ & H).
  now inversion H.
Qed.

Lemma shared_file_loop_ready (final tmp : string) (seg : seg_info)
    (fuel : nat) :
  forall st st' r s',
    shared_file_loop w fuel final tmp seg st = (st', Returns (r, s')) ->
    r = 0 -> backing_ready (trace st') s'.
Proof.
  induction fuel as [|fuel IH]; intros st st' r s' H Hr;
    cbn [shared_file_loop] in H; [discriminate|].
  cbv zeta in H.
  apply bind_inv in H as (st1 & rx & H1 & H).
  apply bind_inv in H as (st2 & rs & H2 & H).
  apply sys_run in H2.
  destruct (rv rs >=? 0) eqn:Es.
  - apply bind_inv in H as (st3 & [] & H3 & H). inversion H; subst.
    eapply backing_ready_run; [|exact H3|]; [auto 10 with quiet|].
    rewrite Z.geb_leb in Es. apply Z.leb_le in Es.
    split; [exact Es|]. left. exists final, rs.
    split; [|reflexivity]. rewrite H2. apply in_or_app. right. now left.
  - destruct (rv rx >=? 0) eqn:Ex.
    + rewrite Z.geb_leb in Ex. apply Z.leb_le in Ex.
      apply bind_inv in H as (st3 & rp & H3 & H).
      destruct (rp <? 0) eqn:Ep.
      * apply bind_inv in H as (st4 & r' & H4 & H).
        apply shared_file_fail_returns in H4. inversion H; subst.
        discriminate.
      * apply bind_inv in H as (st4 & rr & H4 & H).
        destruct (negb (rv rr =? 0)).
        -- apply bind_inv in H as (st5 & r' & H5 & H).
           apply shared_file_fail_returns in H5. inversion H; subst.
           discriminate.
        -- inversion H; subst.
           eapply backing_ready_run; [|exact H4|];
             [auto with quiet|].
           eapply prepare_segment_ready; eauto.
    + apply bind_inv in H as (st3 & x & H3 & H). eapply IH; eauto.
Qed.

Lemma find_or_prepare_shared_file_ready (fuel : nat) (sp : string)
    (seg : seg_info) (st st' : pstate) (r : Z) (s' : seg_info) :
  find_or_prepare_shared_file w fuel sp seg st = (st', Returns (r, s')) ->
  r = 0 -> backing_ready (trace st') s'.
Proof.
  unfold find_or_prepare_shared_file. intros H Hr.
  apply bind_inv in H as (st1 & [rn final] & H1 & H).
  destruct (rn <? 0).
  - inversion H; subst. discriminate.
  - apply bind_inv in H as (st2 & tmp & H2 & H).
    eapply shared_file_loop_ready; eauto.
Qed.

Lemma obtain_prepared_file_ready (fuel : nat) (sh : Z) (sp : string)
    (seg : seg_info) (st st' : pstate) (r : Z) (s' : seg_info) :
  obtain_prepared_file w fuel sh sp seg st = (st', Returns (r, s')) ->
  (r <? 0) = false -> backing_ready (trace st') s'.
Proof.
  unfold obtain_prepared_file. intros H Hr.
  apply bind_inv in H as (st1 & [shared seg1] & H1 & H).
  destruct shared.
  - inversion H; subst.
    destruct (negb (sh =? 0) && (Z.land (prot seg) PROT_WRITE =? 0));
      [|inversion H1].
    apply bind_inv in H1 as (st2 & [r2 s2] & H2 & H1).
    inversion H1; subst. cbn [fst snd] in *.
    eapply find_or_prepare_shared_file_ready; eauto.
    now apply Z.eqb_eq.
  - apply bind_inv in H as (st2 & a & H2 & H).
    destruct (rv a <? 0) eqn:Ea; [inversion H; subst; discriminate|].
    apply Z.ltb_ge in Ea.
    apply bind_inv in H as (st3 & rp & H3 & H).
    destruct (rp <? 0) eqn:Ep; inversion H; subst; [discriminate|].
    eapply prepare_segment_ready; eauto.
Qed.

End Prepared.

Lemma bind_cases {A B : Type} (m : M A) (k : A -> M B) (st st' : pstate)
    (out : outcome B) :
  bind m k st = (st', out) ->
  (exists st1 a, m st = (st1, Returns a) /\ k a st1 = (st', out))
  \/ (exists o, m st = (st', o)).
Proof.
  unfold bind. destruct (m st) as [st1 [a| s | |]] eqn:E; intros H.
  - left. now exists st1, a.
  - inversion H; subst. right. now exists (Killed s).
  - inversion H; subst. right. now exists Faulted.
  - inversion H; subst. right. now exists Waiting.
Qed.

Lemma no_remap_event (tr pre post : list event) (e : event) :
  Forall not_remap tr -> tr = pre ++ e :: post ->
  fst (fst e) = F_remap_segments -> False.
Proof.
  intros Hf -> He. rewrite Forall_forall in Hf.
  apply (Hf e); [|exact He]. apply in_or_app. right. now left.
Qed.

Section Orchestrator.

Variables (w : world) (fuel : nat).

Lemma obtain_all_ready (g : flags) (sp : string) (n : nat) :
  forall i tbl st st' tbl',
    0 <= i ->
    obtain_all w fuel g sp n i tbl st = (st', Returns (Some tbl')) ->
    (forall j, i <= j < i + Z.of_nat n ->
               exists s, nth_z tbl' j = Some s
                         /\ backing_ready (trace st') s)
    /\ (forall j, j < i -> nth_z tbl' j = nth_z tbl j).
Proof.
  induction n as [|n IH]; intros i tbl st st' tbl' Hi H;
    cbn [obtain_all] in H.
  - inversion H; subst. split; [intros j Hj; lia|reflexivity].
  - destruct (nth_z tbl i) as [s|] eqn:Es; [|discriminate].
    cbv zeta in H. apply bind_inv in H as (st1 & [r s1] & H1 & H).
    cbn [fst snd] in H.
    destruct (r <? 0) eqn:Er; [discriminate|].
    pose proof (obtain_prepared_file_ready _ _ _ _ _ _ _ _ _ H1 Er) as Hb.
    assert (0 <= i + 1) as Hi1 by lia.
    destruct (IH _ _ _ _ _ Hi1 H) as (HA & HB).
    split.
    + intros j Hj. destruct (Z.eq_dec j i) as [->|Hne].
      * exists s1. split.
        -- rewrite HB by lia. eapply nth_z_set_same; eauto.
        -- eapply backing_ready_run; [apply quiet_obtain_all|exact H|].
           exact Hb.
      * apply HA. lia.
    + intros j Hj. rewrite HB by lia. apply nth_z_set_other; lia.
Qed.

Lemma obtain_all_split (g : flags) (sp : string) (m k : nat) :
  forall i tbl st st_k tbl_k,
    obtain_all w fuel g sp k i tbl st = (st_k, Returns (Some tbl_k)) ->
    obtain_all w fuel g sp (k + m) i tbl st
    = obtain_all w fuel g sp m (i + Z.of_nat k) tbl_k st_k.
Proof.
  induction k as [|k IH]; intros i tbl st st_k tbl_k H;
    cbn [obtain_all] in H.
  - inversion H; subst. cbn [Nat.add]. now rewrite Z.add_0_r.
  - destruct (nth_z tbl i) as [s|] eqn:Es; [|discriminate].
    cbv zeta in H. apply bind_inv in H as (st1 & r & H1 & H).
    cbn [Nat.add obtain_all]. rewrite Es. cbv zeta.
    rewrite (bind_returns _ _ _ _ _ H1).
    destruct (fst r <? 0); [discriminate|].
    rewrite (IH _ _ _ _ _ H). f_equal. lia.
Qed.

Lemma remap_segments_grows (seg : list seg_info) (num : Z)
    (st st' : pstate) (out : outcome unit) :
  remap_segments w seg num st = (st', out) ->
  exists evs, trace st' = trace st ++ evs.
Proof.
  unfold remap_segments. intros H.
  apply bind_cases in H as [(st0 & a0 & H0 & H) | (o & H)].
  - apply sys_run in H0.
    destruct (for_segs_unmap w seg (Z.to_nat num) 0 st0)
      as (st1 & mun & Ht1 & _ & [Hu | Hu]).
    + rewrite (bind_returns _ _ _ _ _ Hu) in H.
      destruct (for_segs_map_phase w seg (Z.to_nat num) 0 st1)
        as (st2 & out2 & evs & Hm & Ht2 & _).
      rewrite Hm in H. inversion H; subst.
      eexists. rewrite Ht2, Ht1, H0, <- !app_assoc. reflexivity.
    + unfold bind in H. rewrite Hu in H. inversion H; subst.
      eexists. rewrite Ht1, H0, <- !app_assoc. reflexivity.
  - unfold sys in H. inversion H; subst. eexists. reflexivity.
Qed.

End Orchestrator.

Lemma quiet_share_step (w : world) (g : flags) :
  quiet (if negb (sharing g =? 0)
         then find_or_create_share_path w EmptyString
         else ret (0, EmptyString)).
Proof.
  destruct (negb (sharing g =? 0));
    [apply quiet_find_or_create_share_path|apply quiet_ret].
Qed.

Lemma quiet_from_start {A : Type} (m : M A) (st st' : pstate)
    (o : outcome A) :
  quiet m -> m st = (st', o) ->
  Forall not_remap (trace st) -> Forall not_remap (trace st').
Proof.
  intros Hq H Hf. destruct (run_grows m st st' o Hq H) as (evs & -> & He).
  now apply Forall_app.
Qed.

(** C1: in every run of [setup_elflink], an event of [remap_segments]
    (its first call, any unmapping or remapping) comes after Step 1 has
    returned with a prepared backing file for every selected segment, and
    [remap_segments] runs on that table; and when [obtain_prepared_file]
    fails for a segment, [setup_elflink] returns there, with no event of
    [remap_segments] in the whole run. *)
Theorem setup_elflink_all_or_nothing (w : world) (fuel : nat) (st' : pstate)
    (out : outcome unit) :
  setup_elflink w fuel pstate0 = (st', out) ->
  (forall pre e post,
      trace st' = pre ++ e :: post ->
      fst (fst e) = F_remap_segments ->
      exists g sp tbl num st0 st1 tbl',
        reaches_step1 w g sp tbl num st0
        /\ obtain_all w fuel g sp (Z.to_nat num) 0 tbl st0
           = (st1, Returns (Some tbl'))
        /\ (exists mid, pre = trace st1 ++ mid)
        /\ (forall i, 0 <= i < num ->
                      exists s, nth_z tbl' i = Some s
                                /\ backing_ready (trace st1) s)
        /\ remap_segments w tbl' num st1 = (st', out))
  /\ (forall g sp tbl num st0 k st_k tbl_k s st_f r,
         reaches_step1 w g sp tbl num st0 ->
         (k < Z.to_nat num)%nat ->
         obtain_all w fuel g sp k 0 tbl st0 = (st_k, Returns (Some tbl_k)) ->
         nth_z tbl_k (Z.of_nat k) = Some s ->
         obtain_prepared_file w fuel (sharing g) sp s st_k
         = (st_f, Returns r) ->
         fst r < 0 ->
         st' = st_f /\ out = Returns tt /\ Forall not_remap (trace st')).
Proof.
  intros Hrun. split.
  - intros pre e post Htr He. unfold setup_elflink in Hrun.
    assert (forall st, Forall not_remap (trace st) -> st' = st -> False)
      as Habs.
    { intros st Hf ->. eapply no_remap_event; eauto. }
    assert (Forall not_remap (trace pstate0)) as Hnil by constructor.
    destruct (executable_start w) as [img|] eqn:Eimg;
      [|inversion Hrun; subst; exfalso; eapply Habs; eauto].
    destruct (check_env w flags0) as [r g] eqn:Eenv.
    destruct (negb (r =? 0)) eqn:Er;
      [inversion Hrun; subst; exfalso; eapply Habs; eauto|].
    apply negb_false_iff, Z.eqb_eq in Er. subst r.
    destruct (parse_elf (minimal_copy g) img htlb_seg_table0 0)
      as [[tbl num]|] eqn:Eparse;
      [|inversion Hrun; subst; exfalso; eapply Habs; eauto].
    destruct (num =? 0) eqn:Enum;
      [inversion Hrun; subst; exfalso; eapply Habs; eauto|].
    apply Z.eqb_neq in Enum.
    apply bind_cases in Hrun as [(st0 & [r sp] & Hs & Hrun) | (o & Hs)];
      [|exfalso; eapply Habs; [|reflexivity];
        eapply quiet_from_start; [apply quiet_share_step|exact Hs|exact Hnil]].
    pose proof (quiet_from_start _ _ _ _ (quiet_share_step w g) Hs Hnil)
      as Hq0.
    cbn [fst snd] in Hrun.
    destruct (negb (r =? 0)) eqn:Er;
      [inversion Hrun; subst; exfalso; eapply Habs; eauto|].
    apply negb_false_iff, Z.eqb_eq in Er. subst r.
    apply bind_cases in Hrun as [(st1 & t & Ho & Hrun) | (o & Ho)];
      [|exfalso; eapply Habs; [|reflexivity];
        eapply quiet_from_start; [apply quiet_obtain_all|exact Ho|exact Hq0]].
    pose proof (quiet_from_start _ _ _ _
                  (quiet_obtain_all w fuel g sp _ _ _) Ho Hq0) as Hq1.
    destruct t as [tbl'|];
      [|inversion Hrun; subst; exfalso; eapply Habs; eauto].
    exists g, sp, tbl, num, st0, st1, tbl'.
    split; [exists img; repeat split; assumption|].
    split; [exact Ho|].
    split.
    { destruct (remap_segments_grows _ _ _ _ _ _ Hrun) as (evs & Hev).
      rewrite Hev in Htr.
      destruct (app_split_at not_remap _ _ _ _ _ Hq1
                  (fun H => H He) Htr) as (mid & Hmid & _).
      now exists mid. }
    split; [|exact Hrun].
    intros i Hi.
    destruct (obtain_all_ready w fuel g sp _ _ _ _ _ _ (Z.le_refl 0) Ho)
      as (HA & _).
    apply HA. lia.
  - intros g sp tbl num st0 k st_k tbl_k s st_f r
           (img & Eimg & Eenv & Eparse & Enum & Hs) Hk Hok Hs_k Hf Hr.
    unfold setup_elflink in Hrun. rewrite Eimg, Eenv in Hrun.
    cbn [negb Z.eqb] in Hrun. rewrite Eparse in Hrun.
    replace (num =? 0) with false in Hrun
      by (symmetry; now apply Z.eqb_neq).
    rewrite (bind_returns _ _ _ _ _ Hs) in Hrun.
    cbn [fst snd negb Z.eqb] in Hrun.
    assert (obtain_all w fuel g sp (Z.to_nat num) 0 tbl st0
            = (st_f, Returns None)) as Hnone.
    { replace (Z.to_nat num) with (k + S (Z.to_nat num - k - 1))%nat by lia.
      rewrite (obtain_all_split w fuel g sp _ _ _ _ _ _ _ Hok).
      cbn [obtain_all]. rewrite Z.add_0_l, Hs_k. cbv zeta.
      rewrite (bind_returns _ _ _ _ _ Hf).
      now replace (fst r <? 0) with true by (symmetry; apply Z.ltb_lt; lia). }
    rewrite (bind_returns _ _ _ _ _ Hnone) in Hrun.
    inversion Hrun; subst. split; [reflexivity|]. split; [reflexivity|].
    eapply quiet_from_start; [apply quiet_obtain_all|exact Hnone|].
    eapply quiet_from_start; [apply quiet_share_step|exact Hs|constructor].
Qed.

(** The calls of the two runs: with a descriptor, the segment is
    materialized and then unmapped and remapped; without, the run ends
    after the failed request. *)
Example run_prepared_calls :
  calls_of (fst run_prepared)
  = [C_hugetlbfs_unlinked_fd;
     C_mmap 0 2097152 (Z.lor PROT_READ PROT_WRITE) MAP_SHARED 7 0;
     C_memcpy 139637976727552 4194304 8192;
     C_munmap 139637976727552 2097152;
     C_mmap 0 0 0 0 0 0;
     C_munmap 4194304 8192;
     C_mmap 4194304 2097152 5 (Z.lor MAP_PRIVATE MAP_FIXED) 7 0]
  /\ snd run_prepared = Returns tt.
Proof. split; vm_compute; reflexivity. Qed.

Example run_unprepared_calls :
  calls_of (fst run_unprepared) = [C_hugetlbfs_unlinked_fd].
Proof. vm_compute. reflexivity. Qed.

Lemma setup_elflink_all_or_nothing_witness :
  (exists g sp tbl num st0 st1 tbl',
      reaches_step1 (world_unlinked 7) g sp tbl num st0
      /\ obtain_all (world_unlinked 7) 1 g sp (Z.to_nat num) 0 tbl st0
         = (st1, Returns (Some tbl'))
      /\ (exists mid, firstn 4 (trace (fst run_prepared)) = trace st1 ++ mid)
      /\ (forall i, 0 <= i < num ->
                    exists s, nth_z tbl' i = Some s
                              /\ backing_ready (trace st1) s)
      /\ remap_segments (world_unlinked 7) tbl' num st1
         = (fst run_prepared, snd run_prepared))
  /\ snd run_unprepared = Returns tt
  /\ Forall not_remap (trace (fst run_unprepared)).
Proof.
  split.
  - apply (proj1 (setup_elflink_all_or_nothing (world_unlinked 7) 1
                    (fst run_prepared) (snd run_prepared)
                    (surjective_pairing _))
                 (firstn 4 (trace (fst run_prepared)))
                 (F_remap_segments, C_mmap 0 0 0 0 0 0, ans 0)
                 (skipn 5 (trace (fst run_prepared))));
      vm_compute; reflexivity.
  - apply (proj2 (setup_elflink_all_or_nothing (world_unlinked (-1)) 1
                    (fst run_unprepared) (snd run_unprepared)
                    (surjective_pairing _))
                 (mkFlags true 0 false) EmptyString
                 [mkSeg 4194304 0 8192 8192 0 5 0 0; seg_zero] 1 pstate0
                 0%nat pstate0
                 [mkSeg 4194304 0 8192 8192 0 5 0 0; seg_zero]
                 (mkSeg 4194304 0 8192 8192 0 5 0 0)
                 (fst run_unprepared)
                 (-1, mkSeg 4194304 0 8192 8192 0 5 0 0)).
    + exists img_one. repeat split; try (vm_compute; reflexivity).
      discriminate.
    + vm_compute. lia.
    + reflexivity.
    + reflexivity.
    + vm_compute. reflexivity.
    + simpl. lia.
Defined.

(** * Further properties of the code *)

(** ** find_dynamic: what it finds and what it skips *)

Lemma find_dynamic_scan_finds (phnum : Z) (n : nat) :
  forall mem i ph,
    nth_error mem n = Some ph ->
    p_type ph = PT_DYNAMIC ->
    (forall j pj, (j < n)%nat -> nth_error mem j = Some pj ->
                  p_type pj <> PT_DYNAMIC) ->
    i + Z.of_nat n <= phnum ->
    find_dynamic_scan mem i phnum
    = (Zrange i (S n), Some (i + Z.of_nat n)).
Proof.
  induction n as [|n IH]; intros mem i ph Hn Hd Hno Hle;
    destruct mem as [|p0 rest]; try discriminate; simpl in Hn.
  - inversion Hn; subst. simpl. rewrite Hd, Z.eqb_refl. simpl.
    now rewrite Z.add_0_r.
  - assert (p_type p0 <> PT_DYNAMIC) as H0
      by (apply (Hno 0%nat); [lia|reflexivity]).
    apply Z.eqb_neq in H0. cbn [find_dynamic_scan]. rewrite H0.
    replace (i <? phnum) with true by (symmetry; apply Z.ltb_lt; lia).
    cbn [negb andb].
    rewrite (IH rest (i + 1) ph Hn Hd).
    + cbn [Zrange]. do 2 f_equal. lia.
    + intros j pj Hj Hp. apply (Hno (S j)); [lia|exact Hp].
    + lia.
Qed.

(** X1: when the first PT_DYNAMIC header at an index from 1 on stands at
    [k < phnum], [find_dynamic] returns 0 with [*dyntab] set to that
    header's [p_vaddr], and it reads the indices 1 .. k and then [k] once
    more: nothing outside the table. *)
Theorem find_dynamic_finds_first (phdr : list Elf_Phdr) (phnum k : Z)
    (ph : Elf_Phdr) :
  1 <= k < phnum ->
  nth_z phdr k = Some ph ->
  p_type ph = PT_DYNAMIC ->
  (forall j pj, 1 <= j < k -> nth_z phdr j = Some pj ->
                p_type pj <> PT_DYNAMIC) ->
  find_dynamic_run phdr phnum
  = (Zrange 1 (Z.to_nat k) ++ [k], Some (0, Some (p_vaddr ph))).
Proof.
  intros Hk Hph Hd Hno. unfold find_dynamic_run.
  destruct phdr as [|p0 rest].
  { unfold nth_z in Hph. destruct (k <? 0); [discriminate|].
    destruct (Z.to_nat k); discriminate. }
  cbn [skipn].
  assert (nth_error rest (Z.to_nat (k - 1)) = Some ph) as Hr.
  { unfold nth_z in Hph.
    replace (k <? 0) with false in Hph by (symmetry; apply Z.ltb_ge; lia).
    replace (Z.to_nat k) with (S (Z.to_nat (k - 1))) in Hph by lia.
    exact Hph. }
  rewrite (find_dynamic_scan_finds phnum (Z.to_nat (k - 1)) rest 1 ph Hr Hd).
  - replace (1 + Z.of_nat (Z.to_nat (k - 1))) with k by lia.
    rewrite Hph, Hd, Z.eqb_refl.
    now replace (S (Z.to_nat (k - 1))) with (Z.to_nat k) by lia.
  - intros j pj Hj Hp. apply (Hno (Z.of_nat (S j))); [lia|].
    unfold nth_z.
    replace (Z.of_nat (S j) <? 0) with false
      by (symmetry; apply Z.ltb_ge; lia).
    now rewrite Nat2Z.id.
  - lia.
Qed.

Lemma find_dynamic_finds_first_witness :
  find_dynamic_run
    [phdr_load; phdr_load; phdr_dynamic 8192; phdr_load] 4
  = ([1; 2; 2], Some (0, Some 8192)).
Proof.
  apply (find_dynamic_finds_first
           [phdr_load; phdr_load; phdr_dynamic 8192; phdr_load] 4 2
           (phdr_dynamic 8192)).
  - lia.
  - reflexivity.
  - reflexivity.
  - intros j pj Hj. assert (j = 1) as -> by lia.
    vm_compute. intros H. inversion H. subst. discriminate.
Defined.

Lemma find_dynamic_scan_from (mem : list Elf_Phdr) (phnum : Z) :
  forall i reads r,
    find_dynamic_scan mem i phnum = (reads, r) ->
    Forall (fun x => i <= x) reads /\ (forall j, r = Some j -> i <= j).
Proof.
  induction mem as [|ph rest IH]; intros i reads r; simpl.
  - intros H. inversion H; subst. split; [constructor; [lia|constructor]|].
    discriminate.
  - destruct (negb (p_type ph =? PT_DYNAMIC) && (i <? phnum)).
    + destruct (find_dynamic_scan rest (i + 1) phnum) as [rd o] eqn:E.
      intros H. inversion H; subst. destruct (IH _ _ _ E) as [Hf Hj].
      split.
      * constructor; [lia|]. eapply Forall_impl; [|exact Hf].
        intros x Hx. simpl in Hx. lia.
      * intros j Hjr. specialize (Hj j Hjr). lia.
    + intros H. inversion H; subst. split; [constructor; [lia|constructor]|].
      intros j Hj. inversion Hj. lia.
Qed.

(** X2: [find_dynamic] never looks at [phdr[0]]: index 0 is not among its
    reads and its outcome does not depend on that header, so that a
    PT_DYNAMIC header in the first slot is not found. *)
Theorem find_dynamic_skips_first_header (h h' : Elf_Phdr)
    (rest : list Elf_Phdr) (phnum : Z) :
  find_dynamic_run (h :: rest) phnum = find_dynamic_run (h' :: rest) phnum
  /\ ~ In 0 (find_dynamic_reads (h :: rest) phnum).
Proof.
  unfold find_dynamic_reads, find_dynamic_run. cbn [skipn].
  destruct (find_dynamic_scan rest 1 phnum) as [reads r] eqn:E.
  destruct (find_dynamic_scan_from _ _ _ _ _ E) as [Hf Hj].
  assert (~ In 0 reads) as Hn0.
  { intros Hin. rewrite Forall_forall in Hf. specialize (Hf 0 Hin). lia. }
  destruct r as [i|]; [|split; [reflexivity|exact Hn0]].
  specialize (Hj i eq_refl).
  assert (forall x, nth_z (x :: rest) i = nth_error rest (Z.to_nat (i - 1)))
    as Hnth.
  { intros x. unfold nth_z.
    replace (i <? 0) with false by (symmetry; apply Z.ltb_ge; lia).
    now replace (Z.to_nat i) with (S (Z.to_nat (i - 1))) by lia. }
  rewrite !Hnth. split; [reflexivity|].
  assert (~ In 0 (reads ++ [i])) as Hn1.
  { intros Hin. apply in_app_or in Hin as [Hin | [Hin | []]];
      [now apply Hn0|lia]. }
  destruct (nth_error rest (Z.to_nat (i - 1))) as [ph|];
    [destruct (p_type ph =? PT_DYNAMIC)|]; exact Hn1.
Qed.

(** ** find_tables *)

Lemma find_tables_scan_sound (mem : list Elf_Dyn) :
  forall sy0 st0 sy st,
    find_tables_scan mem sy0 st0 = Some (sy, st) ->
    (sy = sy0
     \/ exists d, In d mem /\ d_tag d = DT_SYMTAB /\ d_ptr d = sy)
    /\ (st = st0
        \/ exists d, In d mem /\ d_tag d = DT_STRTAB /\ d_ptr d = st).
Proof.
  induction mem as [|d rest IH]; intros sy0 st0 sy st; simpl;
    [discriminate|].
  destruct (d_tag d =? DT_NULL) eqn:E0.
  - intros H. inversion H; subst. split; now left.
  - destruct (d_tag d =? DT_SYMTAB) eqn:E1.
    + intros H. apply IH in H as [[-> | (d' & Hin & Ht & Hp)] Hst].
      * split.
        -- right. exists d. apply Z.eqb_eq in E1. auto.
        -- destruct Hst as [-> | (d' & Hin & Ht & Hp)]; [now left|].
           right. exists d'. auto.
      * split; [right; exists d'; auto|].
        destruct Hst as [-> | (d2 & Hin2 & Ht2 & Hp2)]; [now left|].
        right. exists d2. auto.
    + destruct (d_tag d =? DT_STRTAB) eqn:E2.
      * intros H. apply IH in H as [Hsy [-> | (d' & Hin & Ht & Hp)]].
        -- split.
           ++ destruct Hsy as [-> | (d2 & Hin2 & Ht2 & Hp2)]; [now left|].
              right. exists d2. auto.
           ++ right. exists d. apply Z.eqb_eq in E2. auto.
        -- split.
           ++ destruct Hsy as [-> | (d2 & Hin2 & Ht2 & Hp2)]; [now left|].
              right. exists d2. auto.
           ++ right. exists d'. auto.
      * intros H. apply IH in H as [Hsy Hst]. split.
        -- destruct Hsy as [-> | (d2 & Hin2 & Ht2 & Hp2)]; [now left|].
           right. exists d2. auto.
        -- destruct Hst as [-> | (d2 & Hin2 & Ht2 & Hp2)]; [now left|].
           right. exists d2. auto.
Qed.

(** X3: when [find_tables] returns 0 on tables that were NULL before the
    call, both tables are non-null, and each is the [d_ptr] of a dynamic
    entry with the right tag that stands behind [dyntab[0]]: the first
    entry of the dynamic section is never used. *)
Theorem find_tables_sound (dyntab : list Elf_Dyn) (symtab strtab : Z) :
  find_tables dyntab 0 0 = Some (0, symtab, strtab) ->
  symtab <> 0 /\ strtab <> 0
  /\ (exists d, In d (skipn 1 dyntab)
                /\ d_tag d = DT_SYMTAB /\ d_ptr d = symtab)
  /\ (exists d, In d (skipn 1 dyntab)
                /\ d_tag d = DT_STRTAB /\ d_ptr d = strtab).
Proof.
  unfold find_tables.
  destruct (find_tables_scan (skipn 1 dyntab) 0 0) as [[sy st]|] eqn:E;
    [|discriminate].
  destruct (sy =? 0) eqn:Esy; [discriminate|].
  destruct (st =? 0) eqn:Est; [discriminate|].
  intros H. inversion H; subst.
  apply Z.eqb_neq in Esy, Est.
  destruct (find_tables_scan_sound _ _ _ _ _ E) as [[-> | Hs] [-> | Ht]];
    try contradiction.
  auto.
Qed.

Lemma find_tables_sound_witness :
  4096 <> 0 /\ 4240 <> 0
  /\ (exists d, In d (skipn 1 (dyn_at (img_scenario 0) 8192))
                /\ d_tag d = DT_SYMTAB /\ d_ptr d = 4096)
  /\ (exists d, In d (skipn 1 (dyn_at (img_scenario 0) 8192))
                /\ d_tag d = DT_STRTAB /\ d_ptr d = 4240).
Proof.
  apply (find_tables_sound (dyn_at (img_scenario 0) 8192) 4096 4240).
  reflexivity.
Defined.

(** ** find_numsyms *)

(** X4: for a string table that follows [n] symbols at once,
    [find_numsyms] returns [n] for every [0 < n < 2^31]; for [n = 0] (the
    string table at the address of the symbol table) it returns -1. *)
Theorem find_numsyms_adjacent (symtab n : Z) :
  0 <= n < 2 ^ 31 ->
  find_numsyms symtab (symtab + sizeof_Elf_Sym * n)
  = if n =? 0 then -1 else n.
Proof.
  intros Hn. unfold find_numsyms, sizeof_Elf_Sym.
  destruct (n =? 0) eqn:E.
  - apply Z.eqb_eq in E. subst.
    now replace (symtab + 24 * 0 <=? symtab) with true
      by (symmetry; apply Z.leb_le; lia).
  - apply Z.eqb_neq in E.
    replace (symtab + 24 * n <=? symtab) with false
      by (symmetry; apply Z.leb_gt; lia).
    replace (symtab + 24 * n - symtab) with (n * 24) by lia.
    rewrite wrap_small by (unfold WORD; lia).
    rewrite Z.div_mul by lia. unfold to_int.
    rewrite Z.mod_small by lia. lia.
Qed.

Lemma find_numsyms_adjacent_witness :
  find_numsyms 4096 (4096 + sizeof_Elf_Sym * 6) = 6.
Proof. apply (find_numsyms_adjacent 4096 6). lia. Defined.

(** ** get_extracopy: what it leaves alone *)

Lemma scan_step_start (so eo : Z) (w : window) (s : Elf_Sym) :
  so <= w_start w <= eo -> so <= w_start (scan_step so eo w s) <= eo.
Proof.
  intros Hw. unfold scan_step.
  destruct (keep_symbol s so eo) eqn:E; cbn [negb]; [|exact Hw].
  apply keep_symbol_bounds in E. cbn [w_start].
  destruct (st_value s <? w_start w); lia.
Qed.

Lemma scan_symbols_start (so eo : Z) (n : nat) :
  forall mem w w',
    so <= w_start w <= eo ->
    scan_symbols n mem so eo w = Some w' ->
    so <= w_start w' <= eo.
Proof.
  induction n as [|n IH]; intros mem w w' Hw H; simpl in H.
  - now inversion H; subst.
  - destruct mem as [|s rest]; [discriminate|].
    eapply IH; [|exact H]. now apply scan_step_start.
Qed.

(** X5: [get_extracopy] changes nothing but the copy window, and a window
    it sets never starts outside the zero-fill tail: the segment comes
    back unchanged, or [extra_vaddr] lies between [vaddr + filesz] and
    [vaddr + memsz]; this holds for every symbol table and every position
    of [__libhuge_filesz]. *)
Theorem get_extracopy_window_in_tail (mc : bool) (img : image)
    (seg seg' : seg_info) (phdr : list Elf_Phdr) (phnum : Z) :
  0 <= vaddr seg ->
  0 <= filesz seg <= memsz seg ->
  vaddr seg + memsz seg < WORD ->
  get_extracopy mc img seg phdr phnum = Some seg' ->
  (vaddr seg' = vaddr seg /\ filesz seg' = filesz seg
   /\ memsz seg' = memsz seg /\ prot seg' = prot seg
   /\ fd seg' = fd seg /\ index seg' = index seg)
  /\ (seg' = seg
      \/ vaddr seg + filesz seg <= extra_vaddr seg' <= vaddr seg + memsz seg).
Proof.
  intros Hv Hf Hm H.
  pose (P := fun s' : seg_info =>
          (vaddr s' = vaddr seg /\ filesz s' = filesz seg
           /\ memsz s' = memsz seg /\ prot s' = prot seg
           /\ fd s' = fd seg /\ index s' = index seg)
          /\ (s' = seg
              \/ vaddr seg + filesz seg <= extra_vaddr s'
                 <= vaddr seg + memsz seg)).
  change (P seg').
  assert (forall ev esz,
             vaddr seg + filesz seg <= ev <= vaddr seg + memsz seg ->
             P (set_extra seg ev esz)) as Hset.
  { intros ev esz Hev. split; [repeat split|right; exact Hev]. }
  assert (P seg) as Hsame by (split; [repeat split|now left]).
  assert (P (bail2 seg)) as Hbail.
  { rewrite bail2_window by lia. apply Hset. lia. }
  unfold get_extracopy in H.
  destruct (filesz seg =? memsz seg); [now injection H as <-|].
  destruct (negb mc); [now injection H as <-|].
  destruct (find_dynamic phdr phnum) as [[ret dyntab]|]; [|discriminate].
  destruct (ret <? 0); [now injection H as <-|].
  destruct dyntab as [d|]; [|discriminate].
  destruct (find_tables (dyn_at img d) 0 0) as [[[ret' sy] st]|];
    [|discriminate].
  destruct (ret' <? 0); [now injection H as <-|].
  destruct (find_numsyms sy st <? 0); [now injection H as <-|].
  unfold ptr_add in H. rewrite !wrap_small in H by lia.
  destruct (scan_symbols _ _ _ _ _) as [w|] eqn:Es; [|discriminate].
  apply scan_symbols_start in Es; [|cbn [w_start]; lia].
  destruct (found_sym (apply_sentinel _ _ _ w)); [|now injection H as <-].
  injection H as <-. apply Hset.
  unfold apply_sentinel.
  destruct (libhuge_filesz img >? w_end w); cbn [w_start]; [|exact Es].
  destruct (w_start w =? vaddr seg + memsz seg); lia.
Qed.

Lemma get_extracopy_window_in_tail_witness :
  (vaddr (set_extra seg_tail 78080 3840) = vaddr seg_tail
   /\ filesz (set_extra seg_tail 78080 3840) = filesz seg_tail
   /\ memsz (set_extra seg_tail 78080 3840) = memsz seg_tail
   /\ prot (set_extra seg_tail 78080 3840) = prot seg_tail
   /\ fd (set_extra seg_tail 78080 3840) = fd seg_tail
   /\ index (set_extra seg_tail 78080 3840) = index seg_tail)
  /\ (set_extra seg_tail 78080 3840 = seg_tail
      \/ vaddr seg_tail + filesz seg_tail
         <= extra_vaddr (set_extra seg_tail 78080 3840)
         <= vaddr seg_tail + memsz seg_tail).
Proof.
  apply (get_extracopy_window_in_tail true (img_scenario 81920) seg_tail
           (set_extra seg_tail 78080 3840) phdr_with_dynamic 2).
  - simpl. lia.
  - simpl. lia.
  - unfold WORD. simpl. lia.
  - reflexivity.
Defined.

(** X6: with minimal copy disabled, the window of a segment with a
    zero-fill tail is the whole tail, whatever the image holds; no header,
    dynamic entry or symbol is read, so that no fault can occur. *)
Theorem get_extracopy_without_minimal_copy (img : image) (seg : seg_info)
    (phdr : list Elf_Phdr) (phnum : Z) :
  0 <= vaddr seg ->
  0 <= filesz seg < memsz seg ->
  vaddr seg + memsz seg < WORD ->
  get_extracopy false img seg phdr phnum
  = Some (set_extra seg (vaddr seg + filesz seg) (memsz seg - filesz seg)).
Proof.
  intros Hv Hf Hm. unfold get_extracopy.
  replace (filesz seg =? memsz seg) with false
    by (symmetry; apply Z.eqb_neq; lia).
  cbn [negb]. now rewrite bail2_window by lia.
Qed.

Lemma get_extracopy_without_minimal_copy_witness :
  get_extracopy false (img_scenario 81920) seg_tail [] 2
  = Some (set_extra seg_tail (65536 + 12288) (20480 - 12288)).
Proof.
  apply (get_extracopy_without_minimal_copy (img_scenario 81920) seg_tail
           [] 2).
  - simpl. lia.
  - simpl. lia.
  - unfold WORD. simpl. lia.
Defined.

(** ** parse_elf: the table it builds *)

Lemma selected_from_length (l : list Elf_Phdr) :
  forall i, List.length (selected_from i l) = List.length (filter eligible l).
Proof.
  induction l as [|ph l IH]; intros i; simpl; [reflexivity|].
  destruct (eligible ph); simpl; now rewrite IH.
Qed.

Section Selects.

Variables (mc : bool) (img : image).

Hypothesis no_fault :
  forall seg, get_extracopy mc img seg (phdr_mem img) (e_phnum img) <> None.

Lemma parse_elf_loop_selects (l : list Elf_Phdr) :
  forall i tbl num,
    0 <= i ->
    firstn (List.length l) (skipn (Z.to_nat i) (phdr_mem img)) = l ->
    List.length tbl = Z.to_nat MAX_HTLB_SEGS ->
    0 <= num ->
    num + Z.of_nat (List.length (selected_from i l)) <= MAX_HTLB_SEGS ->
    (forall j, num <= j < MAX_HTLB_SEGS -> nth_z tbl j = Some seg_zero) ->
    exists tbl',
      parse_elf_loop mc img (List.length l) i tbl num
      = Some (tbl', num + Z.of_nat (List.length (selected_from i l)))
      /\ (forall j, 0 <= j < num -> nth_z tbl' j = nth_z tbl j)
      /\ (forall k i' ph,
             nth_error (selected_from i l) k = Some (i', ph) ->
             nth_z tbl' (num + Z.of_nat k)
             = get_extracopy mc img (fresh_seg i' ph) (phdr_mem img)
                             (e_phnum img)).
Proof.
  induction l as [|ph l IH]; intros i tbl num Hi Hl Ht Hn Hc Hz.
  - exists tbl. cbn. rewrite Z.add_0_r. split; [reflexivity|].
    split; [reflexivity|]. intros [|k] i' ph'; discriminate.
  - cbn [List.length] in Hl. apply firstn_skipn_cons in Hl.
    destruct Hl as [Hph Hl].
    cbn [List.length parse_elf_loop]. unfold nth_z at 1.
    replace (i <? 0) with false by (symmetry; apply Z.ltb_ge; lia).
    rewrite Hph.
    replace (S (Z.to_nat i)) with (Z.to_nat (i + 1)) in Hl by lia.
    assert (0 <= i + 1) as Hi1 by lia.
    cbn [selected_from] in Hc |- *.
    assert (eligible ph
            = (p_type ph =? PT_LOAD)
              && negb (Z.land (p_flags ph) PF_LINUX_HUGETLB =? 0)) as He
      by reflexivity.
    rewrite He in Hc |- *. clear He.
    destruct (p_type ph =? PT_LOAD); cbn [negb andb] in *;
      [|now apply IH].
    destruct (Z.land (p_flags ph) PF_LINUX_HUGETLB =? 0);
      cbn [negb] in *; [now apply IH|].
    cbn [List.length] in Hc.
    replace (num >=? MAX_HTLB_SEGS) with false
      by (symmetry; rewrite Z.geb_leb; apply Z.leb_gt; lia).
    rewrite (Hz num) by lia.
    change (mkSeg (p_vaddr ph) (extra_vaddr seg_zero) (p_filesz ph)
                  (p_memsz ph) (extrasz seg_zero)
                  (prot_of_flags (p_flags ph)) (fd seg_zero) i)
      with (fresh_seg i ph).
    destruct (get_extracopy mc img (fresh_seg i ph) (phdr_mem img)
                (e_phnum img)) as [seg'|] eqn:G;
      [|now apply no_fault in G].
    destruct (IH (i + 1) (set_nth_z tbl num seg') (num + 1))
      as (tbl' & Hrun & Hlow & Hsel); try (assumption || lia).
    + now rewrite set_nth_z_length.
    + intros j Hj. rewrite nth_z_set_other by lia. apply Hz. lia.
    + exists tbl'. split; [rewrite Hrun; do 2 f_equal; cbn [List.length]; lia|].
      split.
      * intros j Hj. rewrite Hlow by lia. apply nth_z_set_other; lia.
      * intros [|k] i' ph' Hk; cbn [nth_error] in Hk.
        -- inversion Hk; subst. rewrite Z.add_0_r, Hlow by lia.
           rewrite G. eapply nth_z_set_same. apply Hz. lia.
        -- rewrite <- (Hsel k i' ph' Hk). f_equal. lia.
Qed.

End Selects.

(** X7: for an image with at most MAX_HTLB_SEGS marked PT_LOAD headers,
    [parse_elf] counts them all, and entry [k] of the table is what
    [get_extracopy] makes of the [k]-th marked header: base address, sizes
    and index of that header, and the protection derived from its flags. *)
Theorem parse_elf_selects (mc : bool) (img : image) :
  0 <= e_phnum img <= Z.of_nat (List.length (phdr_mem img)) ->
  count_eligible img <= MAX_HTLB_SEGS ->
  (forall seg,
      get_extracopy mc img seg (phdr_mem img) (e_phnum img) <> None) ->
  exists tbl',
    parse_elf mc img htlb_seg_table0 0 = Some (tbl', count_eligible img)
    /\ (forall k i ph,
           nth_error (selected img) k = Some (i, ph) ->
           nth_z tbl' (Z.of_nat k)
           = get_extracopy mc img (fresh_seg i ph) (phdr_mem img)
                           (e_phnum img)).
Proof.
  intros Hn Hc Hf. unfold parse_elf, selected, count_eligible in *.
  set (l := firstn (Z.to_nat (e_phnum img)) (phdr_mem img)) in *.
  assert (List.length l = Z.to_nat (e_phnum img)) as Hl.
  { subst l. rewrite length_firstn. lia. }
  rewrite <- Hl.
  destruct (parse_elf_loop_selects mc img Hf l 0 htlb_seg_table0 0)
    as (tbl' & Hrun & _ & Hsel); try (reflexivity || lia).
  - rewrite Hl. reflexivity.
  - rewrite selected_from_length. lia.
  - intros j Hj. unfold MAX_HTLB_SEGS in Hj.
    assert (j = 0 \/ j = 1) as [-> | ->] by lia; reflexivity.
  - exists tbl'. rewrite selected_from_length in Hrun. split; [exact Hrun|].
    intros k i ph Hk. now rewrite <- (Hsel k i ph Hk).
Qed.

Lemma img_two_no_fault (mc : bool) (seg : seg_info) :
  get_extracopy mc img_two seg (phdr_mem img_two) (e_phnum img_two) <> None.
Proof.
  unfold get_extracopy.
  destruct (filesz seg =? memsz seg); [discriminate|].
  destruct mc; cbn; discriminate.
Qed.

Lemma parse_elf_selects_witness :
  exists tbl',
    parse_elf true img_two htlb_seg_table0 0 = Some (tbl', 2)
    /\ (forall k i ph,
           nth_error (selected img_two) k = Some (i, ph) ->
           nth_z tbl' (Z.of_nat k)
           = get_extracopy true img_two (fresh_seg i ph) (phdr_mem img_two)
                           (e_phnum img_two)).
Proof.
  apply (parse_elf_selects true img_two).
  - simpl. lia.
  - vm_compute. discriminate.
  - apply img_two_no_fault.
Defined.

(** The table [parse_elf] builds for [img_two]: the text segment from
    header 1 and the data segment from header 3, whose window is the whole
    tail since the image has no dynamic section. *)
Example parse_elf_img_two :
  parse_elf true img_two htlb_seg_table0 0
  = Some ([mkSeg 4194304 0 8192 8192 0 5 0 1;
           mkSeg 65536 77824 12288 20480 8192 3 0 3], 2).
Proof. reflexivity. Qed.

(** ** Protection bits *)

(** X8: the protection [parse_elf] derives has the read, write and
    execute bit exactly when the header's flags have PF_R, PF_W and PF_X,
    and no other bit. *)
Theorem prot_of_flags_bits (fl : Z) :
  (Z.land (prot_of_flags fl) PROT_READ =? 0) = (Z.land fl PF_R =? 0)
  /\ (Z.land (prot_of_flags fl) PROT_WRITE =? 0) = (Z.land fl PF_W =? 0)
  /\ (Z.land (prot_of_flags fl) PROT_EXEC =? 0) = (Z.land fl PF_X =? 0)
  /\ 0 <= prot_of_flags fl <= 7.
Proof.
  unfold prot_of_flags. cbv zeta.
  destruct (Z.land fl PF_R =? 0), (Z.land fl PF_W =? 0),
           (Z.land fl PF_X =? 0);
    repeat split; try reflexivity; vm_compute; discriminate.
Qed.

(** ** write_err_base and unmapped_abort: what is written *)



Lemma append_snoc (a : string) (c : ascii) (b : string) :
  ((a ++ String c EmptyString) ++ b)%string = (a ++ String c b)%string.
Proof. induction a as [|x a IH]; simpl; [reflexivity|now rewrite IH]. Qed.

Lemma unmapped_abort_scan_plain (w : world) (args : list Z) (p : string) :
  forall lit,
    no_percent p = true ->
    unmapped_abort_scan w p lit args = write_err w (lit ++ p)%string.
Proof.
  induction p as [|c rest IH]; intros lit H; cbn [unmapped_abort_scan].
  - f_equal. induction lit as [|x l IHl]; simpl; [reflexivity|].
    now rewrite <- IHl.
  - cbn [no_percent] in H. apply andb_prop in H as [Hc Hr].
    apply negb_true_iff in Hc. rewrite Hc, IH by exact Hr.
    now rewrite append_snoc.
Qed.

(** X11: for a format without [%], [unmapped_abort] writes the whole
    format with one raw write, whatever arguments follow, then asks for the
    process id and sends the process SIGABRT; it does not return. *)
Theorem unmapped_abort_plain (w : world) (fmt : string) (args : list Z)
    (st : pstate) :
  no_percent fmt = true ->
  exists a ap ak,
    trace (fst (unmapped_abort w fmt args st))
    = trace st
      ++ [(F_write_err, C_write 2 fmt, a);
          (F_sys_abort, C_getpid, ap);
          (F_sys_abort, C_kill (rv ap) SIGABRT, ak)]
    /\ snd (unmapped_abort w fmt args st) = Killed SIGABRT.
Proof.
  intros H. unfold unmapped_abort.
  rewrite (unmapped_abort_scan_plain w args fmt EmptyString H).
  cbn [append]. unfold write_err, sys_abort, bind, sys, sys_kill, ret.
  cbv zeta. cbn [fst snd trace rv].
  eexists _, _, _. split; [|reflexivity].
  rewrite <- !app_assoc. reflexivity.
Qed.

Lemma unmapped_abort_plain_witness :
  exists a ap ak,
    trace (fst (unmapped_abort world_wrong_address "out of luck" [1; 2]
                               pstate0))
    = trace pstate0
      ++ [(F_write_err, C_write 2 "out of luck", a);
          (F_sys_abort, C_getpid, ap);
          (F_sys_abort, C_kill (rv ap) SIGABRT, ak)]
    /\ snd (unmapped_abort world_wrong_address "out of luck" [1; 2] pstate0)
       = Killed SIGABRT.
Proof.
  apply (unmapped_abort_plain world_wrong_address "out of luck" [1; 2]
           pstate0).
  reflexivity.
Defined.

(** ** Events a computation avoids *)

Lemma avoids_ret {A : Type} (P : event -> Prop) (a : A) : avoids P (ret a).
Proof. intros st. exists []. split; [now rewrite app_nil_r|constructor]. Qed.

Lemma avoids_fault {A : Type} (P : event -> Prop) : avoids P (@fault A).
Proof. intros st. exists []. split; [now rewrite app_nil_r|constructor]. Qed.

Lemma avoids_waiting {A : Type} (P : event -> Prop) :
  avoids P (fun st => (st, @Waiting A)).
Proof. intros st. exists []. split; [now rewrite app_nil_r|constructor]. Qed.

Lemma avoids_get_errno (P : event -> Prop) : avoids P get_errno.
Proof. intros st. exists []. split; [now rewrite app_nil_r|constructor]. Qed.

Lemma avoids_bind {A B : Type} (P : event -> Prop) (m : M A)
    (k : A -> M B) :
  avoids P m -> (forall a, avoids P (k a)) -> avoids P (bind m k).
Proof.
  intros Hm Hk st. unfold bind. destruct (Hm st) as (e1 & H1 & F1).
  destruct (m st) as [st1 [a| s | |]]; cbn [fst] in *;
    try (exists e1; split; assumption).
  destruct (Hk a st1) as (e2 & H2 & F2). exists (e1 ++ e2). split.
  - now rewrite H2, H1, app_assoc.
  - now apply Forall_app.
Qed.

Lemma avoids_sys (P : event -> Prop) (w : world) (f : func) (c : call) :
  (forall a, P (f, c, a)) -> avoids P (sys w f c).
Proof.
  intros Hf st. eexists [_]. split; [reflexivity|].
  constructor; [apply Hf|constructor].
Qed.

Lemma avoids_sys_kill (P : event -> Prop) (w : world) (f : func)
    (pid sig : Z) :
  (forall a, P (f, C_kill pid sig, a)) -> avoids P (sys_kill w f pid sig).
Proof.
  intros Hf st. eexists [_]. split; [reflexivity|].
  constructor; [apply Hf|constructor].
Qed.

Lemma avoids_libc_abort {A : Type} (P : event -> Prop) (w : world)
    (f : func) :
  (forall a, P (f, C_abort, a)) -> avoids P (@libc_abort w A f).
Proof.
  intros Hf st. eexists [_]. split; [reflexivity|].
  constructor; [apply Hf|constructor].
Qed.

Lemma avoids_when (P : event -> Prop) (b : bool) (m : M unit) :
  avoids P m -> avoids P (when b m).
Proof. intros H. destruct b; [exact H|apply avoids_ret]. Qed.

Lemma avoids_run {A : Type} (P : event -> Prop) (m : M A)
    (st st' : pstate) (o : outcome A) :
  avoids P m -> m st = (st', o) ->
  exists evs, trace st' = trace st ++ evs /\ Forall P evs.
Proof. intros Hq H. specialize (Hq st). now rewrite H in Hq. Qed.

Create HintDb avoids.

#[local] Hint Resolve avoids_ret avoids_fault avoids_waiting
  avoids_get_errno avoids_when : avoids.
#[local] Hint Extern 1 (avoids _ (sys _ _ _)) =>
  apply avoids_sys; intros ?; reflexivity : avoids.
#[local] Hint Extern 1 (avoids _ (sys_kill _ _ _ _)) =>
  apply avoids_sys_kill; intros ?; reflexivity : avoids.
#[local] Hint Extern 1 (avoids _ (libc_abort _ _)) =>
  apply avoids_libc_abort; intros ?; reflexivity : avoids.
#[local] Hint Extern 2 (avoids _ (bind _ _)) =>
  apply avoids_bind; [|intros ?] : avoids.
#[local] Hint Extern 3 (avoids _ (if ?b then _ else _)) =>
  destruct b : avoids.
#[local] Hint Extern 3 (avoids _ (let (_, _) := ?p in _)) =>
  destruct p : avoids.

(** ** Shared file names *)

Lemma append_inv_head (a x y : string) :
  (a ++ x)%string = (a ++ y)%string -> x = y.
Proof.
  induction a as [|c a IH]; simpl; intros H; [exact H|].
  inversion H. now apply IH.
Qed.

Lemma append_length (a b : string) :
  String.length (a ++ b) = (String.length a + String.length b)%nat.
Proof. induction a as [|c a IH]; simpl; [reflexivity|now rewrite IH]. Qed.

Lemma dec_inj (a b : Z) : dec a = dec b -> a = b.
Proof.
  unfold dec. intros H.
  assert (forall z, NilZero.int_of_string (NilZero.string_of_int (Z.to_int z))
                    = Some (Z.to_int z)) as Hisi.
  { intros z. apply NilZero.isi; destruct z; simpl; try discriminate;
      intros Hn; inversion Hn as [Hp];
      now apply DecimalPos.Unsigned.to_uint_nonnil in Hp. }
  apply (f_equal NilZero.int_of_string) in H. rewrite !Hisi in H.
  inversion H as [H']. apply (f_equal Z.of_int) in H'.
  now rewrite !DecimalZ.of_to in H'.
Qed.

(** X12: the shared file names that [get_shared_file_name] builds for two
    segments of the same executable in the same share directory differ as
    soon as the segments' program header indices differ; and the name of
    the temporary file, the final name with [.tmp] appended, is never the
    final name. *)
Theorem shared_file_names_distinct (w : world) (sp : string)
    (s1 s2 : seg_info) (st1 st2 st1' st2' : pstate) (p1 p2 : string) :
  get_shared_file_name w sp s1 st1 = (st1', Returns (0, p1)) ->
  get_shared_file_name w sp s2 st2 = (st2', Returns (0, p2)) ->
  a_buf (oracle w (List.length (trace st1))
                (C_readlink "/proc/self/exe" PATH_MAX))
  = a_buf (oracle w (List.length (trace st2))
                  (C_readlink "/proc/self/exe" PATH_MAX)) ->
  index s1 <> index s2 ->
  p1 <> p2 /\ (p1 ++ ".tmp")%string <> p1.
Proof.
  unfold get_shared_file_name, bind, sys, assemble_path, ret, libc_abort.
  cbv zeta. cbn [trace errno].
  intros H1 H2 Hbuf Hidx.
  destruct (rv (oracle w (List.length (trace st1)) _) <? 0);
    [inversion H1|].
  destruct (rv (oracle w (List.length (trace st2)) _) <? 0);
    [inversion H2|].
  rewrite Hbuf in H1.
  destruct (strlen _ >? PATH_MAX) in H1; [inversion H1|].
  destruct (strlen _ >? PATH_MAX) in H2; [inversion H2|].
  inversion H1; inversion H2; subst. split.
  - intros Heq. apply append_inv_head in Heq. simpl in Heq.
    injection Heq as Heq. apply append_inv_head in Heq. simpl in Heq.
    injection Heq as Heq.
    apply dec_inj in Heq. contradiction.
  - intros Heq. apply (f_equal String.length) in Heq.
    rewrite append_length in Heq. simpl in Heq. lia.
Qed.

Lemma shared_file_names_distinct_witness :
  final_name
  <> "/mnt/huge/elflink-uid-1000/prog_64_3"%string
  /\ (final_name ++ ".tmp")%string <> final_name.
Proof.
  apply (shared_file_names_distinct (world_prepare_fails 0) share_dir
           seg_text (mkSeg 65536 0 12288 20480 0 5 0 3) pstate0 pstate0
           (fst (get_shared_file_name (world_prepare_fails 0) share_dir
                   seg_text pstate0))
           (fst (get_shared_file_name (world_prepare_fails 0) share_dir
                   (mkSeg 65536 0 12288 20480 0 5 0 3) pstate0))).
  - vm_compute. reflexivity.
  - vm_compute. reflexivity.
  - reflexivity.
  - simpl. lia.
Defined.

(** ** find_or_prepare_shared_file: the rounds of the protocol *)

Section SharedFile.

Variables (w : world) (final_path tmp_path : string) (seg : seg_info).

(** X13: as long as both opens fail, [find_or_prepare_shared_file] keeps
    waiting: each round is the exclusive create, the read-only open and a
    sleep of one second, and no number of rounds makes the loop return; it
    has no timeout. *)
Theorem shared_file_loop_waits :
  (forall n path flags mode, rv (oracle w n (C_open path flags mode)) < 0) ->
  forall fuel st,
    snd (shared_file_loop w fuel final_path tmp_path seg st) = Waiting
    /\ calls_of (fst (shared_file_loop w fuel final_path tmp_path seg st))
       = calls_of st
         ++ List.concat (repeat (waiting_round final_path tmp_path) fuel).
Proof.
  intros Hneg. induction fuel as [|fuel IH]; intros st.
  - split; [reflexivity|]. simpl. now rewrite app_nil_r.
  - cbn [shared_file_loop]. cbv zeta.
    set (c1 := C_open tmp_path (Z.lor (Z.lor O_CREAT O_EXCL) O_RDWR) 438).
    set (c2 := C_open final_path O_RDONLY 0).
    set (a1 := oracle w (List.length (trace st)) c1).
    set (st1 := mkPstate
                  (trace st ++ [(F_find_or_prepare_shared_file, c1, a1)])
                  (match err a1 with Some e => e | None => errno st end)).
    assert (sys w F_find_or_prepare_shared_file c1 st = (st1, Returns a1))
      as H1 by reflexivity.
    rewrite (bind_returns _ _ _ _ _ H1).
    set (a2 := oracle w (List.length (trace st1)) c2).
    set (st2 := mkPstate
                  (trace st1 ++ [(F_find_or_prepare_shared_file, c2, a2)])
                  (match err a2 with Some e => e | None => errno st1 end)).
    assert (sys w F_find_or_prepare_shared_file c2 st1 = (st2, Returns a2))
      as H2 by reflexivity.
    rewrite (bind_returns _ _ _ _ _ H2).
    replace (rv a2 >=? 0) with false
      by (symmetry; rewrite Z.geb_leb; apply Z.leb_gt; apply Hneg).
    replace (rv a1 >=? 0) with false
      by (symmetry; rewrite Z.geb_leb; apply Z.leb_gt; apply Hneg).
    set (a3 := oracle w (List.length (trace st2)) (C_sleep 1)).
    set (st3 := mkPstate
                  (trace st2
                   ++ [(F_find_or_prepare_shared_file, C_sleep 1, a3)])
                  (match err a3 with Some e => e | None => errno st2 end)).
    assert (sys w F_find_or_prepare_shared_file (C_sleep 1) st2
            = (st3, Returns a3)) as H3 by reflexivity.
    rewrite (bind_returns _ _ _ _ _ H3).
    destruct (IH st3) as [Ho Hc]. split; [exact Ho|].
    rewrite Hc. cbn [repeat List.concat]. unfold calls_of, waiting_round.
    subst st3 st2 st1. cbn [trace]. rewrite !map_app. cbn [map fst snd].
    rewrite <- !app_assoc. reflexivity.
Qed.

(** X14: when the final file opens in a round, that round ends the
    protocol with return value 0 and the descriptor of the final file in
    the segment; [prepare_segment] is not run and nothing is renamed.  An
    exclusive create that succeeded with a descriptor above 0 is undone:
    the temporary file is unlinked and its descriptor closed. *)
Theorem shared_file_loop_uses_final (fuel : nat) (st : pstate) :
  0 <= rv (oracle w (S (List.length (trace st)))
                  (C_open final_path O_RDONLY 0)) ->
  snd (shared_file_loop w (S fuel) final_path tmp_path seg st)
  = Returns
      (0, set_fd seg (rv (oracle w (S (List.length (trace st)))
                                 (C_open final_path O_RDONLY 0))))
  /\ calls_of (fst (shared_file_loop w (S fuel) final_path tmp_path seg st))
     = calls_of st
       ++ [C_open tmp_path (Z.lor (Z.lor O_CREAT O_EXCL) O_RDWR) 438;
           C_open final_path O_RDONLY 0]
       ++ (if rv (oracle w (List.length (trace st))
                   (C_open tmp_path (Z.lor (Z.lor O_CREAT O_EXCL) O_RDWR)
                           438)) >? 0
           then [C_unlink tmp_path;
                 C_close
                   (rv (oracle w (List.length (trace st))
                          (C_open tmp_path
                                  (Z.lor (Z.lor O_CREAT O_EXCL) O_RDWR)
                                  438)))]
           else []).
Proof.
  intros Hfds. cbn [shared_file_loop]. cbv zeta.
  set (c1 := C_open tmp_path (Z.lor (Z.lor O_CREAT O_EXCL) O_RDWR) 438) in *.
  set (c2 := C_open final_path O_RDONLY 0) in *.
  set (a1 := oracle w (List.length (trace st)) c1).
  set (st1 := mkPstate
                (trace st ++ [(F_find_or_prepare_shared_file, c1, a1)])
                (match err a1 with Some e => e | None => errno st end)).
  assert (sys w F_find_or_prepare_shared_file c1 st = (st1, Returns a1))
    as H1 by reflexivity.
  rewrite (bind_returns _ _ _ _ _ H1).
  assert (List.length (trace st1) = S (List.length (trace st))) as Hlen.
  { subst st1. cbn [trace]. rewrite length_app. simpl. lia. }
  set (a2 := oracle w (List.length (trace st1)) c2).
  assert (a2 = oracle w (S (List.length (trace st))) c2) as Ha2
    by (subst a2; now rewrite Hlen).
  rewrite <- Ha2 in *.
  set (st2 := mkPstate
                (trace st1 ++ [(F_find_or_prepare_shared_file, c2, a2)])
                (match err a2 with Some e => e | None => errno st1 end)).
  assert (sys w F_find_or_prepare_shared_file c2 st1 = (st2, Returns a2))
    as H2 by reflexivity.
  rewrite (bind_returns _ _ _ _ _ H2).
  replace (rv a2 >=? 0) with true
    by (symmetry; rewrite Z.geb_leb; apply Z.leb_le; exact Hfds).
  unfold calls_of.
  destruct (rv a1 >? 0); unfold when, bind, sys, ret; cbv zeta;
    cbn [fst snd trace]; (split; [reflexivity|]);
    subst st2 st1; cbn [trace]; rewrite !map_app; cbn [map fst snd];
    rewrite <- !app_assoc; reflexivity.
Qed.

Lemma avoids_rename_prepare_segment (s : seg_info) :
  avoids not_rename (prepare_segment w s).
Proof. unfold prepare_segment. cbv zeta. auto 20 with avoids. Qed.

Lemma avoids_shared_file_fail (fdx fds : Z) :
  avoids not_rename (shared_file_fail w tmp_path fdx fds).
Proof. unfold shared_file_fail. auto 20 with avoids. Qed.

Lemma prepare_segment_ends_with_munmap (s : seg_info) (st st' : pstate)
    (r : Z) :
  prepare_segment w s st = (st', Returns r) ->
  (r <? 0) = false ->
  exists pre m,
    trace st' = trace st ++ pre ++ [m]
    /\ is_prepare_munmap m
    /\ Forall not_rename (pre ++ [m]).
Proof.
  intros H Hr.
  destruct (avoids_run not_rename _ _ _ _
              (avoids_rename_prepare_segment s) H) as (evs & Hev & Hf).
  revert H. unfold prepare_segment. cbv zeta. intros H.
  apply bind_inv in H as (st1 & a & H1 & H).
  destruct (rv a =? MAP_FAILED).
  - inversion H; subst. discriminate.
  - apply bind_inv in H as (st2 & a2 & H2 & H).
    apply bind_inv in H as (st3 & [] & H3 & H).
    apply bind_inv in H as (st4 & a4 & H4 & H). apply sys_run in H4.
    inversion H; subst.
    assert (exists e3, trace st3 = trace st ++ e3) as (e3 & He3).
    { apply sys_run in H1.
      destruct (run_grows _ _ _ _ (quiet_sys w F_prepare_segment _
                  ltac:(discriminate)) H2) as (x2 & G2 & _).
      assert (quiet (when (negb (extra_vaddr s =? 0))
                (sys w F_prepare_segment
                   (C_memcpy
                      (wrap (rv a + filesz s
                             + ptr_diff (extra_vaddr s)
                                        (ptr_add (vaddr s) (filesz s))))
                      (extra_vaddr s) (extrasz s)) ;;; ret tt))) as Hq.
      { apply quiet_when. apply quiet_bind; [|intros ?; apply quiet_ret].
        apply quiet_sys. discriminate. }
      destruct (run_grows _ _ _ _ Hq H3) as (x3 & G3 & _).
      eexists. rewrite G3, G2, H1, <- !app_assoc. reflexivity. }
    exists e3, (F_prepare_segment,
                C_munmap (rv a) (prepare_size w s), a4).
    rewrite H4, He3 in Hev |- *. rewrite <- app_assoc in Hev |- *.
    split; [reflexivity|]. split; [eexists _, _, _; reflexivity|].
    apply app_inv_head in Hev. subst evs. exact Hf.
Qed.

Lemma rename_not_among (l pre post : list event) (e : event) :
  Forall not_rename l -> l = pre ++ e :: post ->
  is_rename (snd (fst e)) = true -> False.
Proof.
  intros Hf -> He. rewrite Forall_forall in Hf.
  assert (not_rename e) as Hn by (apply Hf, in_or_app; right; now left).
  unfold not_rename in Hn. congruence.
Qed.

Lemma rename_split (l1 l2 pre post : list event) (e : event) :
  Forall not_rename l1 -> is_rename (snd (fst e)) = true ->
  l1 ++ l2 = pre ++ e :: post ->
  exists pre', pre = l1 ++ pre' /\ l2 = pre' ++ e :: post.
Proof.
  intros Hf He. apply (app_split_at not_rename); [exact Hf|].
  unfold not_rename. congruence.
Qed.


End SharedFile.

Lemma shared_file_loop_waits_witness :
  snd (shared_file_loop world_no_open 3 final_name tmp_name seg_text pstate0)
  = Waiting
  /\ calls_of (fst (shared_file_loop world_no_open 3 final_name tmp_name
                      seg_text pstate0))
     = calls_of pstate0
       ++ List.concat (repeat (waiting_round final_name tmp_name) 3).
Proof.
  apply (shared_file_loop_waits world_no_open final_name tmp_name seg_text).
  intros n path flags mode. simpl.
  destruct (flags =? O_RDONLY); simpl; lia.
Defined.

Lemma shared_file_loop_uses_final_witness :
  snd (shared_file_loop (world_final_there 5) 1 final_name tmp_name seg_text
         pstate0)
  = Returns (0, set_fd seg_text 9)
  /\ calls_of (fst (shared_file_loop (world_final_there 5) 1 final_name
                      tmp_name seg_text pstate0))
     = [C_open tmp_name (Z.lor (Z.lor O_CREAT O_EXCL) O_RDWR) 438;
        C_open final_name O_RDONLY 0;
        C_unlink tmp_name;
        C_close 5].
Proof.
  apply (shared_file_loop_uses_final (world_final_there 5) final_name
           tmp_name seg_text 0 pstate0).
  simpl. lia.
Defined.


(** ** obtain_prepared_file *)

Lemma get_extracopy_shape (mc : bool) (img : image) (seg seg' : seg_info)
    (phdr : list Elf_Phdr) (phnum : Z) :
  get_extracopy mc img seg phdr phnum = Some seg' ->
  seg' = seg \/ exists ev esz, seg' = set_extra seg ev esz.
Proof.
  unfold get_extracopy, bail2. intros H.
  repeat match type of H with
         | Some _ = Some _ => injection H as <-
         | None = Some _ => discriminate
         | context [match ?x with _ => _ end] => destruct x
         | context [if ?b then _ else _] => destruct b
         end;
    first [now left | right; eexists _, _; reflexivity].
Qed.

Lemma prot_of_flags_write (fl : Z) :
  (Z.land (prot_of_flags fl) PROT_WRITE =? 0) = (Z.land fl PF_W =? 0).
Proof.
  unfold prot_of_flags. cbv zeta.
  destruct (Z.land fl PF_R =? 0), (Z.land fl PF_W =? 0),
           (Z.land fl PF_X =? 0); reflexivity.
Qed.

Lemma avoids_sharing_prepare_segment (w : world) (s : seg_info) :
  avoids not_sharing (prepare_segment w s).
Proof. unfold prepare_segment. cbv zeta. auto 20 with avoids. Qed.

(** X16: a segment whose program header has PF_W is never shared: whatever
    [sharing] is, [obtain_prepared_file] treats the descriptor that
    [parse_elf] made of the header as it does with sharing off, and none
    of its events comes from the shared-file functions (no readlink, open,
    rename or unlink). *)
Theorem writable_segment_never_shared (w : world) (fuel : nat) (sh : Z)
    (sp : string) (mc : bool) (img : image) (i : Z) (ph : Elf_Phdr)
    (seg : seg_info) (st : pstate) :
  Z.land (p_flags ph) PF_W <> 0 ->
  get_extracopy mc img (fresh_seg i ph) (phdr_mem img) (e_phnum img)
  = Some seg ->
  obtain_prepared_file w fuel sh sp seg st
  = obtain_prepared_file w fuel 0 sp seg st
  /\ exists evs,
      trace (fst (obtain_prepared_file w fuel sh sp seg st))
      = trace st ++ evs
      /\ Forall not_sharing evs.
Proof.
  intros Hw Hg.
  assert (prot seg = prot_of_flags (p_flags ph)) as Hp.
  { apply get_extracopy_shape in Hg as [-> | (ev & esz & ->)]; reflexivity. }
  assert (obtain_prepared_file w fuel sh sp seg
          = obtain_prepared_file w fuel 0 sp seg) as Heq.
  { unfold obtain_prepared_file. rewrite Hp, prot_of_flags_write.
    replace (Z.land (p_flags ph) PF_W =? 0) with false
      by (symmetry; now apply Z.eqb_neq).
    now rewrite !andb_false_r. }
  split; [now rewrite Heq|]. rewrite Heq.
  assert (avoids not_sharing (obtain_prepared_file w fuel 0 sp seg)) as Ha.
  { pose proof (avoids_sharing_prepare_segment w).
    unfold obtain_prepared_file. cbn [Z.eqb negb andb]. cbv zeta.
    auto 20 with avoids. }
  apply Ha.
Qed.

Lemma writable_segment_never_shared_witness :
  obtain_prepared_file (world_preparer 0) 1 1 share_dir
    (mkSeg 65536 77824 12288 20480 8192 3 0 3) pstate0
  = obtain_prepared_file (world_preparer 0) 1 0 share_dir
      (mkSeg 65536 77824 12288 20480 8192 3 0 3) pstate0
  /\ exists evs,
      trace (fst (obtain_prepared_file (world_preparer 0) 1 1 share_dir
                    (mkSeg 65536 77824 12288 20480 8192 3 0 3) pstate0))
      = trace pstate0 ++ evs
      /\ Forall not_sharing evs.
Proof.
  apply (writable_segment_never_shared (world_preparer 0) 1 1 share_dir
           true img_two 3 phdr_data
           (mkSeg 65536 77824 12288 20480 8192 3 0 3) pstate0).
  - vm_compute. discriminate.
  - reflexivity.
Defined.

(** X17: [obtain_prepared_file] returns 0 or -1, and -1 only when the
    unlinked file failed: the request for an unlinked descriptor is in the
    trace, and either it was refused and is the last event, or it is
    followed by nothing but the failed mapping of [prepare_segment] on
    that descriptor.  A failure of the shared-file path alone never fails
    the segment. *)
Theorem obtain_prepared_file_failure (w : world) (fuel : nat) (sh : Z)
    (sp : string) (seg s' : seg_info) (st st' : pstate) (r : Z) :
  obtain_prepared_file w fuel sh sp seg st = (st', Returns (r, s')) ->
  (r = 0 \/ r = -1)
  /\ (r = -1 ->
      exists pre a post,
        trace st'
        = trace st
          ++ pre
          ++ (F_obtain_prepared_file, C_hugetlbfs_unlinked_fd, a) :: post
        /\ ((rv a < 0 /\ post = [])
            \/ (0 <= rv a /\ fd s' = rv a
                /\ exists len am,
                    post = [(F_prepare_segment,
                             C_mmap 0 len (Z.lor PROT_READ PROT_WRITE)
                                    MAP_SHARED (rv a) 0, am)]
                    /\ rv am = MAP_FAILED))).
Proof.
  unfold obtain_prepared_file. intros H.
  apply bind_inv in H as (st1 & [shared seg1] & H1 & H).
  assert (exists pre, trace st1 = trace st ++ pre) as (pre & Hpre).
  { assert (quiet (if negb (sh =? 0) && (Z.land (prot seg) PROT_WRITE =? 0)
                   then r0 <- find_or_prepare_shared_file w fuel sp seg ;;
                        ret (fst r0 =? 0, snd r0)
                   else ret (false, seg))) as Hq.
    { destruct (negb (sh =? 0) && (Z.land (prot seg) PROT_WRITE =? 0));
        [|apply quiet_ret].
      apply quiet_bind; [apply quiet_find_or_prepare_shared_file|].
      intros ?. apply quiet_ret. }
    destruct (run_grows _ _ _ _ Hq H1) as (pre & Hp & _). now exists pre. }
  destruct shared.
  - inversion H; subst. split; [now left|]. intros Hx. discriminate Hx.
  - apply bind_inv in H as (st2 & a & H2 & H). apply sys_run in H2.
    destruct (rv a <? 0) eqn:Ea.
    + inversion H; subst. split; [now right|]. intros _.
      exists pre, a, []. split; [now rewrite H2, Hpre, <- app_assoc|].
      left. apply Z.ltb_lt in Ea. auto.
    + apply Z.ltb_ge in Ea.
      apply bind_inv in H as (st3 & rp & H3 & H).
      destruct (rp <? 0) eqn:Ep; inversion H; subst;
        [|split; [now left|intros Hx; discriminate Hx]].
      split; [now right|]. intros _.
      unfold prepare_segment in H3. cbv zeta in H3.
      apply bind_inv in H3 as (st4 & am & H4 & H3). apply sys_run in H4.
      destruct (rv am =? MAP_FAILED) eqn:Em.
      * inversion H3; subst. apply Z.eqb_eq in Em.
        exists pre, a, [(F_prepare_segment,
                         C_mmap 0 (prepare_size w (set_fd seg1 (rv a)))
                                (Z.lor PROT_READ PROT_WRITE) MAP_SHARED
                                (rv a) 0, am)].
        split; [now rewrite H4, H2, Hpre, <- !app_assoc|].
        right. split; [exact Ea|]. split; [reflexivity|].
        eexists _, am. split; [reflexivity|exact Em].
      * apply bind_inv in H3 as (st5 & a5 & _ & H3).
        apply bind_inv in H3 as (st6 & [] & _ & H3).
        apply bind_inv in H3 as (st7 & a7 & _ & H3).
        inversion H3; subst. discriminate.
Qed.

Lemma obtain_prepared_file_failure_witness :
  (-1 = 0 \/ -1 = -1)
  /\ (-1 = -1 ->
      exists pre a post,
        trace (fst run_unprepared)
        = trace pstate0
          ++ pre
          ++ (F_obtain_prepared_file, C_hugetlbfs_unlinked_fd, a) :: post
        /\ ((rv a < 0 /\ post = [])
            \/ (0 <= rv a /\ fd seg_text = rv a
                /\ exists len am,
                    post = [(F_prepare_segment,
                             C_mmap 0 len (Z.lor PROT_READ PROT_WRITE)
                                    MAP_SHARED (rv a) 0, am)]
                    /\ rv am = MAP_FAILED))).
Proof.
  apply (obtain_prepared_file_failure (world_unlinked (-1)) 1 0
           EmptyString seg_text seg_text pstate0 (fst run_unprepared) (-1)).
  vm_compute. reflexivity.
Defined.

(** ** remap_segments: order and arguments of its calls *)

Lemma nth_z_of_nth_error {A : Type} (l : list A) (i : Z) (x : A) :
  0 <= i -> nth_error l (Z.to_nat i) = Some x -> nth_z l i = Some x.
Proof.
  intros Hi H. unfold nth_z.
  now replace (i <? 0) with false by (symmetry; apply Z.ltb_ge; lia).
Qed.

Section RemapCalls.

Variable w : world.

Lemma for_segs_unmap_run (seg l : list seg_info) :
  forall i st,
    0 <= i ->
    firstn (List.length l) (skipn (Z.to_nat i) seg) = l ->
    exists st' evs,
      for_segs (List.length l) i seg (remap_unmap w) st = (st', Returns tt)
      /\ trace st' = trace st ++ evs
      /\ map call_of evs = map munmap_call l
      /\ Forall is_munmap evs.
Proof.
  induction l as [|s l IH]; intros i st Hi Hl.
  - exists st, []. cbn. rewrite app_nil_r. repeat split; constructor.
  - cbn [List.length] in Hl. apply firstn_skipn_cons in Hl as [Hs Hl].
    cbn [List.length for_segs].
    rewrite (nth_z_of_nth_error _ _ _ Hi Hs).
    unfold remap_unmap at 1.
    set (c := C_munmap (vaddr s) (memsz s)).
    set (a := oracle w (List.length (trace st)) c).
    set (st1 := mkPstate (trace st ++ [(F_remap_segments, c, a)])
                  (match err a with Some e => e | None => errno st end)).
    assert ((sys w F_remap_segments c ;;; ret tt) st = (st1, Returns tt))
      as H1 by reflexivity.
    rewrite (bind_returns _ _ _ _ _ H1).
    replace (S (Z.to_nat i)) with (Z.to_nat (i + 1)) in Hl by lia.
    destruct (IH (i + 1) st1 ltac:(lia) Hl) as (st' & evs & Hr & Ht & Hc & Hf).
    exists st', ((F_remap_segments, c, a) :: evs).
    split; [exact Hr|]. split.
    + rewrite Ht. subst st1. cbn [trace]. now rewrite <- app_assoc.
    + split; [cbn [map]; now rewrite Hc|].
      constructor; [eexists _, _, _; reflexivity|exact Hf].
Qed.

Lemma for_segs_map_run (seg l : list seg_info) :
  (forall n addr len pr fildes,
      rv (oracle w n (C_mmap addr len pr (Z.lor MAP_PRIVATE MAP_FIXED)
                             fildes 0)) = addr) ->
  Forall (fun s => vaddr s <> MAP_FAILED) l ->
  forall i st,
    0 <= i ->
    firstn (List.length l) (skipn (Z.to_nat i) seg) = l ->
    exists st' evs,
      for_segs (List.length l) i seg (remap_map w) st = (st', Returns tt)
      /\ trace st' = trace st ++ evs
      /\ map call_of evs = map (remap_call (gethugepagesize w)) l.
Proof.
  intros Hok Hnf. induction l as [|s l IH]; intros i st Hi Hl.
  - exists st, []. cbn. rewrite app_nil_r. repeat split.
  - inversion Hnf as [|? ? Hs0 Hnf']; subst.
    cbn [List.length] in Hl. apply firstn_skipn_cons in Hl as [Hs Hl].
    cbn [List.length for_segs].
    rewrite (nth_z_of_nth_error _ _ _ Hi Hs).
    assert (exists st1,
               remap_map w i s st = (st1, Returns tt)
               /\ exists a,
                   trace st1
                   = trace st
                     ++ [(F_remap_segments,
                          remap_call (gethugepagesize w) s, a)])
      as (st1 & H1 & a & Ht1).
    { unfold remap_map. cbv zeta. fold (remap_call (gethugepagesize w) s).
      set (c := remap_call (gethugepagesize w) s).
      set (a := oracle w (List.length (trace st)) c).
      set (st1 := mkPstate (trace st ++ [(F_remap_segments, c, a)])
                    (match err a with Some e => e | None => errno st end)).
      assert (sys w F_remap_segments c st = (st1, Returns a)) as Hsys
        by reflexivity.
      rewrite (bind_returns _ _ _ _ _ Hsys).
      assert (rv a = vaddr s) as Hrv by (subst a c; apply Hok).
      unfold get_errno, bind. rewrite Hrv.
      replace (vaddr s =? MAP_FAILED) with false
        by (symmetry; now apply Z.eqb_neq).
      rewrite Z.eqb_refl. cbn [when negb ret].
      exists st1. split; [reflexivity|]. now exists a. }
    rewrite (bind_returns _ _ _ _ _ H1).
    replace (S (Z.to_nat i)) with (Z.to_nat (i + 1)) in Hl by lia.
    destruct (IH Hnf' (i + 1) st1 ltac:(lia) Hl) as (st' & evs & Hr & Ht & Hc).
    exists st', ((F_remap_segments, remap_call (gethugepagesize w) s, a)
                 :: evs).
    split; [exact Hr|]. split.
    + now rewrite Ht, Ht1, <- app_assoc.
    + cbn [map]. now rewrite Hc.
Qed.

Lemma map_phase_no_munmap (evs : list event) (out : outcome unit) :
  map_phase evs out -> Forall (fun e => ~ is_munmap e) evs.
Proof.
  assert (forall tail, abort_tail tail ->
                       Forall (fun e => ~ is_munmap e) tail) as Htail.
  { intros tail (msgs & ap & ak & -> & Hw). apply Forall_app. split.
    - eapply Forall_impl; [|exact Hw].
      intros e (s & a & ->) (ad & ln & an & H). discriminate.
    - repeat constructor; intros (ad & ln & an & H); discriminate. }
  induction 1 as [| |e addr a rest out Hfix _ _ _ IH
                  |e addr a tail Hfix _ Ht].
  - constructor.
  - constructor.
  - constructor; [|exact IH].
    destruct Hfix as (l & p & f & ->). intros (ad & ln & an & H).
    discriminate.
  - constructor; [|now apply Htail].
    destruct Hfix as (l & p & f & ->). intros (ad & ln & an & H).
    discriminate.
Qed.

(** X18: in every run of [remap_segments] on [num] segments, the first
    call is the idle [mmap(0, 0, 0, 0, 0, 0)], then every segment is
    unmapped, in table order and with its own [vaddr] and [memsz], and
    only then the remapping starts: no unmapping follows a remapping,
    whatever the mappings answer. *)
Theorem remap_unmaps_before_mapping (seg : list seg_info) (num : Z)
    (st : pstate) :
  0 <= num <= Z.of_nat (List.length seg) ->
  exists a0 mun maps,
    trace (fst (remap_segments w seg num st))
    = trace st
      ++ (F_remap_segments, C_mmap 0 0 0 0 0 0, a0) :: mun ++ maps
    /\ map call_of mun = map munmap_call (firstn (Z.to_nat num) seg)
    /\ Forall (fun e => ~ is_munmap e) maps.
Proof.
  intros Hn. unfold remap_segments.
  set (c0 := C_mmap 0 0 0 0 0 0).
  set (a0 := oracle w (List.length (trace st)) c0).
  set (st0 := mkPstate (trace st ++ [(F_remap_segments, c0, a0)])
                (match err a0 with Some e => e | None => errno st end)).
  assert (sys w F_remap_segments c0 st = (st0, Returns a0)) as H0
    by reflexivity.
  rewrite (bind_returns _ _ _ _ _ H0).
  set (l := firstn (Z.to_nat num) seg).
  assert (List.length l = Z.to_nat num) as Hl
    by (subst l; rewrite length_firstn; lia).
  destruct (for_segs_unmap_run seg l 0 st0 (Z.le_refl 0))
    as (st1 & mun & Hu & Ht1 & Hc & _).
  { rewrite Hl. reflexivity. }
  rewrite Hl in Hu. rewrite (bind_returns _ _ _ _ _ Hu).
  destruct (for_segs_map_phase w seg (Z.to_nat num) 0 st1)
    as (st2 & out & maps & Hm & Ht2 & Hp).
  rewrite Hm. cbn [fst]. exists a0, mun, maps. split.
  - rewrite Ht2, Ht1. subst st0. cbn [trace].
    now rewrite <- !app_assoc.
  - split; [exact Hc|]. eapply map_phase_no_munmap; eauto.
Qed.

(** X19: when every fixed-address mapping lands where it is asked,
    [remap_segments] returns, and its calls are the idle [mmap], the
    unmapping of each of the [num] segments, and then for each segment, in
    table order, one private fixed mapping at the segment's own [vaddr],
    of [memsz] rounded up to the huge page size, with the segment's own
    protection and descriptor, at offset 0. *)
Theorem remap_segments_success (seg : list seg_info) (num : Z)
    (st : pstate) :
  0 <= num <= Z.of_nat (List.length seg) ->
  (forall n addr len pr fildes,
      rv (oracle w n (C_mmap addr len pr (Z.lor MAP_PRIVATE MAP_FIXED)
                             fildes 0)) = addr) ->
  Forall (fun s => vaddr s <> MAP_FAILED) seg ->
  snd (remap_segments w seg num st) = Returns tt
  /\ calls_of (fst (remap_segments w seg num st))
     = calls_of st
       ++ C_mmap 0 0 0 0 0 0
          :: map munmap_call (firstn (Z.to_nat num) seg)
       ++ map (remap_call (gethugepagesize w)) (firstn (Z.to_nat num) seg).
Proof.
  intros Hn Hok Hnf. unfold remap_segments.
  set (c0 := C_mmap 0 0 0 0 0 0).
  set (a0 := oracle w (List.length (trace st)) c0).
  set (st0 := mkPstate (trace st ++ [(F_remap_segments, c0, a0)])
                (match err a0 with Some e => e | None => errno st end)).
  assert (sys w F_remap_segments c0 st = (st0, Returns a0)) as H0
    by reflexivity.
  rewrite (bind_returns _ _ _ _ _ H0).
  set (l := firstn (Z.to_nat num) seg).
  assert (List.length l = Z.to_nat num) as Hl
    by (subst l; rewrite length_firstn; lia).
  destruct (for_segs_unmap_run seg l 0 st0 (Z.le_refl 0))
    as (st1 & mun & Hu & Ht1 & Hc1 & _).
  { rewrite Hl. reflexivity. }
  assert (Forall (fun s => vaddr s <> MAP_FAILED) l) as Hnfl.
  { apply Forall_forall. intros s Hs. rewrite Forall_forall in Hnf.
    apply Hnf. rewrite <- (firstn_skipn (Z.to_nat num) seg).
    apply in_or_app. now left. }
  destruct (for_segs_map_run seg l Hok Hnfl 0 st1 (Z.le_refl 0))
    as (st2 & maps & Hm & Ht2 & Hc2).
  { rewrite Hl. reflexivity. }
  rewrite Hl in Hu, Hm.
  rewrite (bind_returns _ _ _ _ _ Hu), Hm. cbn [fst snd].
  split; [reflexivity|]. unfold calls_of.
  rewrite Ht2, Ht1. subst st0. cbn [trace].
  rewrite !map_app. cbn [map fst snd].
  change (map (fun e : event => snd (fst e)) mun) with (map call_of mun).
  change (map (fun e : event => snd (fst e)) maps) with (map call_of maps).
  rewrite Hc1, Hc2, <- !app_assoc. reflexivity.
Qed.

End RemapCalls.

Lemma remap_unmaps_before_mapping_witness :
  exists a0 mun maps,
    trace (fst (remap_segments world_wrong_address segs_two 2 pstate0))
    = trace pstate0
      ++ (F_remap_segments, C_mmap 0 0 0 0 0 0, a0) :: mun ++ maps
    /\ map call_of mun = map munmap_call (firstn (Z.to_nat 2) segs_two)
    /\ Forall (fun e => ~ is_munmap e) maps.
Proof.
  apply (remap_unmaps_before_mapping world_wrong_address segs_two 2 pstate0).
  simpl. lia.
Defined.

Lemma remap_segments_success_witness :
  snd (remap_segments (world_unlinked 7) segs_two 2 pstate0) = Returns tt
  /\ calls_of (fst (remap_segments (world_unlinked 7) segs_two 2 pstate0))
     = calls_of pstate0
       ++ C_mmap 0 0 0 0 0 0
          :: map munmap_call (firstn (Z.to_nat 2) segs_two)
       ++ map (remap_call (gethugepagesize (world_unlinked 7)))
              (firstn (Z.to_nat 2) segs_two).
Proof.
  apply (remap_segments_success (world_unlinked 7) segs_two 2 pstate0).
  - simpl. lia.
  - intros n addr len pr fildes. reflexivity.
  - repeat constructor; vm_compute; discriminate.
Defined.

(** ** prepare_segment: what is copied where *)

Lemma wrap_add_wrap_r (a b : Z) : wrap (a + wrap b) = wrap (a + b).
Proof. unfold wrap. apply Zplus_mod_idemp_r. Qed.

Lemma wrap_sub_wrap_r (a b : Z) : wrap (a - wrap b) = wrap (a - b).
Proof. unfold wrap. apply Zminus_mod_idemp_r. Qed.

Lemma window_offset (p v f ev : Z) :
  wrap (p + f + ptr_diff ev (ptr_add v f)) = wrap (p + (ev - v)).
Proof.
  unfold ptr_diff, ptr_add.
  rewrite wrap_add_wrap_r.
  replace (p + f + (ev - wrap (v + f))) with (p + f + ev - wrap (v + f))
    by lia.
  rewrite wrap_sub_wrap_r. f_equal. lia.
Qed.

(** X9: when the temporary mapping succeeds at [p], [prepare_segment]
    returns 0 after these calls and no others: the mapping, the copy of
    [filesz] bytes from [vaddr] to [p], for a segment with a copy window
    the copy of [extrasz] bytes from [extra_vaddr] to
    [p + (extra_vaddr - vaddr)], and the unmapping.  The window lands at
    the offset in the file that it has in the segment. *)
Theorem prepare_segment_copies (w : world) (seg : seg_info) (st : pstate) :
  rv (oracle w (List.length (trace st))
        (C_mmap 0 (spec_population_size (gethugepagesize w) seg)
                (Z.lor PROT_READ PROT_WRITE) MAP_SHARED (fd seg) 0))
  <> MAP_FAILED ->
  snd (prepare_segment w seg st) = Returns 0
  /\ calls_of (fst (prepare_segment w seg st))
     = calls_of st
       ++ (let p := rv (oracle w (List.length (trace st))
                          (C_mmap 0
                             (spec_population_size (gethugepagesize w) seg)
                             (Z.lor PROT_READ PROT_WRITE) MAP_SHARED
                             (fd seg) 0)) in
           [C_mmap 0 (spec_population_size (gethugepagesize w) seg)
                   (Z.lor PROT_READ PROT_WRITE) MAP_SHARED (fd seg) 0;
            C_memcpy p (vaddr seg) (filesz seg)]
           ++ (if extra_vaddr seg =? 0 then []
               else [C_memcpy (wrap (p + (extra_vaddr seg - vaddr seg)))
                              (extra_vaddr seg) (extrasz seg)])
           ++ [C_munmap p (spec_population_size (gethugepagesize w) seg)]).
Proof.
  assert (prepare_size w seg = spec_population_size (gethugepagesize w) seg)
    as Hsz.
  { unfold prepare_size, spec_population_size.
    now destruct (extra_vaddr seg =? 0). }
  intros Hok. cbv zeta. unfold prepare_segment. rewrite Hsz.
  set (size := spec_population_size (gethugepagesize w) seg) in *.
  unfold bind, sys, when, ret, calls_of. cbv zeta. cbn [trace errno].
  set (a := oracle w (List.length (trace st)) _) in *.
  replace (rv a =? MAP_FAILED) with false
    by (symmetry; now apply Z.eqb_neq).
  rewrite window_offset.
  destruct (extra_vaddr seg =? 0); cbn [negb fst snd trace];
    (split; [reflexivity|]);
    rewrite !map_app; cbn [map fst snd app];
    rewrite <- !app_assoc; reflexivity.
Qed.

Lemma prepare_segment_copies_witness :
  snd (prepare_segment (world_unlinked 7) seg_window pstate0) = Returns 0
  /\ calls_of (fst (prepare_segment (world_unlinked 7) seg_window pstate0))
     = [C_mmap 0 2097152 (Z.lor PROT_READ PROT_WRITE) MAP_SHARED 0 0;
        C_memcpy 139637976727552 65536 12288;
        C_memcpy (139637976727552 + 12544) 78080 128;
        C_munmap 139637976727552 2097152].
Proof.
  apply (prepare_segment_copies (world_unlinked 7) seg_window pstate0).
  vm_compute. discriminate.
Defined.

(** ** setup_elflink: runs that change nothing, and runs that abort *)

Lemma parse_elf_loop_none_eligible (mc : bool) (img : image)
    (l : list Elf_Phdr) :
  forall i tbl num,
    0 <= i ->
    firstn (List.length l) (skipn (Z.to_nat i) (phdr_mem img)) = l ->
    filter eligible l = [] ->
    parse_elf_loop mc img (List.length l) i tbl num = Some (tbl, num).
Proof.
  induction l as [|ph l IH]; intros i tbl num Hi Hl Hf; [reflexivity|].
  cbn [List.length] in Hl. apply firstn_skipn_cons in Hl as [Hph Hl].
  cbn [List.length parse_elf_loop].
  rewrite (nth_z_of_nth_error _ _ _ Hi Hph).
  replace (S (Z.to_nat i)) with (Z.to_nat (i + 1)) in Hl by lia.
  cbn [filter] in Hf. unfold eligible in Hf at 1.
  destruct (p_type ph =? PT_LOAD); cbn [negb andb] in *;
    [|apply IH; (assumption || lia)].
  destruct (Z.land (p_flags ph) PF_LINUX_HUGETLB =? 0); cbn [negb] in *;
    [apply IH; (assumption || lia)|discriminate].
Qed.

(** X20: for an executable without a marked PT_LOAD header,
    [setup_elflink] returns without a single call, whatever the
    environment asks for: the share directory is not looked for, nothing
    is prepared and nothing is remapped. *)
Theorem setup_elflink_not_linked (w : world) (fuel : nat) (img : image) :
  executable_start w = Some img ->
  0 <= e_phnum img <= Z.of_nat (List.length (phdr_mem img)) ->
  count_eligible img = 0 ->
  setup_elflink w fuel pstate0 = (pstate0, Returns tt).
Proof.
  intros He Hn Hc. unfold setup_elflink. rewrite He.
  destruct (check_env w flags0) as [r g].
  destruct (negb (r =? 0)); [reflexivity|].
  unfold parse_elf, count_eligible in *.
  set (l := firstn (Z.to_nat (e_phnum img)) (phdr_mem img)) in *.
  assert (List.length l = Z.to_nat (e_phnum img)) as Hl
    by (subst l; rewrite length_firstn; lia).
  rewrite <- Hl, parse_elf_loop_none_eligible; try (reflexivity || lia).
  - rewrite Hl. reflexivity.
  - destruct (filter eligible l); [reflexivity|simpl in Hc; lia].
Qed.

Lemma setup_elflink_not_linked_witness :
  setup_elflink world_plain 1 pstate0 = (pstate0, Returns tt).
Proof.
  apply (setup_elflink_not_linked world_plain 1 img_plain).
  - reflexivity.
  - simpl. lia.
  - reflexivity.
Defined.

(** X21: a share path that [find_or_create_share_path] accepts has at
    most PATH_MAX characters: it fits the [share_path] buffer. *)
Theorem share_path_fits (w : world) (old : string) (st st' : pstate)
    (sp : string) :
  find_or_create_share_path w old st = (st', Returns (0, sp)) ->
  strlen sp <= PATH_MAX.
Proof.
  unfold find_or_create_share_path. intros H.
  destruct (getenv w "HUGETLB_SHARE_PATH") as [env|].
  - destruct (negb (hugetlbfs_test_path w env =? 0)); [inversion H|].
    apply bind_inv in H as (st1 & p & H1 & H). inversion H; subst.
    unfold assemble_path in H1.
    destruct (strlen env >? PATH_MAX) eqn:E; [discriminate|].
    inversion H1; subst. rewrite Z.gtb_ltb in E. now apply Z.ltb_ge in E.
  - apply bind_inv in H as (st1 & p & H1 & H).
    unfold assemble_path in H1.
    destruct (strlen _ >? PATH_MAX) eqn:E; [discriminate|].
    inversion H1; subst. rewrite Z.gtb_ltb in E. apply Z.ltb_ge in E.
    apply bind_inv in H as (st2 & r & _ & H).
    apply bind_inv in H as (st3 & e & _ & H).
    destruct (negb (rv r =? 0) && negb (e =? EEXIST)); [inversion H|].
    apply bind_inv in H as (st4 & r4 & _ & H).
    repeat match type of H with
           | context [if ?b then _ else _] => destruct b
           end; inversion H; subst; exact E.
Qed.

Lemma share_path_fits_witness : strlen "/mnt/huge/pub" <= PATH_MAX.
Proof.
  apply (share_path_fits
           (world_foreign_dir (Some "/mnt/huge/pub"%string)) EmptyString
           pstate0 pstate0 "/mnt/huge/pub").
  reflexivity.
Defined.

(** X22: an explicit HUGETLB_SHARE_PATH on hugetlbfs that is longer than
    PATH_MAX is fatal: when the run reaches the share-path step,
    [assemble_path] calls [abort()] and the constructor ends the process
    with SIGABRT, before anything is prepared. *)
Theorem overlong_share_path_aborts (w : world) (fuel : nat) (env : string)
    (g : flags) (tbl : list seg_info) (num : Z) :
  getenv w "HUGETLB_SHARE_PATH" = Some env ->
  hugetlbfs_test_path w env = 0 ->
  PATH_MAX < strlen env ->
  reaches_share_step w g tbl num ->
  snd (setup_elflink w fuel pstate0) = Killed SIGABRT
  /\ calls_of (fst (setup_elflink w fuel pstate0)) = [C_abort].
Proof.
  intros Henv Ht Hlen (img & He & Hc & Hs & Hp & Hn).
  unfold setup_elflink. rewrite He, Hc. cbn [negb Z.eqb]. rewrite Hp.
  replace (num =? 0) with false by (symmetry; now apply Z.eqb_neq).
  replace (sharing g =? 0) with false by (symmetry; now apply Z.eqb_neq).
  cbn [negb]. unfold find_or_create_share_path. rewrite Henv, Ht.
  cbn [Z.eqb negb]. unfold assemble_path.
  replace (strlen env >? PATH_MAX) with true
    by (symmetry; apply Z.gtb_lt; lia).
  split; reflexivity.
Qed.

Lemma overlong_share_path_aborts_witness :
  snd (setup_elflink world_long_path 1 pstate0) = Killed SIGABRT
  /\ calls_of (fst (setup_elflink world_long_path 1 pstate0)) = [C_abort].
Proof.
  apply (overlong_share_path_aborts world_long_path 1 long_path
           (mkFlags true 1 false)
           [mkSeg 4194304 0 8192 8192 0 5 0 0; seg_zero] 1).
  - reflexivity.
  - reflexivity.
  - vm_compute. reflexivity.
  - exists img_one. repeat split; try (vm_compute; reflexivity);
      discriminate.
Defined.

(** ** setup_elflink without sharing *)

Lemma check_env_sharing_off (w : world) :
  match getenv w "HUGETLB_SHARE" with
  | Some env => atoi env <> 1
  | None => True
  end ->
  sharing (snd (check_env w flags0)) = 0.
Proof.
  intros H. unfold check_env.
  destruct (env_is_no w "HUGETLB_ELFMAP"); [reflexivity|].
  destruct (match getenv w "LD_PRELOAD" with
            | Some env => strstr env "libhugetlbfs"
            | None => false
            end); [reflexivity|].
  cbv zeta. cbn [snd sharing].
  destruct (getenv w "HUGETLB_SHARE") as [env|]; [|reflexivity].
  destruct (atoi env =? 2); [reflexivity|].
  destruct (atoi env =? 1) eqn:E; [|reflexivity].
  apply Z.eqb_eq in E. contradiction.
Qed.

Lemma map_phase_not_sharing (evs : list event) (out : outcome unit) :
  map_phase evs out -> Forall not_sharing evs.
Proof.
  assert (forall tail, abort_tail tail -> Forall not_sharing tail) as Htail.
  { intros tail (msgs & ap & ak & -> & Hw). apply Forall_app. split.
    - eapply Forall_impl; [|exact Hw]. intros e (s & a & ->). reflexivity.
    - repeat constructor. }
  induction 1 as [| |e addr a rest out Hfix _ _ _ IH
                  |e addr a tail Hfix _ Ht].
  - constructor.
  - constructor.
  - constructor; [|exact IH]. destruct Hfix as (l & p & f & ->).
    reflexivity.
  - constructor; [|now apply Htail]. destruct Hfix as (l & p & f & ->).
    reflexivity.
Qed.

Lemma avoids_sharing_remap_segments (w : world) (seg : list seg_info)
    (num : Z) :
  avoids not_sharing (remap_segments w seg num).
Proof.
  intros st. unfold remap_segments.
  set (c0 := C_mmap 0 0 0 0 0 0).
  set (a0 := oracle w (List.length (trace st)) c0).
  set (st0 := mkPstate (trace st ++ [(F_remap_segments, c0, a0)])
                (match err a0 with Some e => e | None => errno st end)).
  assert (sys w F_remap_segments c0 st = (st0, Returns a0)) as H0
    by reflexivity.
  rewrite (bind_returns _ _ _ _ _ H0).
  destruct (for_segs_unmap w seg (Z.to_nat num) 0 st0)
    as (st1 & mun & Ht1 & Hmun & Hu).
  assert (Forall not_sharing mun) as Hm.
  { eapply Forall_impl; [|exact Hmun]. intros e (ad & ln & an & ->).
    reflexivity. }
  destruct Hu as [Hu | Hu].
  - rewrite (bind_returns _ _ _ _ _ Hu).
    destruct (for_segs_map_phase w seg (Z.to_nat num) 0 st1)
      as (st2 & out & maps & Hmp & Ht2 & Hp).
    rewrite Hmp. cbn [fst].
    exists ((F_remap_segments, c0, a0) :: mun ++ maps). split.
    + rewrite Ht2, Ht1. subst st0. cbn [trace]. now rewrite <- !app_assoc.
    + constructor; [reflexivity|]. apply Forall_app. split; [exact Hm|].
      eapply map_phase_not_sharing; eauto.
  - unfold bind. rewrite Hu. cbn [fst].
    exists ((F_remap_segments, c0, a0) :: mun). split.
    + rewrite Ht1. subst st0. cbn [trace]. now rewrite <- !app_assoc.
    + constructor; [reflexivity|exact Hm].
Qed.

Lemma avoids_sharing_obtain_unshared (w : world) (fuel : nat) (sp : string)
    (seg : seg_info) :
  avoids not_sharing (obtain_prepared_file w fuel 0 sp seg).
Proof.
  pose proof (avoids_sharing_prepare_segment w).
  unfold obtain_prepared_file. cbn [Z.eqb negb andb]. cbv zeta.
  auto 20 with avoids.
Qed.

Lemma avoids_sharing_obtain_all (w : world) (fuel : nat) (g : flags)
    (sp : string) (n : nat) :
  sharing g = 0 ->
  forall i tbl, avoids not_sharing (obtain_all w fuel g sp n i tbl).
Proof.
  intros Hg. pose proof (avoids_sharing_obtain_unshared w fuel sp).
  induction n as [|n IH]; intros i tbl; cbn [obtain_all]; cbv zeta.
  - auto with avoids.
  - rewrite Hg. destruct (nth_z tbl i); auto 20 with avoids.
Qed.

(** X23: unless [atoi] reads HUGETLB_SHARE as the [int] 1, a run of
    [setup_elflink] holds no event of the shared-file functions: the share directory is neither
    created nor examined and no shared file is opened, renamed or
    unlinked, whatever else happens in the run.  This includes the value
    2, which once asked for the sharing of writable segments. *)
Theorem no_sharing_without_request (w : world) (fuel : nat) :
  match getenv w "HUGETLB_SHARE" with
  | Some env => atoi env <> 1
  | None => True
  end ->
  Forall not_sharing (trace (fst (setup_elflink w fuel pstate0))).
Proof.
  intros Henv. apply check_env_sharing_off in Henv.
  assert (avoids not_sharing (setup_elflink w fuel)) as Ha.
  { unfold setup_elflink.
    destruct (executable_start w) as [img|]; [|apply avoids_ret].
    destruct (check_env w flags0) as [r g]. cbn [snd] in Henv.
    destruct (negb (r =? 0)); [apply avoids_ret|].
    destruct (parse_elf (minimal_copy g) img htlb_seg_table0 0)
      as [[tbl num]|]; [|apply avoids_fault].
    destruct (num =? 0); [apply avoids_ret|].
    rewrite Henv. cbn [Z.eqb negb].
    apply avoids_bind; [apply avoids_ret|]. intros sp.
    destruct (negb (fst sp =? 0)); [apply avoids_ret|].
    apply avoids_bind; [now apply avoids_sharing_obtain_all|].
    intros [tbl'|]; [apply avoids_sharing_remap_segments|apply avoids_ret]. }
  destruct (Ha pstate0) as (evs & Hev & Hf). now rewrite Hev.
Qed.

Lemma no_sharing_without_request_witness :
  Forall not_sharing (trace (fst (setup_elflink world_share2 1 pstate0))).
Proof.
  apply (no_sharing_without_request world_share2 1).
  vm_compute. discriminate.
Defined.

(** The run with HUGETLB_SHARE=2 prepares an unlinked file and remaps. *)
Example world_share2_calls :
  calls_of (fst (setup_elflink world_share2 1 pstate0))
  = calls_of (fst run_prepared).
Proof. vm_compute. reflexivity. Qed.

(** ** parse_elf with minimal copy disabled *)

Lemma get_extracopy_false (img : image) (seg : seg_info)
    (phdr : list Elf_Phdr) (phnum : Z) :
  get_extracopy false img seg phdr phnum
  = Some (if filesz seg =? memsz seg then seg
          else set_extra seg (wrap (vaddr seg + filesz seg))
                         (wrap (memsz seg - filesz seg))).
Proof.
  unfold get_extracopy. destruct (filesz seg =? memsz seg); [reflexivity|].
  cbn [negb]. unfold bail2, ptr_diff, ptr_add.
  rewrite wrap_sub_wrap. do 3 f_equal. lia.
Qed.

(** X24: with minimal copy disabled, [parse_elf] cannot fault on the
    dynamic metadata, which it never reads: for a readable table with at
    most MAX_HTLB_SEGS marked headers it records every marked header, with
    the whole zero-fill tail as copy window when there is a tail and no
    window otherwise. *)
Theorem parse_elf_without_minimal_copy (img : image) :
  0 <= e_phnum img <= Z.of_nat (List.length (phdr_mem img)) ->
  count_eligible img <= MAX_HTLB_SEGS ->
  exists tbl',
    parse_elf false img htlb_seg_table0 0 = Some (tbl', count_eligible img)
    /\ (forall k i ph,
           nth_error (selected img) k = Some (i, ph) ->
           nth_z tbl' (Z.of_nat k)
           = Some (if p_filesz ph =? p_memsz ph then fresh_seg i ph
                   else set_extra (fresh_seg i ph)
                                  (wrap (p_vaddr ph + p_filesz ph))
                                  (wrap (p_memsz ph - p_filesz ph)))).
Proof.
  intros Hn Hc. unfold parse_elf, selected, count_eligible in *.
  set (l := firstn (Z.to_nat (e_phnum img)) (phdr_mem img)) in *.
  assert (List.length l = Z.to_nat (e_phnum img)) as Hl.
  { subst l. rewrite length_firstn. lia. }
  rewrite <- Hl.
  destruct (parse_elf_loop_selects false img
              ltac:(intros seg; rewrite get_extracopy_false; discriminate)
              l 0 htlb_seg_table0 0)
    as (tbl' & Hrun & _ & Hsel); try (reflexivity || lia).
  - rewrite Hl. reflexivity.
  - rewrite selected_from_length. lia.
  - intros j Hj. unfold MAX_HTLB_SEGS in Hj.
    assert (j = 0 \/ j = 1) as [-> | ->] by lia; reflexivity.
  - exists tbl'. rewrite selected_from_length in Hrun. split; [exact Hrun|].
    intros k i ph Hk. specialize (Hsel k i ph Hk).
    rewrite Z.add_0_l in Hsel. rewrite Hsel, get_extracopy_false.
    reflexivity.
Qed.

Lemma parse_elf_without_minimal_copy_witness :
  exists tbl',
    parse_elf false (img_scenario 81920) htlb_seg_table0 0
    = Some (tbl', count_eligible (img_scenario 81920))
    /\ (forall k i ph,
           nth_error (selected (img_scenario 81920)) k = Some (i, ph) ->
           nth_z tbl' (Z.of_nat k)
           = Some (if p_filesz ph =? p_memsz ph then fresh_seg i ph
                   else set_extra (fresh_seg i ph)
                                  (wrap (p_vaddr ph + p_filesz ph))
                                  (wrap (p_memsz ph - p_filesz ph)))).
Proof.
  apply (parse_elf_without_minimal_copy (img_scenario 81920)).
  - simpl. lia.
  - vm_compute. discriminate.
Defined.

(** ** setup_elflink without sharing never waits *)

Lemma no_wait_ret {A : Type} (a : A) : no_wait (ret a).
Proof. intros st. discriminate. Qed.

Lemma no_wait_fault {A : Type} : no_wait (@fault A).
Proof. intros st. discriminate. Qed.

Lemma no_wait_bind {A B : Type} (m : M A) (k : A -> M B) :
  no_wait m -> (forall a, no_wait (k a)) -> no_wait (bind m k).
Proof.
  intros Hm Hk st. unfold bind. specialize (Hm st).
  destruct (m st) as [st1 [a| s | |]]; cbn [snd] in *;
    try discriminate; [apply Hk|contradiction].
Qed.

Lemma no_wait_sys (w : world) (f : func) (c : call) : no_wait (sys w f c).
Proof. intros st. discriminate. Qed.

Lemma no_wait_when (b : bool) (m : M unit) : no_wait m -> no_wait (when b m).
Proof. intros H. destruct b; [exact H|apply no_wait_ret]. Qed.

Lemma no_wait_prepare_segment (w : world) (s : seg_info) :
  no_wait (prepare_segment w s).
Proof.
  unfold prepare_segment. cbv zeta.
  repeat first [ apply no_wait_sys | apply no_wait_ret | apply no_wait_when
               | apply no_wait_bind; [|intros ?]
               | match goal with
                 | |- no_wait (if ?b then _ else _) => destruct b
                 end ].
Qed.

Lemma no_wait_obtain_unshared (w : world) (fuel : nat) (sp : string)
    (seg : seg_info) :
  no_wait (obtain_prepared_file w fuel 0 sp seg).
Proof.
  unfold obtain_prepared_file. cbn [Z.eqb negb andb]. cbv zeta.
  apply no_wait_bind; [apply no_wait_ret|]. intros [shared s1].
  destruct shared; [apply no_wait_ret|].
  apply no_wait_bind; [apply no_wait_sys|]. intros a.
  destruct (rv a <? 0); [apply no_wait_ret|].
  apply no_wait_bind; [apply no_wait_prepare_segment|]. intros r.
  destruct (r <? 0); apply no_wait_ret.
Qed.

Lemma no_wait_obtain_all (w : world) (fuel : nat) (g : flags) (sp : string)
    (n : nat) :
  sharing g = 0 ->
  forall i tbl, no_wait (obtain_all w fuel g sp n i tbl).
Proof.
  intros Hg. induction n as [|n IH]; intros i tbl; cbn [obtain_all];
    cbv zeta; [apply no_wait_ret|].
  rewrite Hg. destruct (nth_z tbl i); [|apply no_wait_fault].
  apply no_wait_bind; [apply no_wait_obtain_unshared|]. intros r.
  destruct (fst r <? 0); [apply no_wait_ret|apply IH].
Qed.

Lemma no_wait_for_segs (seg : list seg_info) (body : Z -> seg_info -> M unit)
    (n : nat) :
  (forall i s, no_wait (body i s)) ->
  forall i, no_wait (for_segs n i seg body).
Proof.
  intros Hb. induction n as [|n IH]; intros i; cbn [for_segs];
    [apply no_wait_ret|].
  destruct (nth_z seg i); [|apply no_wait_fault].
  apply no_wait_bind; [apply Hb|]. intros ?. apply IH.
Qed.

Lemma no_wait_remap_map (w : world) (i : Z) (s : seg_info) :
  no_wait (remap_map w i s).
Proof.
  intros st.
  destruct (remap_map_run w i s st)
    as (st' & e & a & _ & [(_ & _ & -> & _) | (_ & tail & -> & _)]);
    discriminate.
Qed.

Lemma no_wait_remap_segments (w : world) (seg : list seg_info) (num : Z) :
  no_wait (remap_segments w seg num).
Proof.
  unfold remap_segments.
  apply no_wait_bind; [apply no_wait_sys|]. intros ?.
  apply no_wait_bind.
  - apply no_wait_for_segs. intros i s. unfold remap_unmap.
    apply no_wait_bind; [apply no_wait_sys|]. intros ?. apply no_wait_ret.
  - intros ?. apply no_wait_for_segs. apply no_wait_remap_map.
Qed.

(** X25: unless [atoi] reads HUGETLB_SHARE as the [int] 1,
    [setup_elflink] never waits: with any bound on the rounds of the retry loop, even none, the run
    ends by returning, by a fault or by SIGABRT, since the loop that
    sleeps belongs to the shared-file path alone. *)
Theorem setup_elflink_never_waits (w : world) (fuel : nat) :
  match getenv w "HUGETLB_SHARE" with
  | Some env => atoi env <> 1
  | None => True
  end ->
  snd (setup_elflink w fuel pstate0) <> Waiting.
Proof.
  intros Henv. apply check_env_sharing_off in Henv.
  assert (no_wait (setup_elflink w fuel)) as Ha.
  { unfold setup_elflink.
    destruct (executable_start w) as [img|]; [|apply no_wait_ret].
    destruct (check_env w flags0) as [r g]. cbn [snd] in Henv.
    destruct (negb (r =? 0)); [apply no_wait_ret|].
    destruct (parse_elf (minimal_copy g) img htlb_seg_table0 0)
      as [[tbl num]|]; [|apply no_wait_fault].
    destruct (num =? 0); [apply no_wait_ret|].
    rewrite Henv. cbn [Z.eqb negb].
    apply no_wait_bind; [apply no_wait_ret|]. intros sp.
    destruct (negb (fst sp =? 0)); [apply no_wait_ret|].
    apply no_wait_bind; [now apply no_wait_obtain_all|].
    intros [tbl'|]; [apply no_wait_remap_segments|apply no_wait_ret]. }
  apply Ha.
Qed.

Lemma setup_elflink_never_waits_witness :
  snd (setup_elflink world_share2 0 pstate0) <> Waiting.
Proof.
  apply (setup_elflink_never_waits world_share2 0).
  vm_compute. discriminate.
Defined.

(** ** Conversions to int *)

(** [atoi] yields an [int]. *)
Lemma atoi_range (s : string) : - 2 ^ 31 <= atoi s < 2 ^ 31.
Proof.
  unfold atoi, to_int.
  pose proof (Z.mod_pos_bound (strtol s + 2 ^ 31) (2 ^ 32)). lia.
Qed.

(** A value beyond the range of [int] is cut down: 2^32 + 1 reads as 1,
    so that HUGETLB_SHARE=4294967297 enables sharing, which starts with
    the share directory. *)
Example atoi_cuts_down :
  atoi "4294967297" = 1
  /\ atoi "2147483648" = - 2147483648
  /\ atoi " -12x" = - 12
  /\ atoi "99999999999999999999" = - 1
  /\ sharing (snd (check_env world_share_wide flags0)) = 1
  /\ firstn 2 (calls_of (fst (setup_elflink world_share_wide 1 pstate0)))
     = [C_mkdir "/mnt/huge/elflink-uid-1000" 448;
        C_lstat "/mnt/huge/elflink-uid-1000"].
Proof. repeat split; vm_compute; reflexivity. Qed.

(** The user id is printed as an [int]: for the user 4294967294 the
    default share directory is [elflink-uid--2]. *)
Example share_path_default_big_uid :
  share_path_default world_big_uid = "/mnt/huge/elflink-uid--2"%string
  /\ calls_of (fst (find_or_create_share_path world_big_uid EmptyString
                      pstate0))
     = [C_mkdir "/mnt/huge/elflink-uid--2" 448;
        C_lstat "/mnt/huge/elflink-uid--2"].
Proof. split; vm_compute; reflexivity. Qed.
